(** * caddy-lua: the [lua] HTTP handler of [lua.go]

    A shallow embedding of [lua.go]: the [Lua] configuration struct, its
    Caddyfile parser [UnmarshalCaddyfile] (with [parseCaddyfile]), [Validate]
    and the request handler [ServeHTTP].

    The handler is written against three libraries.  The parts of them that
    [lua.go] calls are modelled first, each in a module named after its Go
    package:
    - [strconv]: [ParseInt] (base 10, 64 bits) and its [NumError];
    - [caddyfile]: the token [Dispenser] ([Next], [NextBlock], [NextArg],
      [Args], [AllArgs], [CountRemainingArgs], [ArgErr], [Errf]);
    - [lua] (gopher-lua): [NewState], [DoFile], [Close], over an abstract
      interpreter whose script semantics is a parameter. *)

From Stdlib Require Import ZArith List String Ascii Bool Lia.
From Stdlib Require Import DecimalString.
Import ListNotations.
Local Open Scope Z_scope.
Local Open Scope string_scope.

(** ** Go values *)

(** Go's [error] values, as far as [lua.go] builds them.  [errorString] is
    what [errors.New] (and [fmt.Errorf] without [%w]) returns; [NumError] is
    [*strconv.NumError]; [wrapError pre err post] is what [fmt.Errorf] returns
    for a format with one [%w]: it wraps [err], and its message is the text
    before the verb, the message of [err], and the text after it. *)
Inductive error : Type :=
| errorString (s : string)
| NumError (Func Num : string) (Err : error)
| wrapError (pre : string) (err : error) (post : string).

(** [errors.Unwrap]. *)
Definition Unwrap (e : error) : option error :=
  match e with
  | errorString _ => None
  | NumError _ _ Err => Some Err
  | wrapError _ err _ => Some err
  end.

(** [fmt.Sprintf("%d", z)]. *)
Definition itoa (z : Z) : string := NilZero.string_of_int (Z.to_int z).

Section ErrorMessage.
(** [strconv.Quote] depends on Unicode tables; the message of an error is
    given for any quoting function. *)
Variable Quote : string -> string.

(** The [Error()] method. *)
Fixpoint Error (e : error) : string :=
  match e with
  | errorString s => s
  | NumError Func Num Err =>
      "strconv." ++ Func ++ ": parsing " ++ Quote Num ++ ": " ++ Error Err
  | wrapError pre err post => pre ++ Error err ++ post
  end.
End ErrorMessage.

(** A byte of a Go string as a number. *)
Definition byte_of (c : ascii) : Z := Z.of_N (N_of_ascii c).

(** Conversions to fixed-width integers truncate. *)
Definition to_uint64 (z : Z) : Z := z mod 2 ^ 64.
Definition to_uint8 (z : Z) : Z := z mod 2 ^ 8.
Definition to_signed (bits : Z) (z : Z) : Z :=
  (z + 2 ^ (bits - 1)) mod 2 ^ bits - 2 ^ (bits - 1).
Definition to_int64 (z : Z) : Z := to_signed 64 z.

(** The width of Go's [int] ([strconv.IntSize]) on the 64-bit platforms. *)
Definition IntSize : Z := 64.
Definition to_int (z : Z) : Z := to_signed IntSize z.

(** ** Package strconv

    After [atoi.go] of Go's [strconv]. *)

Module strconv.

Definition ErrSyntax : error := errorString "invalid syntax".
Definition ErrRange : error := errorString "value out of range".

Definition syntaxError (fn str : string) : error := NumError fn str ErrSyntax.
Definition rangeError (fn str : string) : error := NumError fn str ErrRange.

Definition fnParseUint : string := "ParseUint".
Definition fnParseInt : string := "ParseInt".

Definition maxUint64 : Z := 2 ^ 64 - 1.

(** [lower(c)] is [c | ('x' - 'X')]. *)
Definition lower (c : Z) : Z := Z.lor c 32.

(** The [switch] on a byte in the loop of [ParseUint], for a base other
    than 0 (no underscores): the digit value, or nothing in the [default]
    case. *)
Definition digit (c : Z) : option Z :=
  if ((48 <=? c) && (c <=? 57))%Z then Some (to_uint8 (c - 48))
  else if ((97 <=? lower c) && (lower c <=? 122))%Z
       then Some (to_uint8 (lower c - 97 + 10))
       else None.

(** The loop of [ParseUint] over the bytes of [s], with [n] so far. *)
Fixpoint ParseUint_loop (base cutoff maxVal : Z) (s0 s : string) (n : Z)
  : Z * option error :=
  match s with
  | EmptyString => (n, None)
  | String c rest =>
      match digit (byte_of c) with
      | None => (0, Some (syntaxError fnParseUint s0))
      | Some d =>
          if d >=? to_uint8 base then (0, Some (syntaxError fnParseUint s0))
          else if n >=? cutoff then (maxVal, Some (rangeError fnParseUint s0))
          else
            let n := to_uint64 (n * base) in
            let n1 := to_uint64 (n + d) in
            if ((n1 <? n) || (n1 >? maxVal))%Z
            then (maxVal, Some (rangeError fnParseUint s0))
            else ParseUint_loop base cutoff maxVal s0 rest n1
      end
  end.

(** [ParseUint(s, base, bitSize)] for [2 <= base <= 36] and
    [0 < bitSize <= 64], the only way [ParseInt(s, 10, 64)] calls it. *)
Definition ParseUint (s : string) (base bitSize : Z) : Z * option error :=
  if String.eqb s "" then (0, Some (syntaxError fnParseUint s))
  else
    let cutoff := maxUint64 / base + 1 in
    let maxVal := to_uint64 (Z.shiftl 1 bitSize - 1) in
    ParseUint_loop base cutoff maxVal s s 0.

(** The test [Err != ErrRange] on the [NumError] that [ParseUint]
    returned. *)
Definition isErrRange (e : error) : bool :=
  match e with
  | NumError _ _ (errorString m) => String.eqb m "value out of range"
  | _ => false
  end.

(** The assignments [Func = fnParseInt] and [Num = s0] on that error. *)
Definition setFuncNum (e : error) (fn s0 : string) : error :=
  match e with
  | NumError _ _ Err => NumError fn s0 Err
  | _ => e
  end.

(** [ParseInt(s, base, bitSize)], same bases and sizes. *)
Definition ParseInt (s : string) (base bitSize : Z) : Z * option error :=
  match s with
  | EmptyString => (0, Some (syntaxError fnParseInt s))
  | String c0 rest =>
      let s0 := s in
      let '(neg, s) :=
        if Ascii.eqb c0 "+" then (false, rest)
        else if Ascii.eqb c0 "-" then (true, rest)
        else (false, s) in
      let '(un, err) := ParseUint s base bitSize in
      if match err with Some e => negb (isErrRange e) | None => false end
      then (0, option_map (fun e => setFuncNum e fnParseInt s0) err)
      else
        let cutoff := to_uint64 (Z.shiftl 1 (bitSize - 1)) in
        if negb neg && (un >=? cutoff)
        then (to_int64 (cutoff - 1), Some (rangeError fnParseInt s0))
        else if neg && (un >? cutoff)
        then (to_int64 (- to_int64 cutoff), Some (rangeError fnParseInt s0))
        else
          let n := to_int64 un in
          ((if neg then to_int64 (- n) else n), None)
  end.

End strconv.

(** ** State passing *)

(** Go methods on a pointer receiver mutate the receiver.  A method of
    [*T] returning [A] is a function from the receiver's state to the result
    and the new state.  [None] is the model having no result, never a result
    of the code: a loop run on too little fuel, or a pointer that nothing
    allocated. *)
Definition Run (S A : Type) : Type := S -> option (A * S).

Definition ret {S A} (a : A) : Run S A := fun s => Some (a, s).

Definition bind {S A B} (m : Run S A) (k : A -> Run S B) : Run S B :=
  fun s => match m s with
           | Some (a, s') => k a s'
           | None => None
           end.

Definition get {S} : Run S S := fun s => Some (s, s).
Definition modify {S} (f : S -> S) : Run S unit := fun s => Some (tt, f s).
Definition outOfFuel {S A} : Run S A := fun _ => None.
Definition dangling {S A} : Run S A := fun _ => None.

Declare Scope run_scope.
Delimit Scope run_scope with run.
Notation "x <- m ;; k" := (bind m (fun x => k))
  (at level 61, m at next level, right associativity) : run_scope.
Notation "m ;;; k" := (bind m (fun _ => k))
  (at level 61, right associativity) : run_scope.

(** ** Package caddyfile: the token dispenser

    After [caddyconfig/caddyfile/dispenser.go] of Caddy 2: the methods that
    [lua.go] calls and those they call. *)

Module caddyfile.
Local Open Scope run_scope.

(** A token of a Caddyfile: its text and where it was read.  Tokens are
    those of one file read without [import] and without heredocs: the
    import chain and the quoting mark of the Go struct are left out. *)
Record Token : Type := mkToken {
  File : string;
  Line : Z;
  Text : string
}.

(** [Token{}]. *)
Definition zeroToken : Token := {| File := ""; Line := 0; Text := "" |}.

Record Dispenser : Type := mkDispenser {
  tokens : list Token;
  cursor : Z;
  nesting : Z
}.

Definition NewDispenser (tokens : list Token) : Dispenser :=
  {| tokens := tokens; cursor := -1; nesting := 0 |}.

(** [len(d.tokens)] and [d.tokens[i]]. *)
Definition len (d : Dispenser) : Z := Z.of_nat (List.length (tokens d)).
Definition index (d : Dispenser) (i : Z) : Token :=
  nth (Z.to_nat i) (tokens d) zeroToken.

Definition setCursor (c : Z) (d : Dispenser) : Dispenser :=
  {| tokens := tokens d; cursor := c; nesting := nesting d |}.
Definition setNesting (n : Z) (d : Dispenser) : Dispenser :=
  {| tokens := tokens d; cursor := cursor d; nesting := n |}.

Definition incCursor : Run Dispenser unit :=
  modify (fun d => setCursor (cursor d + 1) d).
Definition decCursor : Run Dispenser unit :=
  modify (fun d => setCursor (cursor d - 1) d).
Definition incNesting : Run Dispenser unit :=
  modify (fun d => setNesting (nesting d + 1) d).
Definition decNesting : Run Dispenser unit :=
  modify (fun d => setNesting (nesting d - 1) d).

Definition outside (d : Dispenser) : bool :=
  ((cursor d <? 0) || (cursor d >=? len d))%Z.

(** [Val], [Line] and [File] read the token under the cursor. *)
Definition Val (d : Dispenser) : string :=
  if outside d then "" else Text (index d (cursor d)).
Definition Line_ (d : Dispenser) : Z :=
  if outside d then 0 else Line (index d (cursor d)).
Definition File_ (d : Dispenser) : string :=
  if outside d then "" else File (index d (cursor d)).

(** [strings.Count(t.Text, "\n")]. *)
Fixpoint countNewlines (s : string) : Z :=
  match s with
  | EmptyString => 0
  | String c rest =>
      (if (byte_of c =? 10)%Z then 1 else 0) + countNewlines rest
  end.
Definition NumLineBreaks (t : Token) : Z := countNewlines (Text t).

Definition isNextOnNewLine (t1 t2 : Token) : bool :=
  if negb (String.eqb (File t1) (File t2)) then true
  else (Line t1 + NumLineBreaks t1 <? Line t2)%Z.

Definition Next : Run Dispenser bool :=
  d <- get;;
  if (cursor d <? len d - 1)%Z then incCursor;;; ret true
  else ret false.

Definition Prev : Run Dispenser bool :=
  d <- get;;
  if (cursor d >? -1)%Z then
    decCursor;;;
    d <- get;;
    ret (cursor d >? -1)%Z
  else ret false.

Definition nextOnSameLine : Run Dispenser bool :=
  d <- get;;
  if (cursor d <? 0)%Z then incCursor;;; ret true
  else if (cursor d >=? len d - 1)%Z then ret false
  else
    let curr := index d (cursor d) in
    let next := index d (cursor d + 1) in
    if negb (isNextOnNewLine curr next) then incCursor;;; ret true
    else ret false.

Definition NextArg : Run Dispenser bool :=
  same <- nextOnSameLine;;
  if negb same then ret false
  else
    d <- get;;
    if String.eqb (Val d) "{" then decCursor;;; ret false
    else ret true.

(** [Args(targets...)]: the targets are passed by pointer; the model takes
    their values and returns their values after the call. *)
Fixpoint Args (targets : list string) : Run Dispenser (bool * list string) :=
  match targets with
  | [] => ret (true, [])
  | t :: ts =>
      ok <- NextArg;;
      if negb ok then ret (false, t :: ts)
      else
        d <- get;;
        r <- Args ts;;
        ret (fst r, Val d :: snd r)
  end.

Definition AllArgs (targets : list string) : Run Dispenser (bool * list string) :=
  r <- Args targets;;
  if negb (fst r) then ret (false, snd r)
  else
    more <- NextArg;;
    if more then Prev;;; ret (false, snd r)
    else ret (true, snd r).

(** The number of tokens after the cursor: enough fuel for any loop that
    moves the cursor forward each time round. *)
Definition remaining (d : Dispenser) : nat :=
  S (Z.to_nat (len d - cursor d)).

(** [for d.NextArg() { count++ }]. *)
Fixpoint countArgs (fuel : nat) (count : Z) : Run Dispenser Z :=
  match fuel with
  | O => outOfFuel
  | S fuel =>
      ok <- NextArg;;
      if ok then countArgs fuel (count + 1) else ret count
  end.

(** [for i := 0; i < count; i++ { d.Prev() }]. *)
Fixpoint rewind (count : nat) : Run Dispenser unit :=
  match count with
  | O => ret tt
  | S count => Prev;;; rewind count
  end.

Definition CountRemainingArgs : Run Dispenser Z :=
  d <- get;;
  count <- countArgs (remaining d) 0;;
  rewind (Z.to_nat count);;;
  ret count.

(** [NextBlock(initialNestingLevel)].  The two tests on a brace use [&&]:
    [nextOnSameLine] runs, and may move the cursor, only when the token is
    that brace. *)
Definition NextBlock (initialNestingLevel : Z) : Run Dispenser bool :=
  d <- get;;
  if (nesting d >? initialNestingLevel)%Z then
    ok <- Next;;
    if negb ok then ret false
    else
      d <- get;;
      closes <- (if String.eqb (Val d) "}"
                 then same <- nextOnSameLine;; ret (negb same)
                 else ret false);;
      (if closes : bool then decNesting
       else
         d <- get;;
         opens <- (if String.eqb (Val d) "{"
                   then same <- nextOnSameLine;; ret (negb same)
                   else ret false);;
         if opens : bool then incNesting else ret tt);;;
      d <- get;;
      ret (nesting d >? initialNestingLevel)%Z
  else
    same <- nextOnSameLine;;
    if negb same then ret false
    else
      d <- get;;
      if negb (String.eqb (Val d) "{") then decCursor;;; ret false
      else
        Next;;;
        d <- get;;
        if String.eqb (Val d) "}" then ret false
        else incNesting;;; ret true.

(** [WrapErr(err)] is [fmt.Errorf("%w, at %s:%d", err, d.File(), d.Line())]. *)
Definition WrapErr (d : Dispenser) (err : error) : error :=
  wrapError "" err (", at " ++ File_ d ++ ":" ++ itoa (Line_ d)).

(** [Errf(format, args...)] is [WrapErr(fmt.Errorf(format, args...))]; the
    model takes the error that [fmt.Errorf] built. *)
Definition Errf (d : Dispenser) (formatted : error) : error :=
  WrapErr d formatted.

(** [Err(msg)] is [WrapErr(errors.New(msg))]. *)
Definition Err (d : Dispenser) (msg : string) : error :=
  WrapErr d (errorString msg).

Definition ArgErr (d : Dispenser) : error :=
  if String.eqb (Val d) "{"
  then Err d "unexpected token '{', expecting argument"
  else Errf d (errorString
         ("wrong argument count or unexpected line ending after '"
            ++ Val d ++ "'")).

End caddyfile.

(** ** Package lua (gopher-lua): interpreter states

    After [state.go] and [config.go] of gopher-lua: the options of
    [NewState], and the three calls [ServeHTTP] makes, on a heap of
    interpreter states. *)

Module lua.
Local Open Scope run_scope.

Record Options : Type := mkOptions {
  CallStackSize : Z;
  RegistrySize : Z;
  RegistryMaxSize : Z;
  RegistryGrowStep : Z;
  SkipOpenLibs : bool;
  IncludeGoStackTrace : bool;
  MinimizeStackMemory : bool
}.

(** The package variables [CallStackSize], [RegistrySize] and
    [RegistryGrowStep]. *)
Definition defaultCallStackSize : Z := 256.
Definition defaultRegistrySize : Z := 256 * 20.
Definition defaultRegistryGrowStep : Z := 32.

(** The options [NewState] hands to [newLState], and whether it then calls
    [OpenLibs]: the defaults when it is called without options, else the
    first option with its unset fields filled in. *)
Definition effectiveOptions (opts : list Options) : Options * bool :=
  match opts with
  | [] =>
      ({| CallStackSize := defaultCallStackSize;
          RegistrySize := defaultRegistrySize;
          RegistryMaxSize := 0; RegistryGrowStep := 0;
          SkipOpenLibs := false; IncludeGoStackTrace := false;
          MinimizeStackMemory := false |}, true)
  | o :: _ =>
      let css := if (CallStackSize o <? 1)%Z then defaultCallStackSize
                 else CallStackSize o in
      let rs := if (RegistrySize o <? 128)%Z then defaultRegistrySize
                else RegistrySize o in
      let rms := if (RegistryMaxSize o <? rs)%Z then 0
                 else RegistryMaxSize o in
      let rgs := if (RegistryMaxSize o <? rs)%Z then RegistryGrowStep o
                 else if (RegistryGrowStep o <? 1)%Z
                      then defaultRegistryGrowStep
                      else RegistryGrowStep o in
      ({| CallStackSize := css; RegistrySize := rs;
          RegistryMaxSize := rms; RegistryGrowStep := rgs;
          SkipOpenLibs := SkipOpenLibs o;
          IncludeGoStackTrace := IncludeGoStackTrace o;
          MinimizeStackMemory := MinimizeStackMemory o |},
       negb (SkipOpenLibs o))
  end.

Section Interpreter.
(** The interpreter itself is outside this repository.  [Store] is the
    memory of one interpreter (globals, registry, stacks); [World] is
    what a script and the other handlers can reach outside it (files,
    the response being written); [Foreign] are the calls into other
    packages that a trace records next to those of this one. *)
Variables Store World Foreign : Type.
Variable newLState : Options -> Store.
Variable OpenLibs : Store -> Store.
(** Running a file in a store: the store and the world afterwards, and
    the error of the load or of the run. *)
Variable runFile : Store -> string -> World -> Store * World * option error.

(** What a [*LState] points to. *)
Record LState : Type := mkLState {
  options : Options;
  store : Store;
  closed : bool
}.

Inductive Event : Type :=
| NewStateEv (L : nat) (opts : list Options)
| DoFileEv (L : nat) (path : string) (err : option error)
| CloseEv (L : nat)
| ForeignEv (call : Foreign).

(** The interpreters allocated so far (a [*LState] is an index into
    [heap]), the world, and the calls made so far, oldest first. *)
Record Machine : Type := mkMachine {
  heap : list LState;
  world : World;
  trace : list Event
}.

Definition emit (e : Event) : Run Machine unit :=
  modify (fun m => {| heap := heap m; world := world m;
                      trace := trace m ++ [e] |}).

(** The state [NewState(opts...)] builds. *)
Definition freshLState (opts : list Options) : LState :=
  let '(o, libs) := effectiveOptions opts in
  {| options := o;
     store := if libs : bool then OpenLibs (newLState o) else newLState o;
     closed := false |}.

Definition NewState (opts : list Options) : Run Machine nat :=
  m <- get;;
  let L := List.length (heap m) in
  modify (fun m => {| heap := heap m ++ [freshLState opts];
                      world := world m; trace := trace m |});;;
  emit (NewStateEv L opts);;;
  ret L.

(** Writing through a [*LState]. *)
Fixpoint update (L : nat) (f : LState -> LState) (h : list LState)
  : list LState :=
  match h, L with
  | [], _ => []
  | ls :: h, O => f ls :: h
  | ls :: h, S L => ls :: update L f h
  end.

Definition DoFile (L : nat) (path : string) : Run Machine (option error) :=
  m <- get;;
  match nth_error (heap m) L with
  | None => dangling
  | Some ls =>
      let '(st, w, err) := runFile (store ls) path (world m) in
      modify (fun m =>
        {| heap := update L (fun ls => {| options := options ls;
                                          store := st;
                                          closed := closed ls |}) (heap m);
           world := w; trace := trace m |});;;
      emit (DoFileEv L path err);;;
      ret err
  end.

Definition Close (L : nat) : Run Machine unit :=
  modify (fun m =>
    {| heap := update L (fun ls => {| options := options ls;
                                      store := store ls;
                                      closed := true |}) (heap m);
       world := world m; trace := trace m |});;;
  emit (CloseEv L).

(** A call into another package that works on the world. *)
Definition foreign {A} (call : Foreign) (f : World -> A * World)
  : Run Machine A :=
  m <- get;;
  let '(a, w) := f (world m) in
  modify (fun m => {| heap := heap m; world := w; trace := trace m |});;;
  emit (ForeignEv call);;;
  ret a.

End Interpreter.

Arguments NewStateEv {Foreign}.
Arguments DoFileEv {Foreign}.
Arguments CloseEv {Foreign}.
Arguments ForeignEv {Foreign}.
Arguments heap {Store World Foreign}.
Arguments world {Store World Foreign}.
Arguments trace {Store World Foreign}.
Arguments options {Store}.
Arguments store {Store}.
Arguments closed {Store}.
Arguments freshLState {Store}.
Arguments NewState {Store World Foreign}.
Arguments DoFile {Store World Foreign}.
Arguments Close {Store World Foreign}.
Arguments foreign {Store World Foreign A}.
Arguments update {Store}.

End lua.

(** ** The handler: lua.go *)

Import caddyfile.
Local Open Scope run_scope.

(** [*zap.Logger], opaque to this file. *)
Inductive zap_Logger : Type := zapLogger (name : string).

(** The [Lua] struct. *)
Record Lua : Type := mkLua {
  CallStackSize : Z;
  RegistrySize : Z;
  RegistryMaxSize : Z;
  RegistryGrowStep : Z;
  MinimizeStackMemory : bool;
  HandlerPath : string;
  logger : option zap_Logger
}.

(** [var l Lua]: the zero value. *)
Definition zeroLua : Lua :=
  {| CallStackSize := 0; RegistrySize := 0; RegistryMaxSize := 0;
     RegistryGrowStep := 0; MinimizeStackMemory := false;
     HandlerPath := ""; logger := None |}.

Definition setCallStackSize (i : Z) (l : Lua) : Lua :=
  {| CallStackSize := i; RegistrySize := RegistrySize l;
     RegistryMaxSize := RegistryMaxSize l;
     RegistryGrowStep := RegistryGrowStep l;
     MinimizeStackMemory := MinimizeStackMemory l;
     HandlerPath := HandlerPath l; logger := logger l |}.
Definition setRegistrySize (i : Z) (l : Lua) : Lua :=
  {| CallStackSize := CallStackSize l; RegistrySize := i;
     RegistryMaxSize := RegistryMaxSize l;
     RegistryGrowStep := RegistryGrowStep l;
     MinimizeStackMemory := MinimizeStackMemory l;
     HandlerPath := HandlerPath l; logger := logger l |}.
Definition setRegistryMaxSize (i : Z) (l : Lua) : Lua :=
  {| CallStackSize := CallStackSize l; RegistrySize := RegistrySize l;
     RegistryMaxSize := i;
     RegistryGrowStep := RegistryGrowStep l;
     MinimizeStackMemory := MinimizeStackMemory l;
     HandlerPath := HandlerPath l; logger := logger l |}.
Definition setRegistryGrowStep (i : Z) (l : Lua) : Lua :=
  {| CallStackSize := CallStackSize l; RegistrySize := RegistrySize l;
     RegistryMaxSize := RegistryMaxSize l;
     RegistryGrowStep := i;
     MinimizeStackMemory := MinimizeStackMemory l;
     HandlerPath := HandlerPath l; logger := logger l |}.
Definition setHandlerPath (p : string) (l : Lua) : Lua :=
  {| CallStackSize := CallStackSize l; RegistrySize := RegistrySize l;
     RegistryMaxSize := RegistryMaxSize l;
     RegistryGrowStep := RegistryGrowStep l;
     MinimizeStackMemory := MinimizeStackMemory l;
     HandlerPath := p; logger := logger l |}.
Definition setLogger (lg : option zap_Logger) (l : Lua) : Lua :=
  {| CallStackSize := CallStackSize l; RegistrySize := RegistrySize l;
     RegistryMaxSize := RegistryMaxSize l;
     RegistryGrowStep := RegistryGrowStep l;
     MinimizeStackMemory := MinimizeStackMemory l;
     HandlerPath := HandlerPath l; logger := lg |}.

(** [Validate]: [None] is Go's [nil] error. *)
Definition Validate (l : Lua) : option error :=
  if String.eqb (HandlerPath l) ""
  then Some (errorString "the handler_path configuration option is required")
  else None.

(** [UnmarshalCaddyfile] works on two objects through pointers: the receiver
    [l] and the dispenser [d]. *)
Record Parser : Type := mkParser {
  recv : Lua;
  disp : Dispenser
}.

(** A method call on [d]. *)
Definition onDispenser {A} (m : Run Dispenser A) : Run Parser A :=
  fun s => match m (disp s) with
           | Some (a, d') => Some (a, {| recv := recv s; disp := d' |})
           | None => None
           end.

(** An assignment to a field of [l]. *)
Definition assign (f : Lua -> Lua) : Run Parser unit :=
  modify (fun s => {| recv := f (recv s); disp := disp s |}).

(** [fmt.Errorf("%s: %w", field, err)]. *)
Definition Errorf_field (field : string) (err : error) : error :=
  wrapError (field ++ ": ") err "".

(** [fmt.Errorf("%s: unknown configuration option", field)]. *)
Definition Errorf_unknown (field : string) : error :=
  errorString (field ++ ": unknown configuration option").

(** The closure [asInt]. *)
Definition asInt : Run Dispenser (Z * option error) :=
  r <- AllArgs [""];;
  let s := hd "" (snd r) in
  if negb (fst r) then d <- get;; ret (0, Some (ArgErr d))
  else
    let '(i, err) := strconv.ParseInt s 10 64 in
    match err with
    | Some err => ret (0, Some err)
    | None => ret (to_int i, None)
    end.

(** A [case] of an integer option: [Some] is the error returned from
    [UnmarshalCaddyfile], [None] goes round the loop again. *)
Definition intOption (field : string) (set : Z -> Lua -> Lua)
  : Run Parser (option error) :=
  r <- onDispenser asInt;;
  match snd r with
  | Some err =>
      s <- get;;
      ret (Some (Errf (disp s) (Errorf_field field err)))
  | None => assign (set (fst r));;; ret None
  end.

(** The [switch field := d.Val(); field]. *)
Definition UnmarshalCaddyfile_switch : Run Parser (option error) :=
  s <- get;;
  let field := Val (disp s) in
  if String.eqb field "call_stack_size" then
    intOption field setCallStackSize
  else if String.eqb field "registry_size" then
    intOption field setRegistrySize
  else if String.eqb field "registry_max_size" then
    intOption field setRegistryMaxSize
  else if String.eqb field "registry_grow_step" then
    intOption field setRegistryGrowStep
  else if String.eqb field "minimize_stack_memory" then
    n <- onDispenser CountRemainingArgs;;
    if (n >? 0)%Z then
      s <- get;;
      ret (Some (Errf (disp s) (Errorf_field field (ArgErr (disp s)))))
    else ret None
  else if String.eqb field "handler_path" then
    r <- onDispenser (Args [HandlerPath (recv s)]);;
    assign (setHandlerPath (hd (HandlerPath (recv s)) (snd r)));;;
    if negb (fst r) then
      s <- get;;
      ret (Some (Errf (disp s) (Errorf_field field (ArgErr (disp s)))))
    else ret None
  else
    ret (Some (Errf (disp s) (Errorf_unknown field))).

(** [for d.NextBlock(0) { switch ... }]. *)
Fixpoint UnmarshalCaddyfile_block (fuel : nat) : Run Parser (option error) :=
  match fuel with
  | O => outOfFuel
  | S fuel =>
      more <- onDispenser (NextBlock 0);;
      if negb more then ret None
      else
        r <- UnmarshalCaddyfile_switch;;
        match r with
        | Some err => ret (Some err)
        | None => UnmarshalCaddyfile_block fuel
        end
  end.

(** [for d.Next() { for d.NextBlock(0) { ... } }]. *)
Fixpoint UnmarshalCaddyfile_loop (fuel : nat) : Run Parser (option error) :=
  match fuel with
  | O => outOfFuel
  | S fuel =>
      more <- onDispenser Next;;
      if negb more then ret None
      else
        s <- get;;
        r <- UnmarshalCaddyfile_block (remaining (disp s));;
        match r with
        | Some err => ret (Some err)
        | None => UnmarshalCaddyfile_loop fuel
        end
  end.

Definition UnmarshalCaddyfile : Run Parser (option error) :=
  s <- get;;
  UnmarshalCaddyfile_loop (remaining (disp s)).

(** [parseCaddyfile(h)]: [h.Dispenser] is the state, the result is the
    handler value and the error. *)
Definition parseCaddyfile : Run Dispenser (Lua * option error) :=
  fun d =>
    match UnmarshalCaddyfile {| recv := zeroLua; disp := d |} with
    | Some (err, s) => Some ((recv s, err), disp s)
    | None => None
    end.

(** [Provision]: [ctx.Logger(l)] is given. *)
Definition Provision (ctxLogger : zap_Logger) (l : Lua) : Lua * option error :=
  (setLogger (Some ctxLogger) l, None).

Section Serving.
Variables Store World : Type.
Variable newLState : lua.Options -> Store.
Variable OpenLibs : Store -> Store.
Variable runFile : Store -> string -> World -> Store * World * option error.

(** [http.ResponseWriter] and [*http.Request]. *)
Variables ResponseWriter Request : Type.

(** The call [next.ServeHTTP(w, r)] is the only call out of this package
    and gopher-lua. *)
Definition Call : Type := (ResponseWriter * Request)%type.
Definition Machine : Type := lua.Machine Store World Call.

(** A [caddyhttp.Handler]: the rest of the chain, working on the world. *)
Definition Handler : Type :=
  ResponseWriter -> Request -> World -> option error * World.

(** [defer f()] in front of the rest of a function body. *)
Definition defer {A} (f : Run Machine unit) (body : Run Machine A)
  : Run Machine A :=
  a <- body;; f;;; ret a.

Definition ServeHTTP (l : Lua) (w : ResponseWriter) (r : Request)
    (next : Handler) : Run Machine (option error) :=
  L <- lua.NewState newLState OpenLibs [];;
  defer (lua.Close L)
    (err <- lua.DoFile runFile L (HandlerPath l);;
     match err with
     | Some err => ret (Some err)
     | None => lua.foreign (w, r) (next w r)
     end).

(** The interpreter [lua.NewState()] builds, and what running the script
    of [l] in it does to the world of [m]. *)
Definition interpreter : lua.LState Store :=
  lua.freshLState newLState OpenLibs [].
Definition scriptRun (l : Lua) (m : Machine)
  : Store * World * option error :=
  runFile (lua.store interpreter) (HandlerPath l) (lua.world m).
Definition scriptError (l : Lua) (m : Machine) : option error :=
  snd (scriptRun l m).

(** The calls recorded between [m] and a later [m']. *)
Definition newEvents (m m' : Machine) : list (lua.Event Call) :=
  skipn (List.length (lua.trace m)) (lua.trace m').

Definition isDoFile (e : lua.Event Call) : bool :=
  match e with lua.DoFileEv _ _ _ => true | _ => false end.
Definition isNext (e : lua.Event Call) : bool :=
  match e with lua.ForeignEv _ => true | _ => false end.
Definition count (p : lua.Event Call -> bool) (evs : list (lua.Event Call))
  : nat :=
  List.length (filter p evs).

End Serving.

Arguments newEvents {Store World ResponseWriter Request}.
Arguments isDoFile {ResponseWriter Request}.
Arguments isNext {ResponseWriter Request}.
Arguments count {ResponseWriter Request}.

(** ** Configurations as they are written

    A [lua] directive with a block, one option to a line:
<<
    lua {
        keyword argument ...
        keyword argument ...
    }
>>
    [configTokens] gives the tokens the Caddyfile lexer hands to
    [parseCaddyfile] for it: every token carries the file and the line it was
    read on. *)

Abbreviation OptionLine := (string * list string)%type.

Definition lineTokens (file : string) (line : Z) (o : OptionLine)
  : list Token :=
  mkToken file line (fst o) :: map (mkToken file line) (snd o).

Fixpoint blockTokens (file : string) (line : Z) (os : list OptionLine)
  : list Token :=
  match os with
  | [] => []
  | o :: os => (lineTokens file line o ++ blockTokens file (line + 1) os)%list
  end.

Definition configTokens (file : string) (line : Z) (os : list OptionLine)
  : list Token :=
  (mkToken file line "lua" :: mkToken file line "{"
     :: blockTokens file (line + 1) os
     ++ [mkToken file (line + 1 + Z.of_nat (List.length os)) "}"])%list.

(** An argument as the dispenser sees one: a token that is not the opening
    of a block and that ends on the line it starts on. *)
Definition plain (s : string) : bool :=
  negb (String.eqb s "{") && (countNewlines s =? 0)%Z.

Definition isIntOption (k : string) : bool :=
  String.eqb k "call_stack_size" || String.eqb k "registry_size"
  || String.eqb k "registry_max_size" || String.eqb k "registry_grow_step".

(** The six keywords of the [switch]. *)
Definition recognized (k : string) : bool :=
  isIntOption k || String.eqb k "minimize_stack_memory"
  || String.eqb k "handler_path".

(** The integer an argument stands for, when [asInt] accepts it. *)
Definition intValue (s : string) : option Z :=
  match strconv.ParseInt s 10 64 with
  | (i, None) => Some (to_int i)
  | (_, Some _) => None
  end.

(** A line that the parser accepts: an integer option with one argument that
    is an integer, [minimize_stack_memory] alone, [handler_path] with one
    argument. *)
Definition wellFormed (o : OptionLine) : bool :=
  let '(k, args) := o in
  if isIntOption k then
    match args with
    | [a] => plain a && match intValue a with Some _ => true | None => false end
    | _ => false
    end
  else if String.eqb k "minimize_stack_memory" then
    match args with [] => true | _ => false end
  else if String.eqb k "handler_path" then
    match args with [a] => plain a | _ => false end
  else false.

(** A line that the parser rejects where it stands: an unknown keyword, an
    integer option without exactly one integer argument,
    [minimize_stack_memory] with arguments, [handler_path] without one. *)
Definition malformed (o : OptionLine) : bool :=
  let '(k, args) := o in
  if isIntOption k then
    forallb plain args
    && match args with
       | [a] => match intValue a with Some _ => false | None => true end
       | _ => true
       end
  else if String.eqb k "minimize_stack_memory" then
    forallb plain args && match args with [] => false | _ => true end
  else if String.eqb k "handler_path" then
    match args with [] => true | _ => false end
  else negb (String.eqb k "{") && negb (String.eqb k "}").

(** What the [switch] assigns for a well-formed line. *)
Definition assigned (o : OptionLine) (l : Lua) : Lua :=
  let '(k, args) := o in
  let a := hd "" args in
  let i := match intValue a with Some i => i | None => 0 end in
  if String.eqb k "call_stack_size" then setCallStackSize i l
  else if String.eqb k "registry_size" then setRegistrySize i l
  else if String.eqb k "registry_max_size" then setRegistryMaxSize i l
  else if String.eqb k "registry_grow_step" then setRegistryGrowStep i l
  else if String.eqb k "handler_path" then setHandlerPath a l
  else l.

Definition assignedAll (os : list OptionLine) (l : Lua) : Lua :=
  fold_left (fun l o => assigned o l) os l.

(** What the specification says of a well-formed line: as [assigned], and
    [minimize_stack_memory] sets the flag.  (The code has [assigned].) *)
Definition spec_assigned (o : OptionLine) (l : Lua) : Lua :=
  if String.eqb (fst o) "minimize_stack_memory" then
    {| CallStackSize := CallStackSize l; RegistrySize := RegistrySize l;
       RegistryMaxSize := RegistryMaxSize l;
       RegistryGrowStep := RegistryGrowStep l;
       MinimizeStackMemory := true;
       HandlerPath := HandlerPath l; logger := logger l |}
  else assigned o l.

Definition spec_assignedAll (os : list OptionLine) (l : Lua) : Lua :=
  fold_left (fun l o => spec_assigned o l) os l.

(** The value of an integer option, as the dispenser stands on the keyword,
    is missing, or is more than one argument, or is one argument that
    [ParseInt] refuses. *)
Definition valueMissing (d : Dispenser) : Prop :=
  exists d1, NextArg d = Some (false, d1).
Definition valueNotAlone (d : Dispenser) : Prop :=
  exists d1 d2, NextArg d = Some (true, d1) /\ NextArg d1 = Some (true, d2).
Definition valueNotInteger (d : Dispenser) : Prop :=
  exists d1 d2,
    NextArg d = Some (true, d1) /\ NextArg d1 = Some (false, d2)
    /\ intValue (Val d1) = None.

(** Two handler values that agree on every field but the flag. *)
Definition sameButFlag (l l' : Lua) : Prop :=
  CallStackSize l = CallStackSize l'
  /\ RegistrySize l = RegistrySize l'
  /\ RegistryMaxSize l = RegistryMaxSize l'
  /\ RegistryGrowStep l = RegistryGrowStep l'
  /\ HandlerPath l = HandlerPath l'.

(** A base-10 integer as written: digits, after a sign or none. *)
Definition isDigit (c : ascii) : bool :=
  ((48 <=? byte_of c) && (byte_of c <=? 57))%Z.

Fixpoint allDigits (s : string) : bool :=
  match s with
  | EmptyString => true
  | String c rest => isDigit c && allDigits rest
  end.

Definition unsignedDecimal (s : string) : bool :=
  match s with
  | EmptyString => false
  | _ => allDigits s
  end.

Definition decimal (s : string) : bool :=
  match s with
  | EmptyString => false
  | String c rest =>
      if Ascii.eqb c "+" || Ascii.eqb c "-" then unsignedDecimal rest
      else unsignedDecimal s
  end.

(** The integer that a base-10 integer as written stands for. *)
Fixpoint digitsValue (s : string) (n : Z) : Z :=
  match s with
  | EmptyString => n
  | String c rest => digitsValue rest (10 * n + (byte_of c - 48))
  end.

Definition decimalValue (s : string) : Z :=
  match s with
  | EmptyString => 0
  | String c rest =>
      if Ascii.eqb c "+" then digitsValue rest 0
      else if Ascii.eqb c "-" then - digitsValue rest 0
      else digitsValue s 0
  end.

(** The message of an error starts by naming [k]. *)
Definition names (Quote : string -> string) (err : error) (k : string) : Prop :=
  exists rest, Error Quote err = k ++ ": " ++ rest.

(** The same for any way of quoting. *)
Definition namesOption (err : error) (k : string) : Prop :=
  forall Quote, names Quote err k.

(** The dispenser with the cursor on [cur], between [pre] and [post]. *)
Definition around (pre : list Token) (cur : Token) (post : list Token)
    (nest : Z) : Dispenser :=
  {| tokens := (pre ++ cur :: post)%list;
     cursor := Z.of_nat (List.length pre);
     nesting := nest |}.

(** Where the parser stands when it tests the condition of the inner loop.
    [comesTo s0 s]: started in [s0], [UnmarshalCaddyfile] comes to the test
    [d.NextBlock(0)] in the state [s], every option met on the way having
    been accepted.  It does so when the outer loop is entered; after a
    [switch] that returned no error; and when the inner loop has ended and
    the outer loop goes round again. *)
Inductive comesTo (s0 : Parser) : Parser -> Prop :=
| comesTo_first d0 :
    Next (disp s0) = Some (true, d0) ->
    comesTo s0 {| recv := recv s0; disp := d0 |}
| comesTo_accepted s d1 s2 :
    comesTo s0 s ->
    NextBlock 0 (disp s) = Some (true, d1) ->
    UnmarshalCaddyfile_switch {| recv := recv s; disp := d1 |}
    = Some (None, s2) ->
    comesTo s0 s2
| comesTo_again s d1 d2 :
    comesTo s0 s ->
    NextBlock 0 (disp s) = Some (false, d1) ->
    Next d1 = Some (true, d2) ->
    comesTo s0 {| recv := recv s; disp := d2 |}.

(** Standing at the test of the inner loop in [s], the parser moves to the
    token of [d1] and the [switch] on it returns the error [e], leaving the
    state [s']. *)
Definition rejects (s : Parser) (d1 : Dispenser) (e : error) (s' : Parser)
  : Prop :=
  NextBlock 0 (disp s) = Some (true, d1)
  /\ UnmarshalCaddyfile_switch {| recv := recv s; disp := d1 |}
     = Some (Some e, s').

(** The rest of a run from the test of the inner loop: the inner loop, then
    the outer loop. *)
Definition UnmarshalCaddyfile_rest (n m : nat) : Run Parser (option error) :=
  fun s =>
    match UnmarshalCaddyfile_block n s with
    | Some (Some err, s') => Some (Some err, s')
    | Some (None, s') => UnmarshalCaddyfile_loop m s'
    | None => None
    end.

(** The dispenser over a configuration with the cursor on the keyword of the
    line [o] that follows the lines [before], inside the block. *)
Definition onKeyword (file : string) (line : Z)
    (before : list OptionLine) (o : OptionLine) (rest : list OptionLine)
  : Dispenser :=
  let here := (line + 1 + Z.of_nat (List.length before))%Z in
  around
    (mkToken file line "lua" :: mkToken file line "{"
       :: blockTokens file (line + 1) before)
    (mkToken file here (fst o))
    (map (mkToken file here) (snd o)
       ++ blockTokens file (here + 1) rest
       ++ [mkToken file (line + 1 + Z.of_nat (List.length (before ++ o :: rest)))
             "}"])%list
    1.

(** The dispenser over a configuration when all of it has been read. *)
Definition atEnd (file : string) (line : Z) (os : list OptionLine)
  : Dispenser :=
  {| tokens := configTokens file line os;
     cursor := Z.of_nat (List.length (configTokens file line os)) - 1;
     nesting := 0 |}.

(** The rest of the inner loop from inside its body: the [switch] on the
    token under the cursor, then the loop. *)
Definition UnmarshalCaddyfile_from (fuel : nat) : Run Parser (option error) :=
  fun s =>
    match UnmarshalCaddyfile_switch s with
    | Some (Some err, s2) => Some (Some err, s2)
    | Some (None, s2) => UnmarshalCaddyfile_block fuel s2
    | None => None
    end.

(** The dispenser after it has moved over the tokens [xs] that follow [cur]. *)
Fixpoint aroundLast (pre : list Token) (cur : Token) (xs post : list Token)
    (nest : Z) : Dispenser :=
  match xs with
  | [] => around pre cur post nest
  | x :: xs => aroundLast (pre ++ [cur]) x xs post nest
  end.

(** The field an integer option assigns. *)
Definition setterOf (k : string) : Z -> Lua -> Lua :=
  if String.eqb k "call_stack_size" then setCallStackSize
  else if String.eqb k "registry_size" then setRegistrySize
  else if String.eqb k "registry_max_size" then setRegistryMaxSize
  else setRegistryGrowStep.

(** The tokens [post] are none, or start in [file] on a line after [line]. *)
Definition startsLater (file : string) (line : Z) (post : list Token) : Prop :=
  match post with
  | [] => True
  | n :: _ => File n = file /\ (line < Line n)%Z
  end.

(** What is left to read: the loops of the parser go round at most this many
    times. *)
Definition measure (d : Dispenser) : nat := Z.to_nat (len d - cursor d).

(** What every method leaves alone, and the way the cursor moves. *)
Definition onward (d d' : Dispenser) : Prop :=
  tokens d' = tokens d /\ (cursor d <= cursor d')%Z.

(** The properties of the handler value that no assignment of the parser
    breaks, for a dispenser over [toks]: [HandlerPath] is only assigned when
    some token reads [handler_path]. *)
Definition stable (toks : list Token) (Q : Lua -> Prop) : Prop :=
  (forall i l, Q l -> Q (setCallStackSize i l))
  /\ (forall i l, Q l -> Q (setRegistrySize i l))
  /\ (forall i l, Q l -> Q (setRegistryMaxSize i l))
  /\ (forall i l, Q l -> Q (setRegistryGrowStep i l))
  /\ ((exists t, In t toks /\ Text t = "handler_path") ->
      forall p l, Q l -> Q (setHandlerPath p l)).

(** How far a run of the parser is from where it started. *)
Definition carries (s s' : Parser) : Prop :=
  onward (disp s) (disp s')
  /\ forall Q, stable (tokens (disp s)) Q -> Q (recv s) -> Q (recv s').

(** A token of the file [Caddyfile]. *)
Definition tk (line : Z) (text : string) : Token :=
  {| File := "Caddyfile"; Line := line; Text := text |}.

(** ** Some configurations *)

Module Written.

(** The flag and the path. *)
Definition flagged : list OptionLine :=
  [("minimize_stack_memory", []); ("handler_path", ["/srv/handler.lua"])].

(** Two options, then a third whose value is no integer, then more. *)
Definition accepted : list OptionLine :=
  [("call_stack_size", ["10"]); ("handler_path", ["/a.lua"])].
Definition notAnInteger : OptionLine := ("registry_size", ["abc"]).
Definition more : list OptionLine := [("registry_max_size", ["7"])].

(** An unknown keyword. *)
Definition bogus : OptionLine := ("bogus", ["x"]).

(** A bad integer before an unknown keyword, and the other way round. *)
Definition integerFirst : list OptionLine :=
  [("call_stack_size", ["abc"]); ("bogus", [])].
Definition bogusFirst : list OptionLine :=
  [("bogus", []); ("call_stack_size", ["abc"])].

Definition parse (os : list OptionLine) :=
  parseCaddyfile (NewDispenser (configTokens "Caddyfile" 1 os)).

(** The parser before it starts on a configuration, at the first test of
    the inner loop (on [lua]), and on the keyword of the first line. *)
Definition start (os : list OptionLine) : Parser :=
  {| recv := zeroLua;
     disp := NewDispenser (configTokens "Caddyfile" 1 os) |}.
Definition entered (os : list OptionLine) : Parser :=
  {| recv := zeroLua;
     disp := {| tokens := configTokens "Caddyfile" 1 os;
                cursor := 0; nesting := 0 |} |}.
Definition firstKeyword (os : list OptionLine) : Dispenser :=
  {| tokens := configTokens "Caddyfile" 1 os; cursor := 2; nesting := 1 |}.

End Written.

(** ** A small world to run requests in

    Scripts are files; a script either runs to its end or raises.  The
    interpreter's store counts the chunks it has run. *)
Module Demo.
Definition World : Type := list (string * bool).
Definition Store : Type := nat.

Definition newLState (_ : lua.Options) : Store := O.
Definition OpenLibs (s : Store) : Store := s.

Fixpoint lookup (path : string) (w : World) : option bool :=
  match w with
  | [] => None
  | (p, ok) :: w => if String.eqb p path then Some ok else lookup path w
  end.

Definition runFile (st : Store) (path : string) (w : World)
  : Store * World * option error :=
  match lookup path w with
  | None => (st, w, Some (errorString ("open " ++ path ++ ": no such file or directory")))
  | Some true => (S st, w, None)
  | Some false => (S st, w, Some (errorString (path ++ ": attempt to call a nil value")))
  end.

(** A last handler that answers and reports no error. *)
Definition final : Handler World unit unit := fun _ _ w => (None, w).

Definition files : World := [("/ok.lua", true); ("/bad.lua", false)].

Definition boot : Machine Store World unit unit :=
  {| lua.heap := []; lua.world := files; lua.trace := [] |}.

(** The machine after other requests, their interpreters still on the
    heap. *)
Definition later : Machine Store World unit unit :=
  {| lua.heap := [{| lua.options := fst (lua.effectiveOptions []);
                     lua.store := 7%nat; lua.closed := true |}];
     lua.world := files;
     lua.trace := [lua.NewStateEv 0 []; lua.CloseEv 0] |}.

Definition serve (l : Lua) :=
  ServeHTTP Store World newLState OpenLibs runFile unit unit l tt tt final.

Definition failure (l : Lua) (m : Machine Store World unit unit)
  : option error :=
  scriptError Store World newLState OpenLibs runFile unit unit l m.

(** Handler values for a script that runs, one that raises, one that is
    not there. *)
Definition good : Lua := setHandlerPath "/ok.lua" zeroLua.
Definition raising : Lua := setHandlerPath "/bad.lua" zeroLua.
Definition missing : Lua := setHandlerPath "/none.lua" zeroLua.

(** The handler value [good] with every tuning field set. *)
Definition tuned : Lua :=
  {| CallStackSize := 64; RegistrySize := 1024; RegistryMaxSize := 4096;
     RegistryGrowStep := 16; MinimizeStackMemory := true;
     HandlerPath := "/ok.lua"; logger := Some (zapLogger "lua") |}.
End Demo.

(** ** More about the parser and the handler *)

(** Some token reads [k]. *)
Definition mentions (toks : list Token) (k : string) : Prop :=
  exists t, In t toks /\ Text t = k.

(** What one run of the [switch] on the keyword [k] can do to the handler
    value: nothing, or the assignment of the [case] of [k]. *)
Definition assigns (k : string) (l l' : Lua) : Prop :=
  l' = l
  \/ (k = "call_stack_size" /\ exists i, l' = setCallStackSize i l)
  \/ (k = "registry_size" /\ exists i, l' = setRegistrySize i l)
  \/ (k = "registry_max_size" /\ exists i, l' = setRegistryMaxSize i l)
  \/ (k = "registry_grow_step" /\ exists i, l' = setRegistryGrowStep i l)
  \/ (k = "handler_path" /\ exists p, l' = setHandlerPath p l).

(** The fields of [l'] whose keyword no token of [toks] reads are those of
    [l]; the flag and the logger are those of [l]. *)
Definition sameUnlessMentioned (toks : list Token) (l l' : Lua) : Prop :=
  (~ mentions toks "call_stack_size" -> CallStackSize l' = CallStackSize l)
  /\ (~ mentions toks "registry_size" -> RegistrySize l' = RegistrySize l)
  /\ (~ mentions toks "registry_max_size" ->
      RegistryMaxSize l' = RegistryMaxSize l)
  /\ (~ mentions toks "registry_grow_step" ->
      RegistryGrowStep l' = RegistryGrowStep l)
  /\ (~ mentions toks "handler_path" -> HandlerPath l' = HandlerPath l)
  /\ MinimizeStackMemory l' = MinimizeStackMemory l
  /\ logger l' = logger l.

(** The first argument of the last line of [os] that starts with [k]. *)
Definition lastArg (k : string) (os : list OptionLine) : option string :=
  fold_left
    (fun acc (o : OptionLine) =>
       if String.eqb (fst o) k then Some (hd "" (snd o)) else acc)
    os None.

(** The integer field that a configuration describes: what its last line
    for [k] writes, or Go's zero. *)
Definition writtenInt (k : string) (os : list OptionLine) : Z :=
  match lastArg k os with
  | Some a => decimalValue a
  | None => 0
  end.

Definition writtenPath (os : list OptionLine) : string :=
  match lastArg "handler_path" os with
  | Some a => a
  | None => ""
  end.

(** Requests served one after the other by the same handler value, each
    with its writer: the results, oldest first. *)
Section Requests.
Variables Store World : Type.
Variable newLState : lua.Options -> Store.
Variable OpenLibs : Store -> Store.
Variable runFile : Store -> string -> World -> Store * World * option error.
Variables ResponseWriter Request : Type.

Fixpoint serveAll (l : Lua) (next : Handler World ResponseWriter Request)
    (reqs : list (Call ResponseWriter Request))
  : Run (Machine Store World ResponseWriter Request) (list (option error)) :=
  match reqs with
  | [] => ret []
  | (w, r) :: reqs =>
      res <- ServeHTTP Store World newLState OpenLibs runFile
               ResponseWriter Request l w r next;;
      rest <- serveAll l next reqs;;
      ret (res :: rest)
  end.

End Requests.

(** * Request handling *)

Section ServingFacts.
Variables Store World : Type.
Variable newLState : lua.Options -> Store.
Variable OpenLibs : Store -> Store.
Variable runFile : Store -> string -> World -> Store * World * option error.
Variables ResponseWriter Request : Type.

Local Abbreviation Machine := (Machine Store World ResponseWriter Request).
Local Abbreviation Handler := (Handler World ResponseWriter Request).
Local Abbreviation serve :=
  (ServeHTTP Store World newLState OpenLibs runFile ResponseWriter Request).
Local Abbreviation run :=
  (scriptRun Store World newLState OpenLibs runFile ResponseWriter Request).
Local Abbreviation failure :=
  (scriptError Store World newLState OpenLibs runFile ResponseWriter Request).
Local Abbreviation fresh := (interpreter Store newLState OpenLibs).

Lemma update_last (f : lua.LState Store -> lua.LState Store) h ls :
  lua.update (List.length h) f (h ++ [ls]) = (h ++ [f ls])%list.
Proof.
  induction h as [|x h IH]; simpl; [reflexivity|].
  now rewrite IH.
Qed.

Lemma nth_error_last (h : list (lua.LState Store)) ls :
  nth_error (h ++ [ls]) (List.length h) = Some ls.
Proof.
  rewrite nth_error_app2 by lia.
  now rewrite Nat.sub_diag.
Qed.

(** The whole of a request, in one equation. *)
Lemma ServeHTTP_unfold l w r next (m : Machine) :
  serve l w r next m =
  let L := List.length (lua.heap m) in
  let '(st, wd, err) := run l m in
  let ls := {| lua.options := lua.options fresh; lua.store := st;
               lua.closed := true |} in
  match err with
  | Some e =>
      Some (Some e,
            {| lua.heap := lua.heap m ++ [ls]; lua.world := wd;
               lua.trace := lua.trace m ++
                 [lua.NewStateEv L []; lua.DoFileEv L (HandlerPath l) (Some e);
                  lua.CloseEv L] |})
  | None =>
      let '(res, wd') := next w r wd in
      Some (res,
            {| lua.heap := lua.heap m ++ [ls]; lua.world := wd';
               lua.trace := lua.trace m ++
                 [lua.NewStateEv L []; lua.DoFileEv L (HandlerPath l) None;
                  lua.ForeignEv (w, r); lua.CloseEv L] |})
  end.
Proof.
  unfold ServeHTTP, defer, lua.NewState, lua.DoFile, lua.Close, lua.foreign,
    lua.emit, scriptRun, interpreter, bind, get, modify, ret.
  cbn [lua.heap lua.world lua.trace].
  rewrite nth_error_last.
  destruct (runFile _ _ _) as [[st wd] [e|]]; cbn [lua.heap lua.world lua.trace].
  - rewrite !update_last. cbn. now rewrite <- !app_assoc.
  - destruct (next w r wd) as [res wd']; cbn [lua.heap lua.world lua.trace].
    rewrite !update_last. cbn. now rewrite <- !app_assoc.
Qed.

Lemma newEvents_app (m m' : Machine) evs :
  lua.trace m' = (lua.trace m ++ evs)%list -> newEvents m m' = evs.
Proof.
  unfold newEvents. intros ->.
  rewrite skipn_app, Nat.sub_diag, skipn_all.
  reflexivity.
Qed.

(** C6.  When loading or running the script fails, the request fails with
    that very error; the script was tried once and the next handler was not
    called. *)
Theorem ServeHTTP_script_error l w r (next : Handler) (m : Machine) e :
  failure l m = Some e ->
  exists m',
    serve l w r next m = Some (Some e, m')
    /\ count isDoFile (newEvents m m') = 1%nat
    /\ count isNext (newEvents m m') = 0%nat.
Proof.
  intros Hfail. rewrite ServeHTTP_unfold.
  unfold scriptError in Hfail.
  destruct (run l m) as [[st wd] err]; cbn in Hfail; subst err.
  eexists. split; [reflexivity|].
  erewrite newEvents_app by reflexivity.
  split; reflexivity.
Qed.

(** C7.  When the script loads and runs without error, the next handler is
    called, once, on the world the script left, and its result is the
    result of the request. *)
Theorem ServeHTTP_script_ok l w r (next : Handler) (m : Machine) :
  failure l m = None ->
  exists m',
    serve l w r next m = Some (fst (next w r (snd (fst (run l m)))), m')
    /\ In (lua.ForeignEv (w, r)) (newEvents m m')
    /\ count isNext (newEvents m m') = 1%nat
    /\ lua.world m' = snd (next w r (snd (fst (run l m)))).
Proof.
  intros Hok. rewrite ServeHTTP_unfold.
  unfold scriptError in Hok.
  destruct (run l m) as [[st wd] err]; cbn in Hok; subst err.
  cbn [fst snd].
  destruct (next w r wd) as [res wd'].
  eexists. split; [reflexivity|].
  erewrite newEvents_app by reflexivity.
  cbn. intuition.
Qed.

(** C1, as the code has it.  The script of [HandlerPath] is loaded and run
    on every request; the next handler is called exactly when that
    succeeded. *)
Theorem ServeHTTP_next_iff_script_ok l w r (next : Handler) (m : Machine) :
  exists res m',
    serve l w r next m = Some (res, m')
    /\ In (lua.DoFileEv (List.length (lua.heap m)) (HandlerPath l)
             (failure l m)) (newEvents m m')
    /\ (In (lua.ForeignEv (w, r)) (newEvents m m') <-> failure l m = None)
    /\ (count isNext (newEvents m m') = 0%nat <-> failure l m <> None).
Proof.
  rewrite ServeHTTP_unfold. unfold scriptError.
  destruct (run l m) as [[st wd] [e|]]; cbn [fst snd].
  - do 2 eexists. split; [reflexivity|].
    erewrite newEvents_app by reflexivity.
    cbn. repeat split; try tauto; try congruence.
    intros [H|[H|[H|[]]]]; discriminate.
  - destruct (next w r wd) as [res wd'].
    do 2 eexists. split; [reflexivity|].
    erewrite newEvents_app by reflexivity.
    cbn. repeat split; try tauto; try congruence; try discriminate.
Qed.

(** C3.  Two handler values with the same [HandlerPath] serve every request
    in the same way, whatever their five tuning fields: the interpreter is
    built by [NewState] without options, with gopher-lua's defaults. *)
Theorem ServeHTTP_ignores_tuning l1 l2 w r (next : Handler) (m : Machine) :
  HandlerPath l1 = HandlerPath l2 ->
  serve l1 w r next m = serve l2 w r next m
  /\ exists res m',
       serve l1 w r next m = Some (res, m')
       /\ hd_error (newEvents m m')
          = Some (lua.NewStateEv (List.length (lua.heap m)) [])
       /\ option_map lua.options
            (nth_error (lua.heap m') (List.length (lua.heap m)))
          = Some (fst (lua.effectiveOptions [])).
Proof.
  intros Hpath. split.
  - rewrite !ServeHTTP_unfold. unfold scriptRun. now rewrite Hpath.
  - rewrite ServeHTTP_unfold.
    destruct (run l1 m) as [[st wd] [e|]].
    + do 2 eexists. split; [reflexivity|].
      erewrite newEvents_app by reflexivity.
      cbn [lua.heap]. rewrite nth_error_last. split; reflexivity.
    + destruct (next w r wd) as [res wd'].
      do 2 eexists. split; [reflexivity|].
      erewrite newEvents_app by reflexivity.
      cbn [lua.heap]. rewrite nth_error_last. split; reflexivity.
Qed.

(** C9.  A request builds its own interpreter: a state that was not on the
    heap before, made by [NewState]; the script runs in that state's fresh
    store; no state that was there before is touched; and the state is
    closed, last of all, when the request returns, with or without an
    error.  What earlier requests left on the heap changes nothing to the
    result of the request or to the world after it. *)
Theorem ServeHTTP_interpreter_scoped l w r (next : Handler) (m : Machine) :
  exists L res m' evs,
    L = List.length (lua.heap m)
    /\ serve l w r next m = Some (res, m')
    /\ nth_error (lua.heap m) L = None
    /\ lua.heap m' =
         (lua.heap m ++
          [{| lua.options := lua.options fresh;
              lua.store := fst (fst (run l m));
              lua.closed := true |}])%list
    /\ newEvents m m' = (lua.NewStateEv L [] :: evs ++ [lua.CloseEv L])%list
    /\ Forall (fun e => match e with
                        | lua.DoFileEv L' _ _ => L' = L
                        | lua.ForeignEv _ => True
                        | _ => False
                        end) evs
    /\ forall m2 : Machine,
         lua.world m2 = lua.world m ->
         exists m2',
           serve l w r next m2 = Some (res, m2')
           /\ lua.world m2' = lua.world m'.
Proof.
  exists (List.length (lua.heap m)). rewrite ServeHTTP_unfold.
  assert (Hnone : nth_error (lua.heap m) (List.length (lua.heap m)) = None)
    by (apply nth_error_None; lia).
  assert (Hrun : forall m2 : Machine,
             lua.world m2 = lua.world m -> run l m2 = run l m)
    by (intros m2 Hw; unfold scriptRun; now rewrite Hw).
  destruct (run l m) as [[st wd] [e|]] eqn:Erun; cbn [fst snd].
  - exists (Some e). eexists.
    exists [lua.DoFileEv (List.length (lua.heap m)) (HandlerPath l) (Some e)].
    split; [reflexivity|]. split; [reflexivity|].
    erewrite newEvents_app by reflexivity.
    repeat split; auto.
    intros m2 Hw. rewrite ServeHTTP_unfold, (Hrun m2 Hw).
    eexists. split; reflexivity.
  - destruct (next w r wd) as [res wd'] eqn:Enext.
    exists res. eexists.
    exists [lua.DoFileEv (List.length (lua.heap m)) (HandlerPath l) None;
            lua.ForeignEv (w, r)].
    split; [reflexivity|]. split; [reflexivity|].
    erewrite newEvents_app by reflexivity.
    repeat split; auto.
    intros m2 Hw. rewrite ServeHTTP_unfold, (Hrun m2 Hw), Enext.
    eexists. split; reflexivity.
Qed.

End ServingFacts.

Lemma ServeHTTP_script_error_witness :
  Demo.failure Demo.raising Demo.boot
  = Some (errorString "/bad.lua: attempt to call a nil value")
  /\ exists m',
       Demo.serve Demo.raising Demo.boot
       = Some (Some (errorString "/bad.lua: attempt to call a nil value"), m')
       /\ count isDoFile (newEvents Demo.boot m') = 1%nat
       /\ count isNext (newEvents Demo.boot m') = 0%nat.
Proof.
  split; [reflexivity|].
  apply (ServeHTTP_script_error Demo.Store Demo.World Demo.newLState
           Demo.OpenLibs Demo.runFile unit unit Demo.raising tt tt Demo.final
           Demo.boot).
  reflexivity.
Defined.

Lemma ServeHTTP_script_ok_witness :
  Demo.failure Demo.good Demo.boot = None
  /\ exists m',
       Demo.serve Demo.good Demo.boot = Some (None, m')
       /\ In (lua.ForeignEv (tt, tt)) (newEvents Demo.boot m')
       /\ count isNext (newEvents Demo.boot m') = 1%nat
       /\ lua.world m' = Demo.files.
Proof.
  split; [reflexivity|].
  apply (ServeHTTP_script_ok Demo.Store Demo.World Demo.newLState
           Demo.OpenLibs Demo.runFile unit unit Demo.good tt tt Demo.final
           Demo.boot).
  reflexivity.
Defined.

Lemma ServeHTTP_ignores_tuning_witness :
  HandlerPath Demo.tuned = HandlerPath Demo.good
  /\ Demo.serve Demo.tuned Demo.boot = Demo.serve Demo.good Demo.boot.
Proof.
  split; [reflexivity|].
  apply (ServeHTTP_ignores_tuning Demo.Store Demo.World Demo.newLState
           Demo.OpenLibs Demo.runFile unit unit Demo.tuned Demo.good tt tt
           Demo.final Demo.boot).
  reflexivity.
Defined.

Lemma ServeHTTP_next_iff_script_ok_witness :
  Demo.failure Demo.raising Demo.boot <> None
  /\ exists res m',
       Demo.serve Demo.raising Demo.boot = Some (res, m')
       /\ count isNext (newEvents Demo.boot m') = 0%nat.
Proof.
  assert (Hfail : Demo.failure Demo.raising Demo.boot <> None) by discriminate.
  split; [exact Hfail|].
  destruct (ServeHTTP_next_iff_script_ok Demo.Store Demo.World Demo.newLState
              Demo.OpenLibs Demo.runFile unit unit Demo.raising tt tt
              Demo.final Demo.boot) as (res & m' & Hs & _ & _ & Hiff).
  exists res, m'. split; [exact Hs|]. apply Hiff. exact Hfail.
Defined.

Lemma ServeHTTP_interpreter_scoped_witness :
  lua.world Demo.later = lua.world Demo.boot
  /\ exists res m' m2',
       Demo.serve Demo.good Demo.boot = Some (res, m')
       /\ Demo.serve Demo.good Demo.later = Some (res, m2')
       /\ lua.world m2' = lua.world m'.
Proof.
  split; [reflexivity|].
  destruct (ServeHTTP_interpreter_scoped Demo.Store Demo.World Demo.newLState
              Demo.OpenLibs Demo.runFile unit unit Demo.good tt tt
              Demo.final Demo.boot)
    as (L & res & m' & evs & _ & Hs & _ & _ & _ & _ & Hind).
  destruct (Hind Demo.later eq_refl) as (m2' & Hs2 & Hw).
  now exists res, m', m2'.
Defined.

(** C1, as stated, fails: the script [/none.lua] is not there, the request
    returns the error of the load, and the next handler has not been called. *)
Lemma ServeHTTP_next_not_unconditional :
  exists err m',
    Demo.serve Demo.missing Demo.boot = Some (Some err, m')
    /\ ~ In (lua.ForeignEv (tt, tt)) (newEvents Demo.boot m')
    /\ count isNext (newEvents Demo.boot m') = 0%nat.
Proof.
  do 2 eexists. split; [reflexivity|]. split; [|reflexivity].
  cbn. intros [H|[H|[H|[]]]]; discriminate.
Qed.

(** * The dispenser *)

(** Comparisons of the code, as hypotheses for [lia]. *)
Ltac zbool :=
  repeat match goal with
  | H : (_ <? _)%Z = true |- _ => apply Z.ltb_lt in H
  | H : (_ <? _)%Z = false |- _ => apply Z.ltb_ge in H
  | H : (_ <=? _)%Z = true |- _ => apply Z.leb_le in H
  | H : (_ <=? _)%Z = false |- _ => apply Z.leb_gt in H
  | H : (_ >=? _)%Z = _ |- _ => rewrite Z.geb_leb in H
  | H : (_ >? _)%Z = _ |- _ => rewrite Z.gtb_ltb in H
  | H : (_ =? _)%Z = true |- _ => apply Z.eqb_eq in H
  | H : (_ =? _)%Z = false |- _ => apply Z.eqb_neq in H
  end.

Section DispenserFacts.

Lemma onward_refl d : onward d d.
Proof. split; [reflexivity|lia]. Qed.

Lemma onward_trans d1 d2 d3 : onward d1 d2 -> onward d2 d3 -> onward d1 d3.
Proof. intros [T1 C1] [T2 C2]. split; [congruence|lia]. Qed.

Lemma onward_len d d' : onward d d' -> len d' = len d.
Proof. intros [T _]. unfold len. now rewrite T. Qed.

Lemma onward_measure d d' : onward d d' -> (measure d' <= measure d)%nat.
Proof.
  intros H. unfold measure. rewrite (onward_len _ _ H).
  destruct H as [_ C]. lia.
Qed.

Lemma len_nonneg d : (0 <= len d)%Z.
Proof. unfold len. lia. Qed.

Lemma setCursor_same d : setCursor (cursor d) d = d.
Proof. now destruct d. Qed.

Lemma measure_setCursor d c :
  (cursor d < c)%Z -> (cursor d < len d)%Z ->
  (measure (setCursor c d) < measure d)%nat.
Proof. unfold measure, len, setCursor. cbn. lia. Qed.

Lemma Next_eq d :
  Next d = Some (if (cursor d <? len d - 1)%Z
                 then (true, setCursor (cursor d + 1) d) else (false, d)).
Proof.
  unfold Next, bind, get, incCursor, modify, ret.
  now destruct (cursor d <? len d - 1)%Z.
Qed.

Lemma Prev_eq d :
  Prev d = Some (if (cursor d >? -1)%Z
                 then ((cursor d - 1 >? -1)%Z, setCursor (cursor d - 1) d)
                 else (false, d)).
Proof.
  unfold Prev, bind, get, decCursor, modify, ret.
  now destruct (cursor d >? -1)%Z.
Qed.

Lemma nextOnSameLine_eq d :
  nextOnSameLine d =
  Some (if (cursor d <? 0)%Z then (true, setCursor (cursor d + 1) d)
        else if (cursor d >=? len d - 1)%Z then (false, d)
        else if isNextOnNewLine (index d (cursor d)) (index d (cursor d + 1))
             then (false, d)
             else (true, setCursor (cursor d + 1) d)).
Proof.
  unfold nextOnSameLine, bind, get, incCursor, modify, ret.
  destruct (cursor d <? 0)%Z; [reflexivity|].
  destruct (cursor d >=? len d - 1)%Z; [reflexivity|].
  now destruct (isNextOnNewLine _ _).
Qed.

Lemma NextArg_eq d :
  NextArg d =
  match nextOnSameLine d with
  | Some (true, d1) =>
      if String.eqb (Val d1) "{"
      then Some (false, setCursor (cursor d1 - 1) d1)
      else Some (true, d1)
  | other => other
  end.
Proof.
  unfold NextArg, bind, get, decCursor, modify, ret.
  destruct (nextOnSameLine d) as [[[|] d1]|]; cbn; try reflexivity.
  now destruct (String.eqb (Val d1) "{").
Qed.

(** [Next] gives a result; when it is [true] the cursor has moved on by
    one token that was there. *)
Lemma Next_total d :
  exists b d', Next d = Some (b, d') /\ onward d d'
    /\ nesting d' = nesting d
    /\ (b = true -> (measure d' < measure d)%nat).
Proof.
  rewrite Next_eq. pose proof (len_nonneg d).
  destruct (cursor d <? len d - 1)%Z eqn:E; do 2 eexists;
    (split; [reflexivity|]).
  - zbool.
    repeat split; cbn; try lia.
    intros _. apply measure_setCursor; lia.
  - repeat split; try lia.
Qed.

Lemma nextOnSameLine_total d :
  exists b d', nextOnSameLine d = Some (b, d')
    /\ tokens d' = tokens d /\ nesting d' = nesting d
    /\ (b = true -> cursor d' = (cursor d + 1)%Z
                    /\ (measure d' < measure d)%nat)
    /\ (b = false -> d' = d).
Proof.
  rewrite nextOnSameLine_eq. pose proof (len_nonneg d).
  destruct (cursor d <? 0)%Z eqn:E0.
  { zbool. do 2 eexists. split; [reflexivity|].
    repeat split; cbn; try discriminate.
    apply measure_setCursor; lia. }
  destruct (cursor d >=? len d - 1)%Z eqn:E1.
  { do 2 eexists. split; [reflexivity|]. repeat split; discriminate. }
  destruct (isNextOnNewLine _ _).
  { do 2 eexists. split; [reflexivity|]. repeat split; discriminate. }
  zbool.
  do 2 eexists. split; [reflexivity|].
  repeat split; cbn; try discriminate.
  apply measure_setCursor; lia.
Qed.

Lemma NextArg_total d :
  exists b d', NextArg d = Some (b, d')
    /\ tokens d' = tokens d /\ nesting d' = nesting d
    /\ (b = true -> cursor d' = (cursor d + 1)%Z
                    /\ (measure d' < measure d)%nat)
    /\ (b = false -> d' = d).
Proof.
  rewrite NextArg_eq.
  destruct (nextOnSameLine_total d) as (b & d1 & -> & T & N & Ht & Hf).
  destruct b.
  - destruct (Ht eq_refl) as [C M].
    destruct (String.eqb (Val d1) "{").
    + do 2 eexists. split; [reflexivity|].
      repeat split; cbn; try assumption; try discriminate.
      intros _. destruct d, d1; cbn in *. subst.
      unfold setCursor. cbn. f_equal. lia.
    + do 2 eexists. split; [reflexivity|].
      repeat split; try assumption; discriminate.
  - do 2 eexists. split; [reflexivity|].
    repeat split; auto; discriminate.
Qed.

Lemma NextArg_onward d b d' : NextArg d = Some (b, d') -> onward d d'.
Proof.
  intros H. destruct (NextArg_total d) as (b0 & d0 & E & T & _ & Ht & Hf).
  rewrite H in E. injection E as <- <-.
  destruct b.
  - destruct (Ht eq_refl). split; [assumption|lia].
  - rewrite (Hf eq_refl). apply onward_refl.
Qed.

Lemma Prev_total d :
  exists b d', Prev d = Some (b, d')
    /\ tokens d' = tokens d
    /\ (cursor d - 1 <= cursor d' <= cursor d)%Z.
Proof.
  rewrite Prev_eq.
  destruct (cursor d >? -1)%Z; do 2 eexists;
    (split; [reflexivity|]); cbn; split; auto; lia.
Qed.

Lemma Args_total ts d :
  exists r d', Args ts d = Some (r, d') /\ onward d d'.
Proof.
  revert d. induction ts as [|t ts IH]; intros d; cbn [Args].
  - do 2 eexists. split; [reflexivity|apply onward_refl].
  - unfold bind at 1.
    destruct (NextArg d) as [[[|] d1]|] eqn:E;
      [| |destruct (NextArg_total d) as (? & ? & ? & _); congruence].
    + apply NextArg_onward in E. cbn.
      unfold bind, get. destruct (IH d1) as (r & d2 & -> & O2). cbn.
      do 2 eexists. split; [reflexivity|].
      eapply onward_trans; eassumption.
    + apply NextArg_onward in E. cbn.
      do 2 eexists. split; [reflexivity|assumption].
Qed.

Lemma AllArgs_total ts d :
  exists r d', AllArgs ts d = Some (r, d') /\ onward d d'.
Proof.
  unfold AllArgs, bind.
  destruct (Args_total ts d) as (r & d1 & -> & O1).
  destruct (fst r); cbn [negb].
  - destruct (NextArg_total d1) as (b & d2 & -> & T & _ & Ht & Hf).
    destruct b; cbv beta iota.
    + destruct (Ht eq_refl) as [C _].
      destruct (Prev_total d2) as (b & d3 & -> & T3 & C3). cbn.
      do 2 eexists. split; [reflexivity|].
      eapply onward_trans; [eassumption|].
      split; [congruence|lia].
    + rewrite (Hf eq_refl).
      do 2 eexists. split; [reflexivity|assumption].
  - do 2 eexists. split; [reflexivity|assumption].
Qed.

Lemma countArgs_total fuel : forall c d,
  (measure d < fuel)%nat ->
  exists c' d', countArgs fuel c d = Some (c', d')
    /\ tokens d' = tokens d
    /\ (0 <= c' - c)%Z /\ cursor d' = (cursor d + (c' - c))%Z.
Proof.
  induction fuel as [|fuel IH]; intros c d Hm; [lia|].
  cbn [countArgs]. unfold bind at 1.
  destruct (NextArg_total d) as (b & d1 & -> & T & _ & Ht & Hf).
  destruct b.
  - destruct (Ht eq_refl) as [C M].
    destruct (IH (c + 1)%Z d1) as (c' & d2 & -> & T2 & P2 & C2); [lia|].
    do 2 eexists. split; [reflexivity|].
    repeat split; [congruence|lia|lia].
  - rewrite (Hf eq_refl). do 2 eexists. split; [reflexivity|].
    repeat split; lia.
Qed.

Lemma rewind_total n : forall d,
  exists d', rewind n d = Some (tt, d')
    /\ tokens d' = tokens d
    /\ (cursor d - Z.of_nat n <= cursor d' <= cursor d)%Z.
Proof.
  induction n as [|n IH]; intros d; cbn [rewind].
  - eexists. split; [reflexivity|]. split; [reflexivity|lia].
  - unfold bind at 1.
    destruct (Prev_total d) as (b & d1 & -> & T & C).
    destruct (IH d1) as (d2 & -> & T2 & C2).
    eexists. split; [reflexivity|]. split; [congruence|lia].
Qed.

Lemma CountRemainingArgs_total d :
  exists n d', CountRemainingArgs d = Some (n, d') /\ onward d d'.
Proof.
  unfold CountRemainingArgs, bind, get.
  destruct (countArgs_total (remaining d) 0 d) as (c & d1 & -> & T & P & C);
    [unfold remaining; fold (measure d); lia|].
  destruct (rewind_total (Z.to_nat c) d1) as (d2 & -> & T2 & C2).
  do 2 eexists. split; [reflexivity|].
  split; [congruence|lia].
Qed.

(** [NextBlock] gives a result; when it is [true] the cursor has moved on
    to a token that was there. *)
Lemma NextBlock_total k d :
  exists b d', NextBlock k d = Some (b, d') /\ onward d d'
    /\ (b = true -> (measure d' < measure d)%nat).
Proof.
  unfold NextBlock. unfold bind at 1, get.
  destruct (nesting d >? k)%Z.
  - unfold bind at 1.
    destruct (Next_total d) as (b & d1 & -> & O1 & _ & M1).
    destruct b; cbn [negb];
      [|do 2 eexists; split; [reflexivity|]; split; [assumption|discriminate]].
    specialize (M1 eq_refl).
    unfold bind at 1, get. unfold bind at 1.
    assert (Hbrace : forall d2,
      exists b d3,
        (if String.eqb (Val d2) "}" || String.eqb (Val d2) "{"
         then bind nextOnSameLine (fun same => ret (negb same))
         else ret false) d2 = Some (b, d3) /\ onward d2 d3).
    { intros d2.
      destruct (String.eqb (Val d2) "}" || String.eqb (Val d2) "{").
      - unfold bind.
        destruct (nextOnSameLine_total d2) as (b & d3 & -> & T & _ & Ht & Hf).
        do 2 eexists. split; [reflexivity|].
        destruct b.
        + destruct (Ht eq_refl). split; [assumption|lia].
        + rewrite (Hf eq_refl). apply onward_refl.
      - do 2 eexists. split; [reflexivity|apply onward_refl]. }
    assert (Hclose : exists b d2,
      (if String.eqb (Val d1) "}"
       then bind nextOnSameLine (fun same => ret (negb same))
       else ret false) d1 = Some (b, d2) /\ onward d1 d2).
    { pose proof (Hbrace d1) as H.
      destruct (String.eqb (Val d1) "}"); cbn [orb] in H; [exact H|].
      do 2 eexists. split; [reflexivity|apply onward_refl]. }
    destruct Hclose as (closes & d2 & -> & O2).
    assert (Hopen : exists b d3,
      (if String.eqb (Val d2) "{"
       then bind nextOnSameLine (fun same => ret (negb same))
       else ret false) d2 = Some (b, d3) /\ onward d2 d3).
    { pose proof (Hbrace d2) as H.
      destruct (String.eqb (Val d2) "{"); rewrite ?orb_true_r in H;
        [exact H|].
      do 2 eexists. split; [reflexivity|apply onward_refl]. }
    pose proof (onward_measure _ _ O2) as M2.
    destruct closes.
    + unfold bind, decNesting, modify, get, ret.
      do 2 eexists. split; [reflexivity|].
      split; [|intros _; unfold measure, len in *; cbn; lia].
      eapply onward_trans; [eassumption|].
      eapply onward_trans; [eassumption|].
      split; [reflexivity|cbn; lia].
    + unfold bind at 1. unfold bind at 1, get. unfold bind at 1.
      destruct Hopen as (opens & d3 & -> & O3).
      pose proof (onward_measure _ _ O3) as M3.
      assert (O13 : onward d d3)
        by (eapply onward_trans; [eassumption|];
            eapply onward_trans; eassumption).
      destruct opens; unfold bind, incNesting, modify, get, ret.
      * do 2 eexists. split; [reflexivity|].
        split; [|intros _; unfold measure, len in *; cbn; lia].
        eapply onward_trans; [eassumption|].
        split; [reflexivity|cbn; lia].
      * do 2 eexists. split; [reflexivity|].
        split; [assumption|intros _; lia].
  - unfold bind at 1.
    destruct (nextOnSameLine_total d) as (b & d1 & -> & T & _ & Ht & Hf).
    destruct b; cbn [negb];
      [|rewrite (Hf eq_refl); do 2 eexists; split; [reflexivity|];
        split; [apply onward_refl|discriminate]].
    destruct (Ht eq_refl) as [C M].
    unfold bind at 1, get.
    destruct (String.eqb (Val d1) "{"); cbn [negb].
    + unfold bind at 1.
      destruct (Next_total d1) as (b & d2 & -> & O2 & _ & _).
      unfold bind at 1, get.
      pose proof (onward_measure _ _ O2) as M2.
      assert (O : onward d d2)
        by (eapply onward_trans; [|eassumption]; split; [assumption|lia]).
      destruct (String.eqb (Val d2) "}").
      * do 2 eexists. split; [reflexivity|]. split; [assumption|discriminate].
      * unfold bind, incNesting, modify, ret.
        do 2 eexists. split; [reflexivity|].
        split; [|intros _; unfold measure, len in *; cbn; lia].
        eapply onward_trans; [eassumption|].
        split; [reflexivity|cbn; lia].
    + unfold bind, decCursor, modify, ret.
      do 2 eexists. split; [reflexivity|].
      split; [|discriminate].
      split; [assumption|cbn; lia].
Qed.

End DispenserFacts.

(** * The parser *)

Section ParserFacts.

Lemma carries_refl s : carries s s.
Proof. split; [apply onward_refl|auto]. Qed.

Lemma carries_trans s1 s2 s3 : carries s1 s2 -> carries s2 s3 -> carries s1 s3.
Proof.
  intros [O1 Q1] [O2 Q2]. split; [eapply onward_trans; eassumption|].
  intros Q St HQ. apply Q2; [|apply Q1; assumption].
  destruct O1 as [T _]. now rewrite T.
Qed.

Lemma carries_disp l d d' :
  onward d d' -> carries {| recv := l; disp := d |} {| recv := l; disp := d' |}.
Proof. intros O. split; [exact O|auto]. Qed.

Lemma onDispenser_eq {A} (m : Run Dispenser A) s :
  onDispenser m s =
  match m (disp s) with
  | Some (a, d') => Some (a, {| recv := recv s; disp := d' |})
  | None => None
  end.
Proof. reflexivity. Qed.

Lemma Val_In d k : Val d = k -> k <> "" -> exists t, In t (tokens d) /\ Text t = k.
Proof.
  unfold Val, outside, index, len. intros H Hk.
  destruct (cursor d <? 0)%Z eqn:E1; cbn [orb] in H; [congruence|].
  destruct (cursor d >=? _)%Z eqn:E2; [congruence|].
  zbool. apply Z.leb_gt in E2.
  eexists. split; [|exact H].
  apply nth_In. lia.
Qed.

Lemma asInt_total d :
  exists r d', asInt d = Some (r, d') /\ onward d d'.
Proof.
  unfold asInt, bind.
  destruct (AllArgs_total [""] d) as (r & d1 & -> & O1).
  destruct (fst r); cbn [negb].
  - destruct (strconv.ParseInt _ _ _) as [i [e|]];
      do 2 eexists; (split; [reflexivity|assumption]).
  - unfold get, ret. do 2 eexists. split; [reflexivity|assumption].
Qed.

Lemma intOption_total field set s :
  exists r s', intOption field set s = Some (r, s')
    /\ onward (disp s) (disp s')
    /\ (recv s' = recv s \/ exists i, recv s' = set i (recv s)).
Proof.
  unfold intOption. unfold bind at 1. rewrite onDispenser_eq.
  destruct (asInt_total (disp s)) as ([i [e|]] & d1 & -> & O1); cbn [snd fst].
  - unfold bind, get, ret. do 2 eexists. split; [reflexivity|].
    split; [assumption|now left].
  - unfold bind, assign, modify, ret. do 2 eexists. split; [reflexivity|].
    split; [assumption|right; now exists i].
Qed.

(** The [switch] gives a result, whatever the token under the cursor. *)
Lemma switch_total s :
  exists r s', UnmarshalCaddyfile_switch s = Some (r, s') /\ carries s s'.
Proof.
  unfold UnmarshalCaddyfile_switch. unfold bind at 1, get.
  assert (Hint : forall field set,
    (forall Q, stable (tokens (disp s)) Q ->
               forall i l, Q l -> Q (set i l)) ->
    exists r s', intOption field set s = Some (r, s') /\ carries s s').
  { intros field set Hset.
    destruct (intOption_total field set s) as (r & s' & -> & O & Hr).
    do 2 eexists. split; [reflexivity|]. split; [assumption|].
    intros Q St HQ. destruct Hr as [->|[i ->]]; [assumption|].
    now apply Hset. }
  destruct (String.eqb _ "call_stack_size");
    [apply Hint; intros Q St; apply St|].
  destruct (String.eqb _ "registry_size");
    [apply Hint; intros Q St; apply St|].
  destruct (String.eqb _ "registry_max_size");
    [apply Hint; intros Q St; apply St|].
  destruct (String.eqb _ "registry_grow_step");
    [apply Hint; intros Q St; apply St|].
  clear Hint.
  destruct (String.eqb _ "minimize_stack_memory").
  { unfold bind at 1. rewrite onDispenser_eq.
    destruct (CountRemainingArgs_total (disp s)) as (n & d1 & -> & O1).
    destruct (n >? 0)%Z; unfold bind, get, ret;
      do 2 eexists; (split; [reflexivity|]); now apply carries_disp. }
  destruct (String.eqb _ "handler_path") eqn:Ehp.
  { apply String.eqb_eq in Ehp.
    unfold bind at 1. rewrite onDispenser_eq.
    destruct (Args_total [HandlerPath (recv s)] (disp s))
      as (r & d1 & -> & O1).
    unfold bind at 1, assign, modify.
    assert (C : carries s
      {| recv := setHandlerPath (hd (HandlerPath (recv s)) (snd r)) (recv s);
         disp := d1 |}).
    { split; [assumption|]. intros Q St HQ. cbn.
      apply St; [|assumption].
      apply Val_In; [assumption|discriminate]. }
    destruct (fst r); cbn [negb]; unfold bind, get, ret;
      do 2 eexists; (split; [reflexivity|exact C]). }
  unfold ret. do 2 eexists. split; [reflexivity|apply carries_refl].
Qed.

Lemma block_S fuel s :
  UnmarshalCaddyfile_block (S fuel) s =
  match NextBlock 0 (disp s) with
  | Some (true, d1) =>
      match UnmarshalCaddyfile_switch {| recv := recv s; disp := d1 |} with
      | Some (Some err, s2) => Some (Some err, s2)
      | Some (None, s2) => UnmarshalCaddyfile_block fuel s2
      | None => None
      end
  | Some (false, d1) => Some (None, {| recv := recv s; disp := d1 |})
  | None => None
  end.
Proof.
  cbn [UnmarshalCaddyfile_block]. unfold bind at 1. rewrite onDispenser_eq.
  destruct (NextBlock 0 (disp s)) as [[[|] d1]|]; try reflexivity.
  cbn [negb]. unfold bind.
  destruct (UnmarshalCaddyfile_switch _) as [[[e|] s2]|]; reflexivity.
Qed.

Lemma loop_S fuel s :
  UnmarshalCaddyfile_loop (S fuel) s =
  match Next (disp s) with
  | Some (true, d1) =>
      match UnmarshalCaddyfile_block (remaining d1)
              {| recv := recv s; disp := d1 |} with
      | Some (Some err, s2) => Some (Some err, s2)
      | Some (None, s2) => UnmarshalCaddyfile_loop fuel s2
      | None => None
      end
  | Some (false, d1) => Some (None, {| recv := recv s; disp := d1 |})
  | None => None
  end.
Proof.
  cbn [UnmarshalCaddyfile_loop]. unfold bind at 1. rewrite onDispenser_eq.
  destruct (Next (disp s)) as [[[|] d1]|]; try reflexivity.
  cbn [negb]. unfold bind, get. cbn [disp].
  destruct (UnmarshalCaddyfile_block _ _) as [[[e|] s2]|]; reflexivity.
Qed.

(** The inner loop ends, on the fuel of what is left to read. *)
Lemma block_total fuel : forall s,
  (measure (disp s) < fuel)%nat ->
  exists r s', UnmarshalCaddyfile_block fuel s = Some (r, s') /\ carries s s'.
Proof.
  induction fuel as [|fuel IH]; intros s Hm; [lia|].
  rewrite block_S.
  destruct (NextBlock_total 0 (disp s)) as (b & d1 & -> & O1 & M1).
  destruct b.
  - specialize (M1 eq_refl).
    destruct (switch_total {| recv := recv s; disp := d1 |})
      as (r & s2 & -> & C2).
    assert (C : carries s s2).
    { eapply carries_trans; [|exact C2].
      destruct s. now apply carries_disp. }
    destruct r as [e|].
    + do 2 eexists. split; [reflexivity|exact C].
    + pose proof (onward_measure _ _ (proj1 C2)) as M2. cbn in M2.
      destruct (IH s2) as (r & s3 & -> & C3); [lia|].
      do 2 eexists. split; [reflexivity|].
      eapply carries_trans; eassumption.
  - do 2 eexists. split; [reflexivity|].
    destruct s. now apply carries_disp.
Qed.

Lemma loop_total fuel : forall s,
  (measure (disp s) < fuel)%nat ->
  exists r s', UnmarshalCaddyfile_loop fuel s = Some (r, s') /\ carries s s'.
Proof.
  induction fuel as [|fuel IH]; intros s Hm; [lia|].
  rewrite loop_S.
  destruct (Next_total (disp s)) as (b & d1 & -> & O1 & _ & M1).
  destruct b.
  - specialize (M1 eq_refl).
    destruct (block_total (remaining d1) {| recv := recv s; disp := d1 |})
      as (r & s2 & -> & C2); [unfold remaining; fold (measure d1); cbn; lia|].
    assert (C : carries s s2).
    { eapply carries_trans; [|exact C2].
      destruct s. now apply carries_disp. }
    destruct r as [e|].
    + do 2 eexists. split; [reflexivity|exact C].
    + pose proof (onward_measure _ _ (proj1 C2)) as M2. cbn in M2.
      destruct (IH s2) as (r & s3 & -> & C3); [lia|].
      do 2 eexists. split; [reflexivity|].
      eapply carries_trans; eassumption.
  - do 2 eexists. split; [reflexivity|].
    destruct s. now apply carries_disp.
Qed.

(** [UnmarshalCaddyfile] returns, for every dispenser and every handler
    value. *)
Lemma UnmarshalCaddyfile_total s :
  exists r s', UnmarshalCaddyfile s = Some (r, s') /\ carries s s'.
Proof.
  unfold UnmarshalCaddyfile, bind, get.
  apply loop_total. unfold remaining. fold (measure (disp s)). lia.
Qed.

Lemma parseCaddyfile_total d :
  exists l err d', parseCaddyfile d = Some ((l, err), d')
    /\ carries {| recv := zeroLua; disp := d |} {| recv := l; disp := d' |}.
Proof.
  unfold parseCaddyfile.
  destruct (UnmarshalCaddyfile_total {| recv := zeroLua; disp := d |})
    as (r & [l d'] & -> & C).
  now exists l, r, d'.
Qed.

(** More fuel changes nothing. *)
Lemma block_fuel n : forall s r,
  UnmarshalCaddyfile_block n s = Some r ->
  forall m, (n <= m)%nat -> UnmarshalCaddyfile_block m s = Some r.
Proof.
  induction n as [|n IH]; intros s r H m Hm; [discriminate|].
  destruct m as [|m]; [lia|].
  rewrite block_S in *.
  destruct (NextBlock 0 (disp s)) as [[[|] d1]|]; try assumption.
  destruct (UnmarshalCaddyfile_switch _) as [[[e|] s2]|]; try assumption.
  apply IH; [assumption|lia].
Qed.

Lemma block_enough n s r :
  UnmarshalCaddyfile_block n s = Some r ->
  UnmarshalCaddyfile_block (remaining (disp s)) s = Some r.
Proof.
  intros H.
  destruct (block_total (remaining (disp s)) s) as (r0 & s0 & E & _);
    [unfold remaining; fold (measure (disp s)); lia|].
  pose proof (block_fuel _ _ _ H (max n (remaining (disp s))) (Nat.le_max_l _ _)) as H1.
  pose proof (block_fuel _ _ _ E (max n (remaining (disp s))) (Nat.le_max_r _ _)) as H2.
  congruence.
Qed.

Lemma loop_fuel n : forall s r,
  UnmarshalCaddyfile_loop n s = Some r ->
  forall m, (n <= m)%nat -> UnmarshalCaddyfile_loop m s = Some r.
Proof.
  induction n as [|n IH]; intros s r H m Hm; [discriminate|].
  destruct m as [|m]; [lia|].
  rewrite loop_S in *.
  destruct (Next (disp s)) as [[[|] d1]|]; try assumption.
  destruct (UnmarshalCaddyfile_block _ _) as [[[e|] s2]|]; try assumption.
  apply IH; [assumption|lia].
Qed.

Lemma loop_enough n s r :
  UnmarshalCaddyfile_loop n s = Some r -> UnmarshalCaddyfile s = Some r.
Proof.
  intros H. unfold UnmarshalCaddyfile, bind, get.
  destruct (loop_total (remaining (disp s)) s) as (r0 & s0 & E & _);
    [unfold remaining; fold (measure (disp s)); lia|].
  pose proof (loop_fuel _ _ _ H (max n (remaining (disp s))) (Nat.le_max_l _ _)) as H1.
  pose proof (loop_fuel _ _ _ E (max n (remaining (disp s))) (Nat.le_max_r _ _)) as H2.
  congruence.
Qed.

(** What the parser does from where it has come to is what
    [UnmarshalCaddyfile] does. *)
Lemma comesTo_rest s0 s :
  comesTo s0 s ->
  forall n m r,
    UnmarshalCaddyfile_rest n m s = Some r -> UnmarshalCaddyfile s0 = Some r.
Proof.
  induction 1 as [d0 Hnext|s d1 s2 _ IH Hblock Hswitch|s d1 d2 _ IH Hblock Hnext];
    intros n m r Hrest; unfold UnmarshalCaddyfile_rest in Hrest.
  - apply loop_enough with (n := S m). rewrite loop_S, Hnext.
    destruct (UnmarshalCaddyfile_block n _) as [[o s']|] eqn:B; [|discriminate].
    apply block_enough in B. cbn [disp] in B. rewrite B. exact Hrest.
  - apply (IH (S n) m). unfold UnmarshalCaddyfile_rest.
    now rewrite block_S, Hblock, Hswitch.
  - apply (IH 1%nat (S m)). unfold UnmarshalCaddyfile_rest.
    rewrite block_S, Hblock, loop_S. cbn [disp recv]. rewrite Hnext.
    destruct (UnmarshalCaddyfile_block n _) as [[o s']|] eqn:B; [|discriminate].
    apply block_enough in B. cbn [disp] in B. rewrite B. exact Hrest.
Qed.

(** The first option that the [switch] rejects ends the run: its error is
    the error of [UnmarshalCaddyfile]. *)
Lemma comesTo_rejects s0 s d1 e s' :
  comesTo s0 s -> rejects s d1 e s' ->
  UnmarshalCaddyfile s0 = Some (Some e, s').
Proof.
  intros Hs [Hblock Hswitch].
  apply (comesTo_rest s0 s Hs 1%nat 0%nat).
  unfold UnmarshalCaddyfile_rest. now rewrite block_S, Hblock, Hswitch.
Qed.

Lemma block_error_comesTo s0 n : forall s e s',
  comesTo s0 s ->
  UnmarshalCaddyfile_block n s = Some (Some e, s') ->
  exists s1 d1, comesTo s0 s1 /\ rejects s1 d1 e s'.
Proof.
  induction n as [|n IH]; intros s e s' Hs H; [discriminate|].
  rewrite block_S in H.
  destruct (NextBlock 0 (disp s)) as [[[|] d1]|] eqn:Hblock; try discriminate.
  destruct (UnmarshalCaddyfile_switch _) as [[[e1|] s2]|] eqn:Hswitch;
    try discriminate.
  - injection H as <- <-. exists s, d1. split; [assumption|now split].
  - apply (IH s2); [|assumption].
    eapply comesTo_accepted; eassumption.
Qed.

Lemma block_end_comesTo s0 n : forall s s',
  comesTo s0 s ->
  UnmarshalCaddyfile_block n s = Some (None, s') ->
  exists s1 d1,
    comesTo s0 s1 /\ NextBlock 0 (disp s1) = Some (false, d1)
    /\ s' = {| recv := recv s1; disp := d1 |}.
Proof.
  induction n as [|n IH]; intros s s' Hs H; [discriminate|].
  rewrite block_S in H.
  destruct (NextBlock 0 (disp s)) as [[[|] d1]|] eqn:Hblock; try discriminate.
  - destruct (UnmarshalCaddyfile_switch _) as [[[e1|] s2]|] eqn:Hswitch;
      try discriminate.
    apply (IH s2); [|assumption].
    eapply comesTo_accepted; eassumption.
  - injection H as <-. now exists s, d1.
Qed.

Lemma loop_error_comesTo s0 m : forall s1 e s',
  (s1 = s0
   \/ exists s d1,
        comesTo s0 s /\ NextBlock 0 (disp s) = Some (false, d1)
        /\ s1 = {| recv := recv s; disp := d1 |}) ->
  UnmarshalCaddyfile_loop m s1 = Some (Some e, s') ->
  exists s d1, comesTo s0 s /\ rejects s d1 e s'.
Proof.
  induction m as [|m IH]; intros s1 e s' Hs1 H; [discriminate|].
  rewrite loop_S in H.
  destruct (Next (disp s1)) as [[[|] d0]|] eqn:Hnext; try discriminate.
  assert (Hs : comesTo s0 {| recv := recv s1; disp := d0 |}).
  { destruct Hs1 as [->|(s & d1 & Hs & Hblock & ->)].
    - now apply comesTo_first.
    - cbn [disp recv] in *. eapply comesTo_again; eassumption. }
  destruct (UnmarshalCaddyfile_block _ _) as [[[e1|] s2]|] eqn:B;
    try discriminate.
  - injection H as <- <-. eapply block_error_comesTo; eassumption.
  - apply (IH s2); [|assumption]. right.
    eapply block_end_comesTo; eassumption.
Qed.

(** Every error of [UnmarshalCaddyfile] is the error of the first option
    that the [switch] rejects. *)
Lemma UnmarshalCaddyfile_error_comesTo s0 e s' :
  UnmarshalCaddyfile s0 = Some (Some e, s') ->
  exists s d1, comesTo s0 s /\ rejects s d1 e s'.
Proof.
  unfold UnmarshalCaddyfile, bind, get. intros H.
  eapply loop_error_comesTo; [|exact H]. now left.
Qed.

End ParserFacts.

(** * The dispenser on a written configuration *)

Section AroundFacts.

Lemma around_len pre cur nest post :
  len (around pre cur post nest)
  = (Z.of_nat (List.length pre) + 1 + Z.of_nat (List.length post))%Z.
Proof.
  unfold len, around. cbn [tokens].
  rewrite length_app. cbn [List.length]. lia.
Qed.

Lemma around_outside pre cur nest post : outside (around pre cur post nest) = false.
Proof.
  unfold outside. rewrite around_len. cbn [cursor around].
  apply orb_false_iff. split; [apply Z.ltb_ge; lia|].
  rewrite Z.geb_leb. apply Z.leb_gt. lia.
Qed.

Lemma around_index pre cur nest post :
  index (around pre cur post nest) (Z.of_nat (List.length pre)) = cur.
Proof.
  unfold index, around. cbn [tokens].
  rewrite Nat2Z.id. apply nth_middle.
Qed.

Lemma around_index_next pre cur nest n post :
  index (around pre cur (n :: post) nest) (Z.of_nat (List.length pre) + 1) = n.
Proof.
  unfold index, around. cbn [tokens].
  replace (Z.to_nat (Z.of_nat (List.length pre) + 1))
    with (List.length (pre ++ [cur])) by (rewrite length_app; cbn; lia).
  replace (pre ++ cur :: n :: post)%list with ((pre ++ [cur]) ++ n :: post)%list
    by (now rewrite <- app_assoc).
  apply nth_middle.
Qed.

Lemma around_Val pre cur nest post : Val (around pre cur post nest) = Text cur.
Proof. unfold Val. now rewrite around_outside, around_index. Qed.

Lemma around_Line pre cur nest post : Line_ (around pre cur post nest) = Line cur.
Proof. unfold Line_. now rewrite around_outside, around_index. Qed.

Lemma around_File pre cur nest post : File_ (around pre cur post nest) = File cur.
Proof. unfold File_. now rewrite around_outside, around_index. Qed.

Lemma around_step pre cur nest n post :
  setCursor (Z.of_nat (List.length pre) + 1) (around pre cur (n :: post) nest)
  = around (pre ++ [cur]) n post nest.
Proof.
  unfold setCursor, around. cbn [tokens nesting]. f_equal.
  - now rewrite <- app_assoc.
  - rewrite length_app. cbn. lia.
Qed.

Lemma around_back pre cur nest n post :
  setCursor (Z.of_nat (List.length (pre ++ [cur])) - 1)
    (around (pre ++ [cur]) n post nest)
  = around pre cur (n :: post) nest.
Proof.
  unfold setCursor, around. cbn [tokens nesting]. f_equal.
  - now rewrite <- app_assoc.
  - rewrite length_app. cbn. lia.
Qed.

Lemma around_nesting pre cur nest post k :
  setNesting k (around pre cur post nest) = around pre cur post k.
Proof. reflexivity. Qed.

Lemma Next_around pre cur nest n post :
  Next (around pre cur (n :: post) nest)
  = Some (true, around (pre ++ [cur]) n post nest).
Proof.
  rewrite Next_eq, around_len. cbn [cursor around List.length].
  replace (_ <? _)%Z with true by (symmetry; apply Z.ltb_lt; lia).
  fold (around pre cur (n :: post) nest). now rewrite around_step.
Qed.

Lemma Next_around_end pre cur nest :
  Next (around pre cur [] nest) = Some (false, around pre cur [] nest).
Proof.
  rewrite Next_eq, around_len. cbn [cursor around List.length].
  now replace (_ <? _)%Z with false by (symmetry; apply Z.ltb_ge; lia).
Qed.

Lemma nextOnSameLine_around pre cur nest n post :
  nextOnSameLine (around pre cur (n :: post) nest)
  = Some (if isNextOnNewLine cur n
          then (false, around pre cur (n :: post) nest)
          else (true, around (pre ++ [cur]) n post nest)).
Proof.
  rewrite nextOnSameLine_eq, around_len.
  cbn [cursor around List.length].
  replace (_ <? 0)%Z with false by (symmetry; apply Z.ltb_ge; lia).
  replace (_ >=? _)%Z with false
    by (symmetry; rewrite Z.geb_leb; apply Z.leb_gt; lia).
  fold (around pre cur (n :: post) nest).
  now rewrite around_index, around_index_next, around_step.
Qed.

Lemma nextOnSameLine_around_end pre cur nest :
  nextOnSameLine (around pre cur [] nest)
  = Some (false, around pre cur [] nest).
Proof.
  rewrite nextOnSameLine_eq, around_len.
  cbn [cursor around List.length].
  replace (_ <? 0)%Z with false by (symmetry; apply Z.ltb_ge; lia).
  now replace (_ >=? _)%Z with true
    by (symmetry; rewrite Z.geb_leb; apply Z.leb_le; lia).
Qed.

(** [NextArg] takes the next token when it is on the line of the current
    one and does not open a block. *)
Lemma NextArg_around pre cur nest n post :
  NextArg (around pre cur (n :: post) nest)
  = Some (if isNextOnNewLine cur n || String.eqb (Text n) "{"
          then (false, around pre cur (n :: post) nest)
          else (true, around (pre ++ [cur]) n post nest)).
Proof.
  rewrite NextArg_eq, nextOnSameLine_around.
  destruct (isNextOnNewLine cur n); [reflexivity|]. cbn [orb].
  rewrite around_Val.
  destruct (String.eqb (Text n) "{"); [|reflexivity].
  cbn [cursor around]. fold (around (pre ++ [cur]) n post nest).
  now rewrite around_back.
Qed.

Lemma NextArg_around_end pre cur nest :
  NextArg (around pre cur [] nest) = Some (false, around pre cur [] nest).
Proof. now rewrite NextArg_eq, nextOnSameLine_around_end. Qed.

Lemma Prev_around pre cur nest n post :
  Prev (around (pre ++ [cur]) n post nest)
  = Some (true, around pre cur (n :: post) nest).
Proof.
  rewrite Prev_eq. cbn [cursor around].
  fold (around (pre ++ [cur]) n post nest).
  rewrite around_back.
  replace (_ >? -1)%Z with true
    by (symmetry; rewrite Z.gtb_ltb; apply Z.ltb_lt; lia).
  replace (_ >? -1)%Z with true
    by (symmetry; rewrite Z.gtb_ltb; apply Z.ltb_lt;
        rewrite length_app; cbn; lia).
  reflexivity.
Qed.

End AroundFacts.

Section LineFacts.
Variables (file : string) (line : Z).
Local Abbreviation T := (mkToken file line).

Lemma countNewlines_nonneg s : (0 <= countNewlines s)%Z.
Proof.
  induction s as [|c s IH]; cbn [countNewlines]; [lia|].
  destruct (byte_of c =? 10)%Z; lia.
Qed.

Lemma sameLine a b : isNextOnNewLine (T a) (T b) = false.
Proof.
  unfold isNextOnNewLine, NumLineBreaks. cbn [File Line Text].
  rewrite String.eqb_refl. cbn [negb].
  apply Z.ltb_ge. pose proof (countNewlines_nonneg a). lia.
Qed.

Lemma laterLine a n :
  countNewlines a = 0%Z -> File n = file -> (line < Line n)%Z ->
  isNextOnNewLine (T a) n = true.
Proof.
  intros Ha Hf Hl. unfold isNextOnNewLine, NumLineBreaks.
  cbn [File Line Text]. rewrite Hf, String.eqb_refl, Ha. cbn [negb].
  apply Z.ltb_lt. lia.
Qed.

Lemma plain_spec a :
  plain a = true -> String.eqb a "{" = false /\ countNewlines a = 0%Z.
Proof.
  unfold plain. intros H. apply andb_true_iff in H as [H1 H2].
  apply negb_true_iff in H1. apply Z.eqb_eq in H2. now split.
Qed.

Lemma NextArg_arg pre k a post nest :
  plain a = true ->
  NextArg (around pre (T k) (T a :: post) nest)
  = Some (true, around (pre ++ [T k]) (T a) post nest).
Proof.
  intros Ha. apply plain_spec in Ha as [Hb _].
  rewrite NextArg_around, sameLine. cbn [Text orb]. now rewrite Hb.
Qed.

Lemma NextArg_eol pre k post nest :
  countNewlines k = 0%Z -> startsLater file line post ->
  NextArg (around pre (T k) post nest)
  = Some (false, around pre (T k) post nest).
Proof.
  intros Hk Hpost. destruct post as [|n post].
  - apply NextArg_around_end.
  - destruct Hpost as [Hf Hl].
    rewrite NextArg_around, laterLine by assumption. reflexivity.
Qed.

Lemma asInt_none pre k post nest :
  countNewlines k = 0%Z -> startsLater file line post ->
  let d := around pre (T k) post nest in
  asInt d = Some ((0%Z, Some (ArgErr d)), d).
Proof.
  intros Hk Hpost d. subst d.
  unfold asInt, AllArgs, bind. cbn [Args]. unfold bind.
  now rewrite NextArg_eol.
Qed.

Lemma asInt_one pre k a post nest :
  plain a = true -> startsLater file line post ->
  asInt (around pre (T k) (T a :: post) nest)
  = Some (match strconv.ParseInt a 10 64 with
          | (_, Some err) => (0%Z, Some err)
          | (i, None) => (to_int i, None)
          end, around (pre ++ [T k]) (T a) post nest).
Proof.
  intros Ha Hpost.
  unfold asInt, AllArgs, bind. cbn [Args]. unfold bind.
  rewrite NextArg_arg by assumption. cbn [negb]. unfold get, ret.
  cbn [fst snd negb]. rewrite around_Val. cbn [Text hd].
  rewrite NextArg_eol by (try apply plain_spec; assumption).
  cbn [fst snd negb hd].
  now destruct (strconv.ParseInt a 10 64) as [i [e|]].
Qed.

Lemma asInt_many pre k a b post nest :
  plain a = true -> plain b = true ->
  let d := around (pre ++ [T k]) (T a) (T b :: post) nest in
  asInt (around pre (T k) (T a :: T b :: post) nest)
  = Some ((0%Z, Some (ArgErr d)), d).
Proof.
  intros Ha Hb d. subst d.
  unfold asInt, AllArgs, bind. cbn [Args]. unfold bind.
  rewrite NextArg_arg by assumption. cbn [negb]. unfold get, ret.
  cbn [fst snd negb]. rewrite NextArg_arg by assumption.
  rewrite Prev_around. reflexivity.
Qed.

End LineFacts.

Section CountFacts.

Lemma NextArg_true d d1 :
  NextArg d = Some (true, d1) -> d1 = setCursor (cursor d + 1) d.
Proof.
  intros H. destruct (NextArg_total d) as (b & d' & E & T & N & Ht & _).
  rewrite H in E. injection E as <- <-.
  destruct (Ht eq_refl) as [C _].
  destruct d, d1. unfold setCursor. cbn in *. now subst.
Qed.

Lemma rewind_exact n : forall d,
  (Z.of_nat n <= cursor d + 1)%Z ->
  rewind n d = Some (tt, setCursor (cursor d - Z.of_nat n) d).
Proof.
  induction n as [|n IH]; intros d Hn; cbn [rewind].
  - unfold ret. rewrite Z.sub_0_r. now rewrite setCursor_same.
  - unfold bind. rewrite Prev_eq.
    replace (cursor d >? -1)%Z with true
      by (symmetry; rewrite Z.gtb_ltb; apply Z.ltb_lt; lia).
    rewrite IH by (cbn; lia).
    unfold setCursor. cbn. do 3 f_equal. lia.
Qed.

Lemma countArgs_exact fuel : forall c d,
  (measure d < fuel)%nat ->
  exists c',
    countArgs fuel c d = Some (c', setCursor (cursor d + (c' - c)) d)
    /\ (c <= c')%Z
    /\ (c' = c <-> NextArg d = Some (false, d)).
Proof.
  induction fuel as [|fuel IH]; intros c d Hm; [lia|].
  cbn [countArgs]. unfold bind at 1.
  destruct (NextArg_total d) as (b & d1 & E & T & _ & Ht & Hf).
  rewrite E. destruct b.
  - destruct (Ht eq_refl) as [C M].
    apply NextArg_true in E. subst d1.
    destruct (IH (c + 1)%Z (setCursor (cursor d + 1) d)) as (c' & -> & P & _);
      [lia|].
    exists c'. split; [|split; [lia|]].
    + unfold setCursor. cbn. do 3 f_equal. lia.
    + split; [lia|discriminate].
  - rewrite (Hf eq_refl). exists c. unfold ret.
    rewrite Z.sub_diag, Z.add_0_r, setCursor_same.
    repeat split; auto; lia.
Qed.

(** [CountRemainingArgs] puts the cursor back where it was; it counts none
    exactly when [NextArg] has nothing to take. *)
Lemma CountRemainingArgs_restores d :
  (-1 <= cursor d)%Z ->
  exists n,
    CountRemainingArgs d = Some (n, d)
    /\ (0 <= n)%Z
    /\ (n = 0%Z <-> NextArg d = Some (false, d)).
Proof.
  intros Hc. unfold CountRemainingArgs, bind, get.
  destruct (countArgs_exact (remaining d) 0 d) as (n & -> & P & Hn);
    [unfold remaining; fold (measure d); lia|].
  exists n. rewrite rewind_exact by (cbn; lia).
  unfold ret. split; [|split; assumption].
  unfold setCursor. cbn. destruct d; cbn. do 3 f_equal. lia.
Qed.

End CountFacts.

(** * The [switch] on a written line *)

Section SwitchFacts.

Lemma append_assoc (a b c : string) : (a ++ b) ++ c = a ++ b ++ c.
Proof. induction a as [|x a IH]; cbn; [reflexivity|now rewrite IH]. Qed.

Lemma names_field d k inner :
  namesOption (Errf d (Errorf_field k inner)) k.
Proof.
  intros Quote. unfold names, Errf, WrapErr, Errorf_field. cbn [Error].
  eexists. cbn [append]. rewrite !append_assoc. reflexivity.
Qed.

Lemma names_unknown d k : namesOption (Errf d (Errorf_unknown k)) k.
Proof.
  intros Quote. unfold names, Errf, WrapErr, Errorf_unknown. cbn [Error].
  eexists. cbn [append]. rewrite !append_assoc. reflexivity.
Qed.

Lemma isIntOption_cases k :
  isIntOption k = true ->
  k = "call_stack_size" \/ k = "registry_size"
  \/ k = "registry_max_size" \/ k = "registry_grow_step".
Proof.
  unfold isIntOption. rewrite !orb_true_iff, !String.eqb_eq. tauto.
Qed.

Lemma recognized_cases k :
  recognized k = true ->
  isIntOption k = true \/ k = "minimize_stack_memory" \/ k = "handler_path".
Proof.
  unfold recognized. rewrite !orb_true_iff, !String.eqb_eq. tauto.
Qed.

(** A keyword of the [switch] is one word, and not a brace. *)
Lemma recognized_word k :
  recognized k = true ->
  countNewlines k = 0%Z /\ String.eqb k "{" = false
  /\ String.eqb k "}" = false.
Proof.
  intros H. apply recognized_cases in H as [H|[->| ->]];
    [apply isIntOption_cases in H as [->|[->|[->| ->]]]| |];
    repeat split; reflexivity.
Qed.

Lemma switch_int s k :
  Val (disp s) = k -> isIntOption k = true ->
  UnmarshalCaddyfile_switch s = intOption k (setterOf k) s.
Proof.
  intros Hv Hk. unfold UnmarshalCaddyfile_switch. unfold bind at 1, get.
  rewrite Hv.
  apply isIntOption_cases in Hk as [->|[->|[->| ->]]]; reflexivity.
Qed.

Lemma switch_unknown s :
  recognized (Val (disp s)) = false ->
  UnmarshalCaddyfile_switch s
  = Some (Some (Errf (disp s) (Errorf_unknown (Val (disp s)))), s).
Proof.
  unfold recognized, isIntOption. rewrite !orb_false_iff.
  intros [[[[[H1 H2] H3] H4] H5] H6].
  unfold UnmarshalCaddyfile_switch. unfold bind at 1, get.
  now rewrite H1, H2, H3, H4, H5, H6.
Qed.

Lemma setHandlerPath_same l : setHandlerPath (HandlerPath l) l = l.
Proof. now destruct l. Qed.

Variables (file : string) (line : Z).
Local Abbreviation T := (mkToken file line).

(** A well-formed line: the [switch] assigns what the line says, leaves the
    cursor on the last token of the line, and goes on. *)
Lemma switch_wellFormed pre k args post nest l :
  wellFormed (k, args) = true -> startsLater file line post ->
  UnmarshalCaddyfile_switch
    {| recv := l; disp := around pre (T k) (map T args ++ post) nest |}
  = Some (None, {| recv := assigned (k, args) l;
                   disp := aroundLast pre (T k) (map T args) post nest |}).
Proof.
  intros Hwf Hpost. unfold wellFormed in Hwf.
  destruct (isIntOption k) eqn:Hint.
  { destruct args as [|a [|b args]]; try discriminate.
    apply andb_true_iff in Hwf as [Ha Hv].
    rewrite (switch_int _ k) by (try apply around_Val; assumption).
    unfold intOption. unfold bind at 1. rewrite onDispenser_eq.
    cbn [disp map app]. rewrite (asInt_one file line) by assumption.
    unfold assigned. cbn [hd]. unfold intValue in *.
    destruct (strconv.ParseInt a 10 64) as [i [e|]]; [discriminate|].
    cbn [snd fst]. unfold bind, assign, modify, ret. cbn [recv disp aroundLast].
    apply isIntOption_cases in Hint as [->|[->|[->| ->]]]; reflexivity. }
  destruct (String.eqb k "minimize_stack_memory") eqn:Hm.
  { apply String.eqb_eq in Hm. subst k.
    destruct args; [|discriminate]. cbn [map app aroundLast].
    unfold UnmarshalCaddyfile_switch. unfold bind at 1, get.
    cbn [disp]. rewrite around_Val. cbn [Text].
    change (String.eqb "minimize_stack_memory" "call_stack_size") with false.
    change (String.eqb "minimize_stack_memory" "registry_size") with false.
    change (String.eqb "minimize_stack_memory" "registry_max_size") with false.
    change (String.eqb "minimize_stack_memory" "registry_grow_step") with false.
    change (String.eqb "minimize_stack_memory" "minimize_stack_memory") with true.
    cbv iota. unfold bind at 1. rewrite onDispenser_eq. cbn [disp].
    destruct (CountRemainingArgs_restores
                (around pre (T "minimize_stack_memory") post nest))
      as (n & -> & _ & Hn); [cbn; lia|].
    replace n with 0%Z
      by (symmetry; apply Hn; now apply (NextArg_eol file line)).
    reflexivity. }
  destruct (String.eqb k "handler_path") eqn:Hh; [|discriminate].
  apply String.eqb_eq in Hh. subst k.
  destruct args as [|a [|b args]]; try discriminate.
  cbn [map app aroundLast].
  unfold UnmarshalCaddyfile_switch. unfold bind at 1, get.
  cbn [disp]. rewrite around_Val. cbn [Text].
  change (String.eqb "handler_path" "call_stack_size") with false.
  change (String.eqb "handler_path" "registry_size") with false.
  change (String.eqb "handler_path" "registry_max_size") with false.
  change (String.eqb "handler_path" "registry_grow_step") with false.
  change (String.eqb "handler_path" "minimize_stack_memory") with false.
  change (String.eqb "handler_path" "handler_path") with true.
  cbv iota. unfold bind at 1. rewrite onDispenser_eq. cbn [disp recv Args].
  unfold bind at 1. rewrite (NextArg_arg file line) by assumption.
  cbn [negb]. unfold bind, get, ret, assign, modify.
  rewrite around_Val. reflexivity.
Qed.

(** A malformed line: the [switch] returns an error that names the
    keyword of the line; nothing is assigned, and the cursor is still on
    the line. *)
Lemma switch_malformed pre k args post nest l :
  malformed (k, args) = true -> startsLater file line post ->
  let d := around pre (T k) (map T args ++ post) nest in
  exists err d',
    UnmarshalCaddyfile_switch {| recv := l; disp := d |}
    = Some (Some err, {| recv := l; disp := d' |})
    /\ namesOption err k
    /\ (if recognized k
        then exists cause, err = Errf d' (Errorf_field k cause)
        else err = Errf d (Errorf_unknown k) /\ d' = d)
    /\ tokens d' = tokens d /\ nesting d' = nesting d
    /\ (cursor d <= cursor d' <= cursor d + 1)%Z
    /\ File_ d' = file /\ Line_ d' = line.
Proof.
  intros Hmal Hpost d. subst d. unfold malformed in Hmal.
  unfold recognized.
  destruct (isIntOption k) eqn:Hint; cbn [orb].
  { apply andb_true_iff in Hmal as [Hplain Hbad].
    rewrite (switch_int _ k) by (try apply around_Val; assumption).
    unfold intOption. unfold bind at 1. rewrite onDispenser_eq.
    cbn [disp].
    assert (Hk : countNewlines k = 0%Z)
      by (apply recognized_word; unfold recognized; now rewrite Hint).
    destruct args as [|a [|b args]]; cbn [map app].
    - rewrite (asInt_none file line) by assumption. cbn [snd].
      unfold bind, get, ret. cbn [disp recv].
      do 2 eexists. split; [reflexivity|].
      split; [apply names_field|]. split; [eexists; reflexivity|].
      rewrite around_File, around_Line. cbn. repeat split; lia.
    - cbn [forallb] in Hplain. rewrite andb_true_r in Hplain.
      rewrite (asInt_one file line) by assumption.
      unfold intValue in Hbad.
      destruct (strconv.ParseInt a 10 64) as [i [e|]]; [|discriminate].
      cbn [snd]. unfold bind, get, ret. cbn [disp recv].
      do 2 eexists. split; [reflexivity|].
      split; [apply names_field|]. split; [eexists; reflexivity|].
      rewrite around_File, around_Line. cbn.
      rewrite <- !app_assoc, length_app. cbn. repeat split; lia.
    - cbn [forallb] in Hplain.
      apply andb_true_iff in Hplain as [Ha Hplain].
      apply andb_true_iff in Hplain as [Hb _].
      rewrite (asInt_many file line) by assumption.
      cbn [snd]. unfold bind, get, ret. cbn [disp recv].
      do 2 eexists. split; [reflexivity|].
      split; [apply names_field|]. split; [eexists; reflexivity|].
      rewrite around_File, around_Line. cbn.
      rewrite <- !app_assoc, length_app. cbn. repeat split; lia. }
  destruct (String.eqb k "minimize_stack_memory") eqn:Hm; cbn [orb].
  { apply String.eqb_eq in Hm. subst k.
    apply andb_true_iff in Hmal as [Hplain Hbad].
    destruct args as [|a args]; [discriminate|].
    cbn [forallb] in Hplain. apply andb_true_iff in Hplain as [Ha _].
    cbn [map app].
    unfold UnmarshalCaddyfile_switch. unfold bind at 1, get.
    cbn [disp]. rewrite around_Val. cbn [Text].
    change (String.eqb "minimize_stack_memory" "call_stack_size") with false.
    change (String.eqb "minimize_stack_memory" "registry_size") with false.
    change (String.eqb "minimize_stack_memory" "registry_max_size") with false.
    change (String.eqb "minimize_stack_memory" "registry_grow_step") with false.
    change (String.eqb "minimize_stack_memory" "minimize_stack_memory") with true.
    cbv iota. unfold bind at 1. rewrite onDispenser_eq. cbn [disp].
    destruct (CountRemainingArgs_restores
                (around pre (T "minimize_stack_memory")
                   (T a :: map T args ++ post) nest))
      as (n & -> & Hpos & Hn); [cbn; lia|].
    assert (n <> 0%Z).
    { intros H0. apply Hn in H0.
      rewrite (NextArg_arg file line) in H0 by assumption. discriminate. }
    replace (n >? 0)%Z with true
      by (symmetry; rewrite Z.gtb_ltb; apply Z.ltb_lt; lia).
    unfold bind, get, ret. cbn [disp recv].
    do 2 eexists. split; [reflexivity|].
    split; [apply names_field|]. split; [eexists; reflexivity|].
    rewrite around_File, around_Line. cbn. repeat split; lia. }
  destruct (String.eqb k "handler_path") eqn:Hh; cbn [orb].
  { apply String.eqb_eq in Hh. subst k.
    destruct args; [|discriminate]. cbn [map app].
    unfold UnmarshalCaddyfile_switch. unfold bind at 1, get.
    cbn [disp]. rewrite around_Val. cbn [Text].
    change (String.eqb "handler_path" "call_stack_size") with false.
    change (String.eqb "handler_path" "registry_size") with false.
    change (String.eqb "handler_path" "registry_max_size") with false.
    change (String.eqb "handler_path" "registry_grow_step") with false.
    change (String.eqb "handler_path" "minimize_stack_memory") with false.
    change (String.eqb "handler_path" "handler_path") with true.
    cbv iota. unfold bind at 1. rewrite onDispenser_eq. cbn [disp recv Args].
    unfold bind at 1.
    rewrite (NextArg_eol file line) by (try reflexivity; assumption).
    cbn [negb]. unfold bind, get, ret, assign, modify. cbn [snd fst hd recv disp negb].
    rewrite setHandlerPath_same.
    do 2 eexists. split; [reflexivity|].
    split; [apply names_field|]. split; [eexists; reflexivity|].
    rewrite around_File, around_Line. cbn. repeat split; lia. }
  rewrite switch_unknown;
    [|cbn [disp]; rewrite around_Val; cbn [Text]; unfold recognized;
      now rewrite Hint, Hm, Hh].
  cbn [disp]. rewrite around_Val. cbn [Text].
  do 2 eexists. split; [reflexivity|].
  split; [apply names_unknown|]. split; [split; reflexivity|].
  rewrite around_File, around_Line. cbn. repeat split; lia.
Qed.

End SwitchFacts.

(** * The loops on a written configuration *)

Section BlockFacts.

Lemma NextBlock_inner pre cur n post :
  String.eqb (Text n) "}" = false -> String.eqb (Text n) "{" = false ->
  NextBlock 0 (around pre cur (n :: post) 1)
  = Some (true, around (pre ++ [cur]) n post 1).
Proof.
  intros Hc Ho. unfold NextBlock. unfold bind at 1, get.
  cbn [nesting around]. change (1 >? 0)%Z with true. cbv iota.
  fold (around pre cur (n :: post) 1).
  unfold bind at 1. rewrite Next_around. cbn [negb].
  unfold bind at 1, get. rewrite around_Val, Hc.
  unfold bind at 1, ret at 1. unfold bind at 1.
  unfold bind at 1, get. rewrite around_Val, Ho.
  reflexivity.
Qed.

Lemma NextBlock_close pre cur n :
  Text n = "}" ->
  NextBlock 0 (around pre cur [n] 1)
  = Some (false, around (pre ++ [cur]) n [] 0).
Proof.
  intros Hc. unfold NextBlock. unfold bind at 1, get.
  cbn [nesting around]. change (1 >? 0)%Z with true. cbv iota.
  fold (around pre cur [n] 1).
  unfold bind at 1. rewrite Next_around. cbn [negb].
  unfold bind at 1, get. rewrite around_Val, Hc.
  change (String.eqb "}" "}") with true. cbv iota.
  unfold bind at 1. unfold bind at 1.
  rewrite nextOnSameLine_around_end.
  reflexivity.
Qed.

Lemma NextBlock_open pre cur b n post :
  isNextOnNewLine cur b = false -> Text b = "{" ->
  NextBlock 0 (around pre cur (b :: n :: post) 0)
  = Some (negb (String.eqb (Text n) "}"),
          around ((pre ++ [cur]) ++ [b]) n post
            (if String.eqb (Text n) "}" then 0 else 1)).
Proof.
  intros Hs Hb. unfold NextBlock. unfold bind at 1, get.
  cbn [nesting around]. change (0 >? 0)%Z with false. cbv iota.
  fold (around pre cur (b :: n :: post) 0).
  unfold bind at 1. rewrite nextOnSameLine_around, Hs. cbn [negb].
  unfold bind at 1, get. rewrite around_Val, Hb.
  change (String.eqb "{" "{") with true. cbn [negb].
  unfold bind at 1. rewrite Next_around.
  unfold bind at 1, get. rewrite around_Val.
  destruct (String.eqb (Text n) "}"); reflexivity.
Qed.

(** Entering the block leaves the parser where going round inside the
    block does: on the first keyword. *)
Lemma block_enter fuel l pre cur b n post :
  isNextOnNewLine cur b = false -> Text b = "{" ->
  String.eqb (Text n) "}" = false -> String.eqb (Text n) "{" = false ->
  UnmarshalCaddyfile_block (S fuel)
    {| recv := l; disp := around pre cur (b :: n :: post) 0 |}
  = UnmarshalCaddyfile_block (S fuel)
      {| recv := l; disp := around (pre ++ [cur]) b (n :: post) 1 |}.
Proof.
  intros Hs Hb Hc Ho. rewrite !block_S. cbn [disp recv].
  rewrite NextBlock_open, NextBlock_inner by assumption.
  now rewrite Hc.
Qed.

Lemma aroundLast_around xs : forall pre cur post nest,
  exists pre' cur',
    aroundLast pre cur xs post nest = around pre' cur' post nest
    /\ (pre' ++ [cur'] = pre ++ cur :: xs)%list.
Proof.
  induction xs as [|x xs IH]; intros pre cur post nest; cbn [aroundLast].
  - now exists pre, cur.
  - destruct (IH (pre ++ [cur])%list x post nest) as (pre' & cur' & E & H).
    exists pre', cur'. split; [assumption|].
    now rewrite H, <- app_assoc.
Qed.

Variable file : string.

Lemma startsLater_block line os tail :
  startsLater file (line + Z.of_nat (List.length os)) tail ->
  startsLater file line (blockTokens file (line + 1) os ++ tail).
Proof.
  destruct os as [|[k args] os]; cbn [blockTokens app List.length].
  - now rewrite Z.add_0_r.
  - intros _. cbn. split; [reflexivity|lia].
Qed.

(** The inner loop over well-formed lines: it assigns what they say, one
    after the other, and stands at the end of the last. *)
Lemma block_good : forall good,
  Forall (fun o => wellFormed o = true) good ->
  forall line pre cur tail l fuel,
    startsLater file (line + Z.of_nat (List.length good) - 1) tail ->
    exists pre' cur',
      (pre' ++ [cur'] = pre ++ cur :: blockTokens file line good)%list
      /\ UnmarshalCaddyfile_block (List.length good + fuel)
           {| recv := l;
              disp := around pre cur (blockTokens file line good ++ tail) 1 |}
         = UnmarshalCaddyfile_block fuel
             {| recv := assignedAll good l;
                disp := around pre' cur' tail 1 |}.
Proof.
  induction good as [|[k args] good IH]; intros Hwf line pre cur tail l fuel Htail.
  - exists pre, cur. split; reflexivity.
  - inversion Hwf as [|? ? Ho Hgood]; subst.
    cbn [blockTokens lineTokens fst snd List.length Nat.add app].
    rewrite <- !app_assoc. cbn [app].
    assert (Hk : recognized k = true).
    { unfold wellFormed in Ho. unfold recognized.
      destruct (isIntOption k); [reflexivity|].
      destruct (String.eqb k "minimize_stack_memory"); [reflexivity|].
      destruct (String.eqb k "handler_path"); [reflexivity|discriminate]. }
    apply recognized_word in Hk as (_ & Hopen & Hclose).
    assert (Hrest : startsLater file line
                      (blockTokens file (line + 1) good ++ tail)).
    { apply startsLater_block.
      replace (line + Z.of_nat (List.length good))%Z
        with (line + Z.of_nat (List.length ((k, args) :: good)) - 1)%Z
        by (cbn [List.length]; lia).
      assumption. }
    rewrite block_S. cbn [disp recv].
    rewrite NextBlock_inner by assumption.
    rewrite (switch_wellFormed file line) by assumption.
    destruct (aroundLast_around (map (mkToken file line) args)
                (pre ++ [cur])%list (mkToken file line k)
                (blockTokens file (line + 1) good ++ tail)%list 1)
      as (pre1 & cur1 & -> & H1).
    destruct (IH Hgood (line + 1)%Z pre1 cur1 tail (assigned (k, args) l) fuel)
      as (pre' & cur' & H' & ->).
    { replace (line + 1 + Z.of_nat (List.length good) - 1)%Z
        with (line + Z.of_nat (List.length ((k, args) :: good)) - 1)%Z
        by (cbn [List.length]; lia).
      assumption. }
    exists pre', cur'. split; [|reflexivity].
    rewrite H'.
    change (pre1 ++ cur1 :: blockTokens file (line + 1) good)%list
      with (pre1 ++ [cur1] ++ blockTokens file (line + 1) good)%list.
    rewrite app_assoc, H1, <- !app_assoc. reflexivity.
Qed.

End BlockFacts.

(** * [UnmarshalCaddyfile] on a written configuration *)

Section ConfigFacts.
Variable file : string.

Lemma blockTokens_app os1 : forall line os2,
  blockTokens file line (os1 ++ os2)
  = (blockTokens file line os1
     ++ blockTokens file (line + Z.of_nat (List.length os1)) os2)%list.
Proof.
  induction os1 as [|o os1 IH]; intros line os2; cbn [blockTokens app List.length].
  - now rewrite Z.add_0_r.
  - rewrite IH, <- !app_assoc. do 3 f_equal. lia.
Qed.

Lemma onKeyword_tokens line before o rest :
  tokens (onKeyword file line before o rest)
  = configTokens file line (before ++ o :: rest).
Proof.
  unfold onKeyword, configTokens, around. cbn [tokens app].
  rewrite blockTokens_app. cbn [blockTokens lineTokens app].
  rewrite <- !app_assoc. cbn [app]. rewrite <- !app_assoc.
  reflexivity.
Qed.

Lemma Next_new c post :
  Next (NewDispenser (c :: post)) = Some (true, around [] c post 0).
Proof.
  rewrite Next_eq. unfold len, NewDispenser. cbn [cursor tokens List.length].
  replace (_ <? _)%Z with true by (symmetry; apply Z.ltb_lt; lia).
  reflexivity.
Qed.

Lemma wellFormed_keyword k args :
  wellFormed (k, args) = true ->
  String.eqb k "}" = false /\ String.eqb k "{" = false.
Proof.
  intros Ho.
  assert (Hk : recognized k = true).
  { unfold wellFormed in Ho. unfold recognized.
    destruct (isIntOption k); [reflexivity|].
    destruct (String.eqb k "minimize_stack_memory"); [reflexivity|].
    destruct (String.eqb k "handler_path"); [reflexivity|discriminate]. }
  apply recognized_word in Hk. tauto.
Qed.

Lemma malformed_keyword k args :
  malformed (k, args) = true ->
  String.eqb k "}" = false /\ String.eqb k "{" = false.
Proof.
  intros Ho.
  destruct (recognized k) eqn:Hk; [apply recognized_word in Hk; tauto|].
  unfold malformed in Ho. unfold recognized in Hk.
  rewrite !orb_false_iff in Hk. destruct Hk as [[E1 E2] E3].
  rewrite E1, E2, E3 in Ho.
  apply andb_true_iff in Ho as [H1 H2].
  apply negb_true_iff in H1, H2. now split.
Qed.

(** The tokens of a block start with a keyword that is not a brace, when
    its first line is well formed or malformed. *)
Lemma blockTokens_head line os tail :
  os <> [] ->
  (forall o, hd_error os = Some o ->
             wellFormed o = true \/ malformed o = true) ->
  exists n post,
    (blockTokens file line os ++ tail)%list = n :: post
    /\ String.eqb (Text n) "}" = false /\ String.eqb (Text n) "{" = false.
Proof.
  destruct os as [|[k args] os]; [congruence|]. intros _ H.
  cbn [blockTokens lineTokens fst snd app]. do 2 eexists.
  split; [reflexivity|]. cbn [Text].
  destruct (H (k, args) eq_refl) as [Ho|Ho];
    [now apply wellFormed_keyword in Ho|now apply malformed_keyword in Ho].
Qed.

(** A configuration of well-formed lines: [UnmarshalCaddyfile] returns no
    error, has assigned what every line says, and has read all of it. *)
Lemma UnmarshalCaddyfile_wellFormed line os l :
  Forall (fun o => wellFormed o = true) os ->
  UnmarshalCaddyfile
    {| recv := l; disp := NewDispenser (configTokens file line os) |}
  = Some (None, {| recv := assignedAll os l; disp := atEnd file line os |}).
Proof.
  intros Hwf.
  assert (Hblock : exists pre cur,
    (pre ++ [cur])%list = configTokens file line os
    /\ UnmarshalCaddyfile_block (List.length os + 1)
         {| recv := l;
            disp := around [] (mkToken file line "lua")
                      (mkToken file line "{"
                         :: blockTokens file (line + 1) os
                         ++ [mkToken file
                               (line + 1 + Z.of_nat (List.length os)) "}"])
                      0 |}
       = Some (None, {| recv := assignedAll os l;
                        disp := around pre cur [] 0 |})).
  { destruct os as [|o os'] eqn:Hos.
    - cbn [List.length Nat.add blockTokens app]. rewrite block_S.
      cbn [disp recv]. rewrite NextBlock_open by (try apply sameLine; reflexivity).
      cbn [Text]. change (String.eqb "}" "}") with true. cbn [negb].
      do 2 eexists. split; [|reflexivity]. reflexivity.
    - rewrite <- Hos in *.
      destruct (blockTokens_head (line + 1) os
                  [mkToken file (line + 1 + Z.of_nat (List.length os)) "}"])
        as (n & post & Hhead & Hc & Ho).
      { subst os. discriminate. }
      { intros o0 Ho0. left. subst os. cbn in Ho0. injection Ho0 as <-.
        now inversion Hwf. }
      rewrite Hhead. rewrite Nat.add_1_r.
      rewrite block_enter by (try apply sameLine; auto).
      rewrite <- Hhead. rewrite <- Nat.add_1_r. cbn [app].
      destruct (block_good file os Hwf (line + 1)%Z [mkToken file line "lua"]
                  (mkToken file line "{")
                  [mkToken file (line + 1 + Z.of_nat (List.length os)) "}"]
                  l 1%nat) as (pre' & cur' & Hpre & ->).
      { cbn. split; [reflexivity|lia]. }
      rewrite block_S. cbn [disp recv].
      rewrite NextBlock_close by reflexivity.
      do 2 eexists. split; [|reflexivity].
      rewrite Hpre. unfold configTokens. now rewrite <- app_assoc. }
  destruct Hblock as (pre & cur & Hpre & Hblock).
  apply loop_enough with (n := 2%nat).
  rewrite loop_S. cbn [disp recv]. unfold configTokens at 1.
  rewrite Next_new.
  apply block_enough in Hblock. cbn [disp] in Hblock. rewrite Hblock.
  rewrite loop_S. cbn [disp recv]. rewrite Next_around_end.
  unfold atEnd, around. rewrite <- Hpre, length_app. cbn [List.length].
  do 4 f_equal. lia.
Qed.

(** A configuration whose first line that is not well formed is a
    malformed one: [UnmarshalCaddyfile] returns an error that names the
    keyword of that line, standing on that line, with what the lines
    before it say assigned. *)
Lemma UnmarshalCaddyfile_malformed line good bad rest l :
  Forall (fun o => wellFormed o = true) good ->
  malformed bad = true ->
  let d := onKeyword file line good bad rest in
  exists err d',
    UnmarshalCaddyfile
      {| recv := l;
         disp := NewDispenser (configTokens file line (good ++ bad :: rest)) |}
    = Some (Some err, {| recv := assignedAll good l; disp := d' |})
    /\ namesOption err (fst bad)
    /\ (if recognized (fst bad)
        then exists cause, err = Errf d' (Errorf_field (fst bad) cause)
        else err = Errf d (Errorf_unknown (fst bad)) /\ d' = d)
    /\ tokens d' = tokens d /\ nesting d' = nesting d
    /\ (cursor d <= cursor d' <= cursor d + 1)%Z
    /\ File_ d' = file
    /\ Line_ d' = (line + 1 + Z.of_nat (List.length good))%Z.
Proof.
  intros Hwf Hbad d. destruct bad as [kb args]. cbn [fst].
  set (here := (line + 1 + Z.of_nat (List.length good))%Z).
  set (close := mkToken file
         (line + 1 + Z.of_nat (List.length (good ++ (kb, args) :: rest))) "}").
  set (after := (map (mkToken file here) args
                   ++ blockTokens file (here + 1) rest ++ [close])%list).
  assert (Hafter : startsLater file here
                     (blockTokens file (here + 1) rest ++ [close])).
  { apply startsLater_block. subst close here. cbn. split; [reflexivity|].
    rewrite length_app. cbn [List.length]. lia. }
  destruct (switch_malformed file here
              (mkToken file line "lua" :: mkToken file line "{"
                 :: blockTokens file (line + 1) good)
              kb args (blockTokens file (here + 1) rest ++ [close])%list
              1 (assignedAll good l) Hbad Hafter)
    as (err & d' & Hswitch & Hrest).
  fold after in Hswitch, Hrest.
  exists err, d'. split; [|exact Hrest].
  apply loop_enough with (n := 1%nat).
  rewrite loop_S. cbn [disp recv]. unfold configTokens.
  rewrite Next_new.
  rewrite blockTokens_app. fold here.
  cbn [blockTokens]. unfold lineTokens. cbn [fst snd].
  rewrite <- ?app_assoc. cbn [app]. rewrite <- ?app_assoc.
  assert (Hblock :
    UnmarshalCaddyfile_block (List.length good + 1)
      {| recv := l;
         disp := around [] (mkToken file line "lua")
                   (mkToken file line "{"
                      :: blockTokens file (line + 1) good
                      ++ mkToken file here kb :: after) 0 |}
    = Some (Some err, {| recv := assignedAll good l; disp := d' |})).
  { destruct (malformed_keyword _ _ Hbad) as [Hkc Hko].
    assert (Hhead : exists n post,
      (blockTokens file (line + 1) good ++ mkToken file here kb :: after)%list
      = n :: post
      /\ String.eqb (Text n) "}" = false /\ String.eqb (Text n) "{" = false).
    { destruct good as [|[k a] good'].
      - do 2 eexists. split; [reflexivity|]. now split.
      - cbn [blockTokens lineTokens fst snd app]. do 2 eexists.
        split; [reflexivity|]. cbn [Text].
        apply (wellFormed_keyword k a). now inversion Hwf. }
    destruct Hhead as (n & post & Hhead & Hc & Ho).
    rewrite Hhead, Nat.add_1_r.
    rewrite block_enter by (try apply sameLine; auto).
    rewrite <- Hhead, <- Nat.add_1_r. cbn [app].
    destruct (block_good file good Hwf (line + 1)%Z [mkToken file line "lua"]
                (mkToken file line "{") (mkToken file here kb :: after)
                l 1%nat) as (pre' & cur' & Hpre & ->).
    { cbn. split; [reflexivity|]. subst here. lia. }
    rewrite block_S. cbn [disp recv].
    rewrite NextBlock_inner by assumption.
    rewrite Hpre. cbn [app]. now rewrite Hswitch. }
  apply block_enough in Hblock. cbn [disp] in Hblock.
  subst after close. now rewrite Hblock.
Qed.

End ConfigFacts.

(** * What the parser never does *)

Section Invariants.

(** Whatever the tokens, [UnmarshalCaddyfile] leaves the
    [MinimizeStackMemory] flag as it found it. *)
Lemma UnmarshalCaddyfile_keeps_flag s r s' :
  UnmarshalCaddyfile s = Some (r, s') ->
  MinimizeStackMemory (recv s') = MinimizeStackMemory (recv s).
Proof.
  intros H.
  destruct (UnmarshalCaddyfile_total s) as (r0 & s0 & E & _ & Hq).
  rewrite H in E. injection E as <- <-.
  apply (Hq (fun l => MinimizeStackMemory l = MinimizeStackMemory (recv s)));
    [|reflexivity].
  repeat split; intros; assumption.
Qed.

(** Without a token [handler_path], [HandlerPath] is left as it was. *)
Lemma UnmarshalCaddyfile_keeps_path s r s' :
  (forall t, In t (tokens (disp s)) -> Text t <> "handler_path") ->
  UnmarshalCaddyfile s = Some (r, s') ->
  HandlerPath (recv s') = HandlerPath (recv s).
Proof.
  intros Hno H.
  destruct (UnmarshalCaddyfile_total s) as (r0 & s0 & E & _ & Hq).
  rewrite H in E. injection E as <- <-.
  apply (Hq (fun l => HandlerPath l = HandlerPath (recv s)));
    [|reflexivity].
  repeat split; try (intros; assumption).
  intros (t & Hin & Ht). now apply Hno in Hin.
Qed.

Lemma assignedAll_keeps_flag os : forall l,
  MinimizeStackMemory (assignedAll os l) = MinimizeStackMemory l.
Proof.
  unfold assignedAll.
  induction os as [|[k args] os IH]; intros l; cbn [fold_left];
    [reflexivity|].
  rewrite IH. unfold assigned.
  repeat match goal with
         | |- context [if ?b then _ else _] => destruct b
         end; reflexivity.
Qed.

End Invariants.

(** * Validation *)

(** C4.  [Validate] returns an error exactly when [HandlerPath] is empty; a
    configuration without a [handler_path] token parses to a handler value
    that fails validation; a non-empty [HandlerPath] passes. *)
Theorem Validate_iff_no_path :
  (forall l, Validate l <> None <-> HandlerPath l = "")
  /\ (forall l, HandlerPath l = "" ->
        Validate l
        = Some (errorString "the handler_path configuration option is required"))
  /\ (forall toks,
        (forall t, In t toks -> Text t <> "handler_path") ->
        exists l err d',
          parseCaddyfile (NewDispenser toks) = Some ((l, err), d')
          /\ Validate l <> None)
  /\ (forall l, HandlerPath l <> "" -> Validate l = None).
Proof.
  assert (Hiff : forall l, Validate l <> None <-> HandlerPath l = "").
  { intros l. unfold Validate.
    destruct (String.eqb_spec (HandlerPath l) ""); split; congruence. }
  repeat split; try apply Hiff.
  - intros l Hl. unfold Validate. now rewrite Hl.
  - intros toks Hno.
    destruct (parseCaddyfile_total (NewDispenser toks)) as (l & err & d' & E & _).
    exists l, err, d'. split; [assumption|].
    apply Hiff. unfold parseCaddyfile in E.
    destruct (UnmarshalCaddyfile _) as [[r s']|] eqn:U; [|discriminate].
    injection E as <- <- <-.
    now apply UnmarshalCaddyfile_keeps_path in U.
  - intros l Hl. destruct (Validate l) eqn:V; [|reflexivity].
    exfalso. apply Hl, Hiff. congruence.
Qed.

Lemma Validate_iff_no_path_witness :
  (forall t, In t [tk 1 "lua"; tk 1 "{"; tk 2 "call_stack_size"; tk 2 "10";
                   tk 3 "}"] -> Text t <> "handler_path")
  /\ (exists l err d',
        parseCaddyfile
          (NewDispenser [tk 1 "lua"; tk 1 "{"; tk 2 "call_stack_size";
                         tk 2 "10"; tk 3 "}"])
        = Some ((l, err), d')
        /\ Validate l <> None)
  /\ Validate (setHandlerPath "/srv/handler.lua" zeroLua) = None.
Proof.
  assert (Hno : forall t,
    In t [tk 1 "lua"; tk 1 "{"; tk 2 "call_stack_size"; tk 2 "10"; tk 3 "}"] ->
    Text t <> "handler_path").
  { intros t [<-|[<-|[<-|[<-|[<-|[]]]]]]; discriminate. }
  split; [exact Hno|]. split.
  - exact (proj1 (proj2 (proj2 Validate_iff_no_path)) _ Hno).
  - apply (proj2 (proj2 (proj2 Validate_iff_no_path))). discriminate.
Defined.


(** * Integers as [asInt] reads them *)

Section IntegerFacts.

Lemma digit_decimal c d :
  strconv.digit (byte_of c) = Some d -> (d >=? to_uint8 10)%Z = false ->
  isDigit c = true.
Proof.
  unfold strconv.digit, isDigit.
  destruct ((48 <=? byte_of c) && (byte_of c <=? 57))%Z; [reflexivity|].
  destruct ((97 <=? strconv.lower (byte_of c))
            && (strconv.lower (byte_of c) <=? 122))%Z eqn:E; [|discriminate].
  intros [= <-] H. exfalso.
  apply andb_true_iff in E as [E1 E2]. zbool.
  unfold to_uint8 in H. rewrite !Z.mod_small in H by lia. lia.
Qed.

Lemma ParseUint_loop_digits cutoff maxVal s0 s : forall n v,
  strconv.ParseUint_loop 10 cutoff maxVal s0 s n = (v, None) ->
  allDigits s = true.
Proof.
  induction s as [|c s IH]; intros n v H; [reflexivity|].
  cbn [strconv.ParseUint_loop allDigits] in *.
  destruct (strconv.digit (byte_of c)) as [d|] eqn:Ed; [|discriminate].
  destruct (d >=? to_uint8 10)%Z eqn:Eb; [discriminate|].
  rewrite (digit_decimal _ _ Ed Eb). cbn [andb].
  destruct (n >=? cutoff)%Z; [discriminate|].
  destruct (_ || _)%bool; [discriminate|].
  eapply IH; eassumption.
Qed.

Lemma ParseUint_loop_range cutoff maxVal s0 s : forall n v e,
  strconv.ParseUint_loop 10 cutoff maxVal s0 s n = (v, Some e) ->
  strconv.isErrRange e = true -> v = maxVal.
Proof.
  induction s as [|c s IH]; intros n v e H Hr; [discriminate|].
  cbn [strconv.ParseUint_loop] in H.
  destruct (strconv.digit (byte_of c)) as [d|];
    [|injection H as <- <-; discriminate].
  destruct (d >=? to_uint8 10)%Z; [injection H as <- <-; discriminate|].
  destruct (n >=? cutoff)%Z; [now injection H|].
  destruct (_ || _)%bool; [now injection H|].
  eapply IH; eassumption.
Qed.

(** What [ParseInt(s, 10, 64)] accepts is written as a base-10 integer. *)
Lemma ParseInt_decimal s v :
  strconv.ParseInt s 10 64 = (v, None) -> decimal s = true.
Proof.
  destruct s as [|c0 rest]; [discriminate|].
  unfold strconv.ParseInt, decimal.
  assert (Huint : forall t neg w,
    (let '(un, err) := strconv.ParseUint t 10 64 in
     if match err with
        | Some e => negb (strconv.isErrRange e)
        | None => false
        end
     then (0%Z, option_map
                  (fun e => strconv.setFuncNum e strconv.fnParseInt
                              (String c0 rest)) err)
     else
       let cutoff := to_uint64 (Z.shiftl 1 (64 - 1)) in
       if negb neg && (un >=? cutoff)%Z
       then (to_int64 (cutoff - 1),
             Some (strconv.rangeError strconv.fnParseInt (String c0 rest)))
       else if neg && (un >? cutoff)%Z
       then (to_int64 (- to_int64 cutoff),
             Some (strconv.rangeError strconv.fnParseInt (String c0 rest)))
       else (if neg then to_int64 (- to_int64 un) else to_int64 un, None))
    = (w, None) ->
    unsignedDecimal t = true).
  { intros t neg w. unfold strconv.ParseUint.
    destruct t as [|c t]; [discriminate|].
    change (String.eqb (String c t) "") with false. cbv iota.
    set (maxVal := to_uint64 (Z.shiftl 1 64 - 1)).
    destruct (strconv.ParseUint_loop _ _ _ _ _ _) as [un [e|]] eqn:L.
    - destruct (strconv.isErrRange e) eqn:R; cbn [negb]; [|discriminate].
      apply ParseUint_loop_range in L; [|assumption]. subst un.
      destruct neg; cbn [negb andb]; discriminate.
    - intros _. cbn [unsignedDecimal].
      eapply ParseUint_loop_digits; eassumption. }
  destruct (Ascii.eqb c0 "+") eqn:Eplus; cbn [orb].
  { apply (Huint rest false). }
  destruct (Ascii.eqb c0 "-") eqn:Eminus.
  { apply (Huint rest true). }
  intros H. apply (Huint (String c0 rest) false v H).
Qed.

(** An argument that is not written as a base-10 integer is not one that
    [asInt] accepts. *)
Lemma intValue_decimal a : decimal a = false -> intValue a = None.
Proof.
  intros Hd. unfold intValue.
  destruct (strconv.ParseInt a 10 64) as [v [e|]] eqn:E; [reflexivity|].
  apply ParseInt_decimal in E. congruence.
Qed.

Lemma to_int64_small z :
  (- 2 ^ 63 <= z < 2 ^ 63)%Z -> to_int64 z = z.
Proof.
  intros H. unfold to_int64, to_signed.
  change (64 - 1)%Z with 63%Z.
  rewrite Z.mod_small; lia.
Qed.

Lemma digitsValue_ge s : forall n,
  allDigits s = true -> (0 <= n)%Z -> (n <= digitsValue s n)%Z.
Proof.
  induction s as [|c s IH]; intros n Hd Hn; cbn [digitsValue]; [lia|].
  cbn [allDigits] in Hd. apply andb_true_iff in Hd as [Hc Hd].
  unfold isDigit in Hc. apply andb_true_iff in Hc as [H1 H2]. zbool.
  specialize (IH (10 * n + (byte_of c - 48))%Z Hd). lia.
Qed.

Lemma digit_of_decimal c :
  isDigit c = true ->
  strconv.digit (byte_of c) = Some (byte_of c - 48)%Z
  /\ (0 <= byte_of c - 48 <= 9)%Z.
Proof.
  unfold isDigit, strconv.digit. intros H. rewrite H.
  apply andb_true_iff in H as [H1 H2]. zbool.
  unfold to_uint8. rewrite Z.mod_small by lia. split; [reflexivity|lia].
Qed.

Lemma ParseUint_loop_value s0 s : forall n,
  (0 <= n)%Z -> allDigits s = true ->
  (digitsValue s n <= 2 ^ 64 - 1)%Z ->
  strconv.ParseUint_loop 10 (strconv.maxUint64 / 10 + 1)
    (to_uint64 (Z.shiftl 1 64 - 1)) s0 s n
  = (digitsValue s n, None).
Proof.
  induction s as [|c s IH]; intros n Hn Hd Hv; [reflexivity|].
  cbn [strconv.ParseUint_loop digitsValue allDigits] in *.
  apply andb_true_iff in Hd as [Hc Hd].
  destruct (digit_of_decimal c Hc) as [-> Hrange].
  pose proof (digitsValue_ge s (10 * n + (byte_of c - 48))%Z Hd) as Hge.
  change (to_uint8 10) with 10%Z.
  change (strconv.maxUint64 / 10 + 1)%Z with 1844674407370955162%Z.
  change (to_uint64 (Z.shiftl 1 64 - 1)) with 18446744073709551615%Z in *.
  change (2 ^ 64 - 1)%Z with 18446744073709551615%Z in *.
  replace (byte_of c - 48 >=? 10)%Z with false
    by (symmetry; rewrite Z.geb_leb; apply Z.leb_gt; lia).
  replace (n >=? 1844674407370955162)%Z with false
    by (symmetry; rewrite Z.geb_leb; apply Z.leb_gt; lia).
  unfold to_uint64. change (2 ^ 64)%Z with 18446744073709551616%Z.
  rewrite (Z.mod_small (n * 10)) by lia.
  rewrite (Z.mod_small (n * 10 + _)) by lia.
  replace (n * 10 + (byte_of c - 48) <? n * 10)%Z with false
    by (symmetry; apply Z.ltb_ge; lia).
  replace (n * 10 + (byte_of c - 48) >? 18446744073709551615)%Z with false
    by (symmetry; rewrite Z.gtb_ltb; apply Z.ltb_ge; lia).
  cbn [orb]. replace (n * 10)%Z with (10 * n)%Z by lia.
  apply IH; [lia|assumption|assumption].
Qed.

Lemma ParseUint_value s :
  unsignedDecimal s = true -> (digitsValue s 0 <= 2 ^ 64 - 1)%Z ->
  strconv.ParseUint s 10 64 = (digitsValue s 0, None).
Proof.
  intros Hd Hv. unfold strconv.ParseUint.
  destruct s as [|c s]; [discriminate|].
  change (String.eqb (String c s) "") with false. cbv iota.
  apply ParseUint_loop_value; [lia|exact Hd|exact Hv].
Qed.

(** [ParseInt(s, 10, 64)] on a base-10 integer as written, within the range
    of [int64], is the integer it stands for. *)
Lemma ParseInt_value s :
  decimal s = true -> (- 2 ^ 63 <= decimalValue s < 2 ^ 63)%Z ->
  strconv.ParseInt s 10 64 = (decimalValue s, None).
Proof.
  destruct s as [|c0 rest]; [discriminate|].
  unfold decimal, decimalValue, strconv.ParseInt.
  assert (Hcut : to_uint64 (Z.shiftl 1 (64 - 1)) = (2 ^ 63)%Z) by reflexivity.
  destruct (Ascii.eqb c0 "+") eqn:Eplus; cbn [orb].
  { intros Hd Hv.
    assert (Hpos : (0 <= digitsValue rest 0)%Z).
    { apply digitsValue_ge; [|lia]. now destruct rest. }
    rewrite ParseUint_value by (try assumption; lia).
    cbv iota beta. rewrite Hcut. cbn [negb andb].
    replace (digitsValue rest 0 >=? 2 ^ 63)%Z with false
      by (symmetry; rewrite Z.geb_leb; apply Z.leb_gt; lia).
    now rewrite to_int64_small by lia. }
  destruct (Ascii.eqb c0 "-") eqn:Eminus.
  { intros Hd Hv.
    assert (Hpos : (0 <= digitsValue rest 0)%Z).
    { apply digitsValue_ge; [|lia]. now destruct rest. }
    rewrite ParseUint_value by (try assumption; lia).
    cbv iota beta. rewrite Hcut. cbn [negb andb].
    replace (digitsValue rest 0 >? 2 ^ 63)%Z with false
      by (symmetry; rewrite Z.gtb_ltb; apply Z.ltb_ge; lia).
    f_equal.
    destruct (Z.eq_dec (digitsValue rest 0) (2 ^ 63)) as [E|E].
    - rewrite E. reflexivity.
    - rewrite (to_int64_small (digitsValue rest 0)) by lia.
      now rewrite to_int64_small by lia. }
  intros Hd Hv.
  assert (Hpos : (0 <= digitsValue (String c0 rest) 0)%Z)
    by (apply digitsValue_ge; [exact Hd|lia]).
  rewrite ParseUint_value by (try assumption; lia).
  cbv iota beta. rewrite Hcut. cbn [negb andb].
  replace (digitsValue (String c0 rest) 0 >=? 2 ^ 63)%Z with false
    by (symmetry; rewrite Z.geb_leb; apply Z.leb_gt; lia).
  now rewrite to_int64_small by lia.
Qed.

(** The integer [asInt] hands to the [switch] is the integer written. *)
Lemma intValue_value s :
  decimal s = true -> (- 2 ^ 63 <= decimalValue s < 2 ^ 63)%Z ->
  intValue s = Some (decimalValue s).
Proof.
  intros Hd Hv. unfold intValue. rewrite ParseInt_value by assumption.
  exact (f_equal Some (to_int64_small _ Hv)).
Qed.

End IntegerFacts.


(** * Parsing a configuration *)

(** A failing [case] of the [switch] assigns nothing. *)
Lemma switch_error_assigns_nothing s e s' :
  UnmarshalCaddyfile_switch s = Some (Some e, s') -> recv s' = recv s.
Proof.
  unfold UnmarshalCaddyfile_switch. unfold bind at 1, get.
  assert (Hint : forall field set,
    intOption field set s = Some (Some e, s') -> recv s' = recv s).
  { intros field set. unfold intOption. unfold bind at 1.
    rewrite onDispenser_eq.
    destruct (asInt (disp s)) as [[[i [err|]] d1]|]; cbn [snd fst];
      unfold bind, get, ret, assign, modify; [|discriminate..].
    now intros [= <- <-]. }
  destruct (String.eqb _ "call_stack_size"); [apply Hint|].
  destruct (String.eqb _ "registry_size"); [apply Hint|].
  destruct (String.eqb _ "registry_max_size"); [apply Hint|].
  destruct (String.eqb _ "registry_grow_step"); [apply Hint|].
  clear Hint.
  destruct (String.eqb _ "minimize_stack_memory").
  { unfold bind at 1. rewrite onDispenser_eq.
    destruct (CountRemainingArgs (disp s)) as [[n d1]|]; [|discriminate].
    destruct (n >? 0)%Z; unfold bind, get, ret; [|discriminate].
    now intros [= <- <-]. }
  destruct (String.eqb _ "handler_path").
  { unfold bind at 1. rewrite onDispenser_eq. cbn [Args].
    unfold bind at 1.
    destruct (NextArg (disp s)) as [[[|] d1]|]; [| |discriminate]; cbn [negb].
    - unfold bind, get, ret, assign, modify. cbn [fst snd negb]. discriminate.
    - unfold bind, get, ret, assign, modify. cbn [fst snd negb hd recv].
      intros [= <- <-]. cbn [recv]. apply setHandlerPath_same. }
  unfold ret. now intros [= <- <-].
Qed.

Lemma assigned_spec k args l l' :
  sameButFlag l l' -> sameButFlag (assigned (k, args) l) (spec_assigned (k, args) l').
Proof.
  intros (H1 & H2 & H3 & H4 & H5). unfold spec_assigned. cbn [fst].
  destruct (String.eqb_spec k "minimize_stack_memory") as [->|_].
  - now repeat split.
  - unfold assigned, sameButFlag;
      repeat match goal with
             | |- context [if ?b then _ else _] => destruct b
             end; cbn; now repeat split.
Qed.

(** Away from [MinimizeStackMemory], the handler value is what the
    specification says of the lines. *)
Lemma assignedAll_spec os : forall l l',
  sameButFlag l l' ->
  sameButFlag (assignedAll os l) (spec_assignedAll os l').
Proof.
  unfold assignedAll, spec_assignedAll.
  induction os as [|[k args] os IH]; intros l l' H; cbn [fold_left];
    [assumption|].
  apply IH. now apply assigned_spec.
Qed.

(** A configuration of well-formed lines parses without error into the
    handler value that its lines describe, but for the flag, which stays
    unset. *)
Lemma parseCaddyfile_wellFormed file line os :
  Forall (fun o => wellFormed o = true) os ->
  parseCaddyfile (NewDispenser (configTokens file line os))
  = Some ((assignedAll os zeroLua, None), atEnd file line os)
  /\ MinimizeStackMemory (assignedAll os zeroLua) = false.
Proof.
  intros Hwf. split; [|apply assignedAll_keeps_flag].
  unfold parseCaddyfile.
  now rewrite (UnmarshalCaddyfile_wellFormed file line os zeroLua Hwf).
Qed.

(** C2, where the code departs from it.  The configuration
<<
    lua {
        minimize_stack_memory
        handler_path /srv/handler.lua
    }
>>
    is valid and parses without error; the path is set, the flag is not,
    where the specification has it set. *)
Theorem parseCaddyfile_minimize_stack_memory_unset :
  Forall (fun o => wellFormed o = true) Written.flagged
  /\ (exists l d',
        Written.parse Written.flagged = Some ((l, None), d')
        /\ HandlerPath l = "/srv/handler.lua"
        /\ MinimizeStackMemory l = false)
  /\ MinimizeStackMemory (spec_assignedAll Written.flagged zeroLua) = true.
Proof.
  split; [repeat constructor|]. split.
  - do 2 eexists. split; [vm_compute; reflexivity|]. split; reflexivity.
  - reflexivity.
Qed.

(** C5, as stated, fails: [bogus] is an option keyword outside the six, and
    the error names [call_stack_size], the option before it. *)
Lemma unknown_option_after_bad_integer_not_named :
  In ("bogus", []) Written.integerFirst
  /\ recognized "bogus" = false
  /\ exists l err d',
       Written.parse Written.integerFirst = Some ((l, Some err), d')
       /\ namesOption err "call_stack_size"
       /\ forall Quote, ~ names Quote err "bogus".
Proof.
  split; [right; left; reflexivity|]. split; [reflexivity|].
  do 3 eexists. split; [vm_compute; reflexivity|]. split.
  - intros Quote. eexists. cbn. reflexivity.
  - intros Quote [rest H]. cbn in H. discriminate.
Qed.

(** C5, as the code has it.  For every token sequence, when the parser comes
    to a keyword outside the six, every option before it having been
    accepted, [UnmarshalCaddyfile] returns the error
    [<keyword>: unknown configuration option]; the cursor is still on the
    keyword and no later token has been read.  So it is for a written block
    whose first line that is not well formed starts with such a keyword. *)
Theorem UnmarshalCaddyfile_unknown_option :
  (forall s0 s d1,
      comesTo s0 s ->
      NextBlock 0 (disp s) = Some (true, d1) ->
      recognized (Val d1) = false ->
      UnmarshalCaddyfile s0
      = Some (Some (Errf d1 (Errorf_unknown (Val d1))),
              {| recv := recv s; disp := d1 |})
      /\ namesOption (Errf d1 (Errorf_unknown (Val d1))) (Val d1))
  /\ forall file line good k args rest l,
      Forall (fun o => wellFormed o = true) good ->
      recognized k = false -> k <> "{" -> k <> "}" ->
      let d := onKeyword file line good (k, args) rest in
      let err := Errf d (Errorf_unknown k) in
      UnmarshalCaddyfile
        {| recv := l;
           disp := NewDispenser
                     (configTokens file line (good ++ (k, args) :: rest)) |}
      = Some (Some err, {| recv := assignedAll good l; disp := d |})
      /\ namesOption err k
      /\ (forall Quote,
            Error Quote err
            = k ++ ": unknown configuration option, at " ++ file ++ ":"
                ++ itoa (line + 1 + Z.of_nat (List.length good)))
      /\ Val d = k
      /\ cursor d
         = Z.of_nat (2 + List.length (blockTokens file (line + 1) good)).
Proof.
  split.
  { intros s0 s d1 Hs Hnext Hk. split; [|apply names_unknown].
    apply (comesTo_rejects s0 s d1); [assumption|]. split; [assumption|].
    now rewrite switch_unknown by exact Hk. }
  intros file line good k args rest l Hwf Hk Ho Hc d err.
  assert (Hbad : malformed (k, args) = true).
  { unfold malformed. unfold recognized in Hk.
    rewrite !orb_false_iff in Hk. destruct Hk as [[E1 E2] E3].
    rewrite E1, E2, E3.
    apply andb_true_iff. split; apply negb_true_iff, String.eqb_neq; assumption. }
  destruct (UnmarshalCaddyfile_malformed file line good (k, args) rest l Hwf Hbad)
    as (err' & d' & HU & _ & Hform & _).
  cbn [fst] in Hform. rewrite Hk in Hform. destruct Hform as [-> ->].
  split; [exact HU|]. split; [apply names_unknown|].
  split; [|split].
  - intros Quote. subst err d. unfold Errf, WrapErr, Errorf_unknown.
    cbn [Error]. unfold onKeyword. rewrite around_File, around_Line.
    cbn [File Line append]. now rewrite !append_assoc.
  - subst d. unfold onKeyword. now rewrite around_Val.
  - reflexivity.
Qed.

Lemma UnmarshalCaddyfile_unknown_option_witness :
  (comesTo (Written.start [Written.bogus]) (Written.entered [Written.bogus])
   /\ NextBlock 0 (disp (Written.entered [Written.bogus]))
      = Some (true, Written.firstKeyword [Written.bogus])
   /\ recognized (Val (Written.firstKeyword [Written.bogus])) = false
   /\ UnmarshalCaddyfile (Written.start [Written.bogus])
      = Some (Some (Errf (Written.firstKeyword [Written.bogus])
                      (Errorf_unknown "bogus")),
              {| recv := zeroLua;
                 disp := Written.firstKeyword [Written.bogus] |}))
  /\ Forall (fun o => wellFormed o = true) Written.accepted
  /\ recognized "bogus" = false
  /\ exists d',
       Written.parse (Written.accepted ++ Written.bogus :: Written.more)
       = Some ((assignedAll Written.accepted zeroLua,
                Some (Errf d' (Errorf_unknown "bogus"))), d')
       /\ Error (fun q => q) (Errf d' (Errorf_unknown "bogus"))
          = "bogus: unknown configuration option, at Caddyfile:4"
       /\ cursor d' = 6%Z.
Proof.
  assert (Hwf : Forall (fun o => wellFormed o = true) Written.accepted)
    by (repeat constructor).
  assert (Hs : comesTo (Written.start [Written.bogus])
                 (Written.entered [Written.bogus]))
    by (apply (comesTo_first (Written.start [Written.bogus])); reflexivity).
  split.
  { split; [exact Hs|]. do 2 (split; [reflexivity|]).
    exact (proj1 (proj1 UnmarshalCaddyfile_unknown_option
                    (Written.start [Written.bogus])
                    (Written.entered [Written.bogus])
                    (Written.firstKeyword [Written.bogus])
                    Hs eq_refl eq_refl)). }
  split; [exact Hwf|]. split; [reflexivity|].
  destruct (proj2 UnmarshalCaddyfile_unknown_option "Caddyfile" 1%Z
              Written.accepted "bogus" ["x"] Written.more zeroLua Hwf eq_refl)
    as (HU & _ & HE & _ & HC); [discriminate..|].
  eexists. split; [|split; [apply HE|exact HC]].
  unfold Written.parse, parseCaddyfile.
  unfold Written.bogus. rewrite HU. reflexivity.
Defined.

(** C8, as stated, fails: the value of [call_stack_size] is no integer, and
    the error names [bogus], the option before it. *)
Lemma bad_integer_after_unknown_option_not_named :
  In ("call_stack_size", ["abc"]) Written.bogusFirst
  /\ decimal "abc" = false
  /\ exists l err d',
       Written.parse Written.bogusFirst = Some ((l, Some err), d')
       /\ namesOption err "bogus"
       /\ forall Quote, ~ names Quote err "call_stack_size".
Proof.
  split; [right; left; reflexivity|]. split; [reflexivity|].
  do 3 eexists. split; [vm_compute; reflexivity|]. split.
  - intros Quote. eexists. cbn. reflexivity.
  - intros Quote [rest H]. cbn in H. discriminate.
Qed.

(** In each of the three cases [asInt] returns an error. *)
Lemma asInt_refuses d :
  valueMissing d \/ valueNotAlone d \/ valueNotInteger d ->
  exists cause d', asInt d = Some ((0%Z, Some cause), d').
Proof.
  unfold asInt, AllArgs. cbn [Args]. unfold bind.
  intros [(d1 & H1)|[(d1 & d2 & H1 & H2)|(d1 & d2 & H1 & H2 & Hv)]];
    rewrite H1; cbn [negb]; unfold get, ret; cbn [fst snd negb hd].
  - now do 2 eexists.
  - rewrite H2. cbn [fst snd negb hd].
    destruct (Prev_total d2) as (b & d3 & -> & _).
    now do 2 eexists.
  - rewrite H2. cbn [fst snd negb hd]. unfold intValue in Hv.
    destruct (strconv.ParseInt (Val d1) 10 64) as [i [e|]]; [|discriminate].
    now do 2 eexists.
Qed.

(** When the [switch] is on one of the four integer options and [asInt]
    refuses its value, it returns an error that wraps the cause and names
    the option; nothing is assigned. *)
Lemma switch_bad_integer s :
  isIntOption (Val (disp s)) = true ->
  valueMissing (disp s) \/ valueNotAlone (disp s) \/ valueNotInteger (disp s) ->
  exists cause d',
    UnmarshalCaddyfile_switch s
    = Some (Some (Errf d' (Errorf_field (Val (disp s)) cause)),
            {| recv := recv s; disp := d' |}).
Proof.
  intros Hk Hv.
  rewrite (switch_int _ (Val (disp s))) by (try reflexivity; exact Hk).
  unfold intOption. unfold bind at 1. rewrite onDispenser_eq.
  destruct (asInt_refuses (disp s) Hv) as (cause & d' & ->). cbn [snd].
  unfold bind, get, ret. cbn [disp recv]. now exists cause, d'.
Qed.

(** C8, as the code has it.  For every token sequence, when the parser comes
    to one of the four integer options, every option before it having been
    accepted, and the value of the option is missing, is more than one
    argument, or is refused by [ParseInt], [UnmarshalCaddyfile] returns an
    error that names the option.  So it is for a written block whose first
    line that is not well formed is such an option (an argument that is not
    written as a base-10 integer is refused): the error wraps the cause, is
    placed on that line, and its message starts with the name of the
    option. *)
Theorem UnmarshalCaddyfile_bad_integer :
  (forall s0 s d1,
      comesTo s0 s ->
      NextBlock 0 (disp s) = Some (true, d1) ->
      isIntOption (Val d1) = true ->
      valueMissing d1 \/ valueNotAlone d1 \/ valueNotInteger d1 ->
      exists cause d',
        UnmarshalCaddyfile s0
        = Some (Some (Errf d' (Errorf_field (Val d1) cause)),
                {| recv := recv s; disp := d' |})
        /\ namesOption (Errf d' (Errorf_field (Val d1) cause)) (Val d1))
  /\ forall file line good k args rest l,
      Forall (fun o => wellFormed o = true) good ->
      isIntOption k = true ->
      forallb plain args = true ->
      (args = [] \/ (2 <= List.length args)%nat
       \/ exists a, args = [a] /\ (decimal a = false \/ intValue a = None)) ->
      exists err cause d',
        UnmarshalCaddyfile
          {| recv := l;
             disp := NewDispenser
                       (configTokens file line (good ++ (k, args) :: rest)) |}
        = Some (Some err, {| recv := assignedAll good l; disp := d' |})
        /\ err = Errf d' (Errorf_field k cause)
        /\ namesOption err k
        /\ (forall Quote,
              Error Quote err
              = k ++ ": " ++ Error Quote cause ++ ", at " ++ file ++ ":"
                  ++ itoa (line + 1 + Z.of_nat (List.length good)))
        /\ File_ d' = file
        /\ Line_ d' = (line + 1 + Z.of_nat (List.length good))%Z.
Proof.
  split.
  { intros s0 s d1 Hs Hnext Hk Hv.
    destruct (switch_bad_integer {| recv := recv s; disp := d1 |} Hk Hv)
      as (cause & d' & H).
    exists cause, d'. split; [|apply names_field].
    apply (comesTo_rejects s0 s d1); [assumption|]. now split. }
  intros file line good k args rest l Hwf Hk Hplain Hargs.
  assert (Hbad : malformed (k, args) = true).
  { unfold malformed. rewrite Hk, Hplain. cbn [andb].
    destruct Hargs as [->|[Hlen|(a & -> & Ha)]]; [reflexivity| |].
    - destruct args as [|a [|b args]]; cbn in Hlen; try lia; reflexivity.
    - destruct Ha as [Ha|Ha]; [apply intValue_decimal in Ha|]; now rewrite Ha. }
  destruct (UnmarshalCaddyfile_malformed file line good (k, args) rest l Hwf Hbad)
    as (err & d' & HU & Hn & Hform & _ & _ & _ & Hf & Hl).
  cbn [fst] in Hform, Hn. unfold recognized in Hform. rewrite Hk in Hform.
  cbn [orb] in Hform. destruct Hform as [cause ->].
  exists (Errf d' (Errorf_field k cause)), cause, d'.
  repeat split; try assumption.
  intros Quote. unfold Errf, WrapErr, Errorf_field. cbn [Error append].
  rewrite Hf, Hl, !append_assoc. reflexivity.
Qed.

Lemma UnmarshalCaddyfile_bad_integer_witness :
  (comesTo (Written.start [Written.notAnInteger])
     (Written.entered [Written.notAnInteger])
   /\ NextBlock 0 (disp (Written.entered [Written.notAnInteger]))
      = Some (true, Written.firstKeyword [Written.notAnInteger])
   /\ isIntOption (Val (Written.firstKeyword [Written.notAnInteger])) = true
   /\ valueNotInteger (Written.firstKeyword [Written.notAnInteger])
   /\ exists cause d',
        UnmarshalCaddyfile (Written.start [Written.notAnInteger])
        = Some (Some (Errf d' (Errorf_field "registry_size" cause)),
                {| recv := zeroLua; disp := d' |}))
  /\ Forall (fun o => wellFormed o = true) Written.accepted
  /\ isIntOption "registry_size" = true
  /\ forallb plain ["abc"] = true
  /\ decimal "abc" = false
  /\ exists err d',
       Written.parse (Written.accepted ++ Written.notAnInteger :: Written.more)
       = Some ((assignedAll Written.accepted zeroLua, Some err), d')
       /\ namesOption err "registry_size"
       /\ Line_ d' = 4%Z.
Proof.
  assert (Hwf : Forall (fun o => wellFormed o = true) Written.accepted)
    by (repeat constructor).
  assert (Hs : comesTo (Written.start [Written.notAnInteger])
                 (Written.entered [Written.notAnInteger]))
    by (apply (comesTo_first (Written.start [Written.notAnInteger]));
        reflexivity).
  assert (Hv : valueNotInteger (Written.firstKeyword [Written.notAnInteger])).
  { do 2 eexists. split; [reflexivity|]. split; reflexivity. }
  split.
  { split; [exact Hs|]. do 2 (split; [reflexivity|]). split; [exact Hv|].
    destruct (proj1 UnmarshalCaddyfile_bad_integer
                (Written.start [Written.notAnInteger])
                (Written.entered [Written.notAnInteger])
                (Written.firstKeyword [Written.notAnInteger])
                Hs eq_refl eq_refl (or_intror (or_intror Hv)))
      as (cause & d' & HU & _).
    now exists cause, d'. }
  split; [exact Hwf|]. do 3 (split; [reflexivity|]).
  destruct (proj2 UnmarshalCaddyfile_bad_integer "Caddyfile" 1%Z
              Written.accepted "registry_size" ["abc"] Written.more zeroLua
              Hwf eq_refl eq_refl)
    as (err & cause & d' & HU & _ & Hn & _ & _ & Hl).
  { right; right. exists "abc". split; [reflexivity|left; reflexivity]. }
  exists err, d'. split; [|split; [exact Hn|exact Hl]].
  unfold Written.parse, parseCaddyfile, Written.notAnInteger.
  rewrite HU. reflexivity.
Defined.

(** C10.  [UnmarshalCaddyfile] is not atomic.  A failing [case] assigns
    nothing and undoes nothing.  So, for every token sequence, when
    [parseCaddyfile] returns an error it returns with it the handler value
    as the options accepted before the failing one have left it; and for a
    written block whose first line that is not well formed is malformed,
    that value holds what the lines before it assigned. *)
Theorem parseCaddyfile_not_atomic :
  (forall s e s',
      UnmarshalCaddyfile_switch s = Some (Some e, s') -> recv s' = recv s)
  /\ (forall d l e d',
        parseCaddyfile d = Some ((l, Some e), d') ->
        exists s d1,
          comesTo {| recv := zeroLua; disp := d |} s
          /\ rejects s d1 e {| recv := l; disp := d' |}
          /\ l = recv s)
  /\ forall file line good bad rest,
      Forall (fun o => wellFormed o = true) good ->
      malformed bad = true ->
      exists err d',
        parseCaddyfile
          (NewDispenser (configTokens file line (good ++ bad :: rest)))
        = Some ((assignedAll good zeroLua, Some err), d').
Proof.
  split; [exact switch_error_assigns_nothing|]. split.
  - intros d l e d' H. unfold parseCaddyfile in H.
    destruct (UnmarshalCaddyfile _) as [[r [l' d'']]|] eqn:U; [|discriminate].
    cbn [recv disp] in H. injection H as -> -> ->.
    destruct (UnmarshalCaddyfile_error_comesTo _ _ _ U) as (s & d1 & Hs & Hr).
    exists s, d1. split; [assumption|]. split; [assumption|].
    destruct Hr as [_ Hswitch].
    now apply switch_error_assigns_nothing in Hswitch.
  - intros file line good bad rest Hwf Hbad.
    destruct (UnmarshalCaddyfile_malformed file line good bad rest zeroLua
                Hwf Hbad) as (err & d' & HU & _).
    exists err, d'. unfold parseCaddyfile. now rewrite HU.
Qed.

Lemma parseCaddyfile_not_atomic_witness :
  Forall (fun o => wellFormed o = true) Written.accepted
  /\ malformed Written.notAnInteger = true
  /\ exists err d',
       Written.parse (Written.accepted ++ Written.notAnInteger :: Written.more)
       = Some (({| CallStackSize := 10; RegistrySize := 0;
                   RegistryMaxSize := 0; RegistryGrowStep := 0;
                   MinimizeStackMemory := false; HandlerPath := "/a.lua";
                   logger := None |}, Some err), d')
       /\ exists s d1 s',
            comesTo
              (Written.start
                 (Written.accepted ++ Written.notAnInteger :: Written.more)) s
            /\ UnmarshalCaddyfile_switch {| recv := recv s; disp := d1 |}
               = Some (Some err, s')
            /\ recv s' = recv s
            /\ HandlerPath (recv s) = "/a.lua".
Proof.
  assert (Hwf : Forall (fun o => wellFormed o = true) Written.accepted)
    by (repeat constructor).
  split; [exact Hwf|]. split; [reflexivity|].
  destruct (proj2 (proj2 parseCaddyfile_not_atomic) "Caddyfile" 1%Z
              Written.accepted Written.notAnInteger Written.more Hwf eq_refl)
    as (err & d' & Hparse).
  exists err, d'. split; [exact Hparse|].
  destruct (proj1 (proj2 parseCaddyfile_not_atomic) _ _ _ _ Hparse)
    as (s & d1 & Hs & [_ Hswitch] & Hl).
  exists s, d1, {| recv := assignedAll Written.accepted zeroLua; disp := d' |}.
  split; [exact Hs|]. split; [exact Hswitch|].
  split; [exact (proj1 parseCaddyfile_not_atomic _ _ _ Hswitch)|].
  now rewrite <- Hl.
Defined.


(** * More about the parser *)

(** X1.  [UnmarshalCaddyfile] returns on every dispenser, wherever its
    cursor and whatever its tokens: each round of either loop reads a token
    that was left.  It leaves the tokens as they are and never moves the
    cursor back. *)
Theorem UnmarshalCaddyfile_returns s :
  exists r s',
    UnmarshalCaddyfile s = Some (r, s')
    /\ tokens (disp s') = tokens (disp s)
    /\ (cursor (disp s) <= cursor (disp s'))%Z.
Proof.
  destruct (UnmarshalCaddyfile_total s) as (r & s' & H & [T C] & _).
  now exists r, s'.
Qed.

(** A property of the parser state that the three steps of the loops keep
    is kept by the loops. *)
Lemma block_keeps (P : Parser -> Prop) :
  (forall s b d1, P s -> NextBlock 0 (disp s) = Some (b, d1) ->
                  P {| recv := recv s; disp := d1 |}) ->
  (forall s r s', P s -> UnmarshalCaddyfile_switch s = Some (r, s') -> P s') ->
  forall n s r s', P s -> UnmarshalCaddyfile_block n s = Some (r, s') -> P s'.
Proof.
  intros Hblock Hswitch.
  induction n as [|n IH]; intros s r s' HP H; [discriminate|].
  rewrite block_S in H.
  destruct (NextBlock 0 (disp s)) as [[[|] d1]|] eqn:B; try discriminate.
  - pose proof (Hblock s true d1 HP B) as HP1.
    destruct (UnmarshalCaddyfile_switch _) as [[[e|] s2]|] eqn:W;
      try discriminate.
    + injection H as <- <-. eapply Hswitch; eassumption.
    + apply (IH s2 r s'); [|assumption]. eapply Hswitch; eassumption.
  - injection H as <- <-. eapply Hblock; eassumption.
Qed.

Lemma loop_keeps (P : Parser -> Prop) :
  (forall s b d1, P s -> Next (disp s) = Some (b, d1) ->
                  P {| recv := recv s; disp := d1 |}) ->
  (forall s b d1, P s -> NextBlock 0 (disp s) = Some (b, d1) ->
                  P {| recv := recv s; disp := d1 |}) ->
  (forall s r s', P s -> UnmarshalCaddyfile_switch s = Some (r, s') -> P s') ->
  forall n s r s', P s -> UnmarshalCaddyfile_loop n s = Some (r, s') -> P s'.
Proof.
  intros Hnext Hblock Hswitch.
  induction n as [|n IH]; intros s r s' HP H; [discriminate|].
  rewrite loop_S in H.
  destruct (Next (disp s)) as [[[|] d1]|] eqn:N; try discriminate.
  - pose proof (Hnext s true d1 HP N) as HP1.
    destruct (UnmarshalCaddyfile_block _ _) as [[[e|] s2]|] eqn:B;
      try discriminate.
    + injection H as <- <-. eapply block_keeps; eassumption.
    + apply (IH s2 r s'); [|assumption]. eapply block_keeps; eassumption.
  - injection H as <- <-. eapply Hnext; eassumption.
Qed.

Lemma UnmarshalCaddyfile_keeps (P : Parser -> Prop) :
  (forall s b d1, P s -> Next (disp s) = Some (b, d1) ->
                  P {| recv := recv s; disp := d1 |}) ->
  (forall s b d1, P s -> NextBlock 0 (disp s) = Some (b, d1) ->
                  P {| recv := recv s; disp := d1 |}) ->
  (forall s r s', P s -> UnmarshalCaddyfile_switch s = Some (r, s') -> P s') ->
  forall s r s', P s -> UnmarshalCaddyfile s = Some (r, s') -> P s'.
Proof.
  intros Hnext Hblock Hswitch s r s' HP H.
  unfold UnmarshalCaddyfile, bind, get in H.
  eapply loop_keeps; eassumption.
Qed.

Lemma Next_tokens d b d1 : Next d = Some (b, d1) -> tokens d1 = tokens d.
Proof.
  intros H. destruct (Next_total d) as (b0 & d0 & E & [T _] & _).
  rewrite H in E. now injection E as <- <-.
Qed.

Lemma NextBlock_tokens k d b d1 :
  NextBlock k d = Some (b, d1) -> tokens d1 = tokens d.
Proof.
  intros H. destruct (NextBlock_total k d) as (b0 & d0 & E & [T _] & _).
  rewrite H in E. now injection E as <- <-.
Qed.

Lemma switch_tokens s r s' :
  UnmarshalCaddyfile_switch s = Some (r, s') ->
  tokens (disp s') = tokens (disp s).
Proof.
  intros H. destruct (switch_total s) as (r0 & s0 & E & [[T _] _]).
  rewrite H in E. now injection E as <- <-.
Qed.

(** One run of the [switch] does nothing to the handler value, or makes the
    assignment of the [case] of the keyword under the cursor. *)
Lemma switch_assigns s r s' :
  UnmarshalCaddyfile_switch s = Some (r, s') ->
  assigns (Val (disp s)) (recv s) (recv s').
Proof.
  unfold UnmarshalCaddyfile_switch. unfold bind at 1, get.
  assert (Hint : forall field set,
    intOption field set s = Some (r, s') ->
    recv s' = recv s \/ exists i, recv s' = set i (recv s)).
  { intros field set H.
    destruct (intOption_total field set s) as (r0 & s0 & E & _ & Hr).
    rewrite H in E. now injection E as <- <-. }
  unfold assigns.
  destruct (String.eqb_spec (Val (disp s)) "call_stack_size") as [E|_].
  { intros H. apply Hint in H as [H|H]; [now left|]. right. left. now split. }
  destruct (String.eqb_spec (Val (disp s)) "registry_size") as [E|_].
  { intros H. apply Hint in H as [H|H]; [now left|].
    right. right. left. now split. }
  destruct (String.eqb_spec (Val (disp s)) "registry_max_size") as [E|_].
  { intros H. apply Hint in H as [H|H]; [now left|].
    do 3 right. left. now split. }
  destruct (String.eqb_spec (Val (disp s)) "registry_grow_step") as [E|_].
  { intros H. apply Hint in H as [H|H]; [now left|].
    do 4 right. left. now split. }
  clear Hint.
  destruct (String.eqb_spec (Val (disp s)) "minimize_stack_memory") as [E|_].
  { unfold bind at 1. rewrite onDispenser_eq.
    destruct (CountRemainingArgs (disp s)) as [[n d1]|]; [|discriminate].
    destruct (n >? 0)%Z; unfold bind, get, ret; intros [= <- <-]; now left. }
  destruct (String.eqb_spec (Val (disp s)) "handler_path") as [E|_].
  { unfold bind at 1. rewrite onDispenser_eq.
    destruct (Args _ (disp s)) as [[[ok vs] d1]|]; [|discriminate].
    unfold bind at 1, assign, modify.
    destruct (negb (fst (ok, vs))); unfold bind, get, ret;
      intros [= <- <-]; do 5 right; (split; [assumption|]);
      cbn [recv]; eexists; reflexivity. }
  unfold ret. intros [= <- <-]. now left.
Qed.

(** The fields that a run can have changed. *)
Lemma UnmarshalCaddyfile_sameUnlessMentioned s r s' :
  UnmarshalCaddyfile s = Some (r, s') ->
  sameUnlessMentioned (tokens (disp s)) (recv s) (recv s').
Proof.
  intros H.
  set (toks := tokens (disp s)). set (l := recv s).
  assert (HP : tokens (disp s') = toks /\ sameUnlessMentioned toks l (recv s')).
  { apply (UnmarshalCaddyfile_keeps
             (fun st => tokens (disp st) = toks
                        /\ sameUnlessMentioned toks l (recv st)))
      with (s := s) (r := r); [| | | |exact H].
    - intros st b d1 [T R] N. cbn [recv disp]. split; [|exact R].
      apply Next_tokens in N. congruence.
    - intros st b d1 [T R] N. cbn [recv disp]. split; [|exact R].
      apply NextBlock_tokens in N. congruence.
    - intros st r0 st' [T R] W. split.
      { apply switch_tokens in W. congruence. }
      pose proof (switch_assigns _ _ _ W) as A.
      assert (Hm : forall k, Val (disp st) = k -> k <> "" -> mentions toks k).
      { intros k Hk Hne. rewrite <- T. now apply Val_In. }
      destruct R as (R1 & R2 & R3 & R4 & R5 & R6 & R7).
      destruct A as [->|[[E [i ->]]|[[E [i ->]]|[[E [i ->]]|[[E [i ->]]
                     |[E [p0 ->]]]]]]];
        [now repeat split|..];
        (assert (M := Hm _ E ltac:(discriminate));
         unfold sameUnlessMentioned; cbn;
         repeat split; try assumption; intros Hno; now elim Hno).
    - split; [reflexivity|]. unfold sameUnlessMentioned. now repeat split. }
  exact (proj2 HP).
Qed.

(** X2.  Whatever the tokens, [UnmarshalCaddyfile] changes a field of the
    handler value only if some token reads the keyword of that field; it
    never changes [MinimizeStackMemory] or [logger].  So it is when it
    returns an error too. *)
Theorem UnmarshalCaddyfile_frame s r s' :
  UnmarshalCaddyfile s = Some (r, s') ->
  sameUnlessMentioned (tokens (disp s)) (recv s) (recv s').
Proof. apply UnmarshalCaddyfile_sameUnlessMentioned. Qed.

Lemma UnmarshalCaddyfile_frame_witness :
  sameUnlessMentioned
    (configTokens "Caddyfile" 1 [("registry_size", ["5"]); ("bogus", [])])
    zeroLua (setRegistrySize 5 zeroLua).
Proof.
  apply (UnmarshalCaddyfile_frame
           {| recv := zeroLua;
              disp := NewDispenser
                        (configTokens "Caddyfile" 1
                           [("registry_size", ["5"]); ("bogus", [])]) |}
           (Some (Errf (onKeyword "Caddyfile" 1 [("registry_size", ["5"])]
                          ("bogus", []) [])
                    (Errorf_unknown "bogus")))
           {| recv := setRegistrySize 5 zeroLua;
              disp := onKeyword "Caddyfile" 1 [("registry_size", ["5"])]
                        ("bogus", []) [] |}).
  vm_compute. reflexivity.
Defined.

(** X3.  [parseCaddyfile] returns on every dispenser, and the handler value
    it returns, with or without an error, has Go's zero in every field whose
    keyword no token reads; [MinimizeStackMemory] is false and [logger] is
    nil whatever the tokens. *)
Theorem parseCaddyfile_defaults d :
  exists l err d',
    parseCaddyfile d = Some ((l, err), d')
    /\ (~ mentions (tokens d) "call_stack_size" -> CallStackSize l = 0%Z)
    /\ (~ mentions (tokens d) "registry_size" -> RegistrySize l = 0%Z)
    /\ (~ mentions (tokens d) "registry_max_size" -> RegistryMaxSize l = 0%Z)
    /\ (~ mentions (tokens d) "registry_grow_step" ->
        RegistryGrowStep l = 0%Z)
    /\ (~ mentions (tokens d) "handler_path" -> HandlerPath l = "")
    /\ MinimizeStackMemory l = false
    /\ logger l = None.
Proof.
  unfold parseCaddyfile.
  destruct (UnmarshalCaddyfile_total {| recv := zeroLua; disp := d |})
    as (r & [l d'] & H & _).
  rewrite H. exists l, r, d'. split; [reflexivity|].
  exact (UnmarshalCaddyfile_sameUnlessMentioned _ _ _ H).
Qed.

Lemma parseCaddyfile_defaults_witness :
  exists l err d',
    parseCaddyfile
      (NewDispenser
         (configTokens "Caddyfile" 1
            [("registry_size", ["5"]); ("minimize_stack_memory", [])]))
    = Some ((l, err), d')
    /\ CallStackSize l = 0%Z
    /\ HandlerPath l = ""
    /\ MinimizeStackMemory l = false.
Proof.
  destruct (parseCaddyfile_defaults
              (NewDispenser
                 (configTokens "Caddyfile" 1
                    [("registry_size", ["5"]);
                     ("minimize_stack_memory", [])])))
    as (l & err & d' & H & H1 & _ & _ & _ & H5 & H6 & _).
  exists l, err, d'. split; [exact H|].
  assert (Hno : forall k,
    (forall t,
        In t (configTokens "Caddyfile" 1
                [("registry_size", ["5"]); ("minimize_stack_memory", [])]) ->
        Text t <> k) ->
    ~ mentions
        (tokens
           (NewDispenser
              (configTokens "Caddyfile" 1
                 [("registry_size", ["5"]);
                  ("minimize_stack_memory", [])]))) k).
  { intros k Hk (t & Hin & Ht). exact (Hk t Hin Ht). }
  split; [apply H1|split; [apply H5|exact H6]]; apply Hno;
    intros t Hin; cbn in Hin;
    repeat (destruct Hin as [<-|Hin]; [discriminate|]); destruct Hin.
Defined.

(** * More about [asInt] *)

Section IntegerBounds.

Local Abbreviation cutoff := (strconv.maxUint64 / 10 + 1)%Z.
Local Abbreviation maxVal := (to_uint64 (Z.shiftl 1 64 - 1)).

(** Digits that stand for more than [2^64 - 1]: [ParseUint] stops on the
    digit that overflows. *)
Lemma ParseUint_loop_overflow s0 s : forall n,
  (0 <= n <= 2 ^ 64 - 1)%Z -> allDigits s = true ->
  (2 ^ 64 - 1 < digitsValue s n)%Z ->
  strconv.ParseUint_loop 10 cutoff maxVal s0 s n
  = (maxVal, Some (strconv.rangeError strconv.fnParseUint s0)).
Proof.
  assert (Hcut : cutoff = 1844674407370955162%Z) by reflexivity.
  assert (Hmax : maxVal = (2 ^ 64 - 1)%Z) by reflexivity.
  induction s as [|c s IH]; intros n Hn Hd Hv; cbn [digitsValue] in Hv; [lia|].
  cbn [allDigits] in Hd. apply andb_true_iff in Hd as [Hc Hd].
  cbn [strconv.ParseUint_loop].
  destruct (digit_of_decimal c Hc) as [-> Hr].
  change (to_uint8 10) with 10%Z.
  replace (byte_of c - 48 >=? 10)%Z with false
    by (symmetry; rewrite Z.geb_leb; apply Z.leb_gt; lia).
  destruct (n >=? cutoff)%Z eqn:En; [reflexivity|].
  rewrite Z.geb_leb in En. apply Z.leb_gt in En. rewrite Hcut in En.
  assert (E10 : to_uint64 (n * 10) = (n * 10)%Z).
  { unfold to_uint64. apply Z.mod_small. lia. }
  rewrite E10.
  destruct (Z_le_gt_dec (n * 10 + (byte_of c - 48)) (2 ^ 64 - 1)) as [Hle|Hgt].
  - assert (E1 : to_uint64 (n * 10 + (byte_of c - 48))
                 = (n * 10 + (byte_of c - 48))%Z).
    { unfold to_uint64. apply Z.mod_small. lia. }
    rewrite E1, Hmax.
    replace (_ <? _)%Z with false by (symmetry; apply Z.ltb_ge; lia).
    replace (_ >? _)%Z with false
      by (symmetry; rewrite Z.gtb_ltb; apply Z.ltb_ge; lia).
    cbn [orb]. rewrite <- Hmax. apply IH; [lia|assumption|].
    replace (n * 10 + (byte_of c - 48))%Z
      with (10 * n + (byte_of c - 48))%Z by lia.
    assumption.
  - assert (E1 : to_uint64 (n * 10 + (byte_of c - 48))
                 = (n * 10 + (byte_of c - 48) - 2 ^ 64)%Z).
    { unfold to_uint64.
      symmetry. apply (Z.mod_unique _ _ 1); lia. }
    rewrite E1.
    replace (_ <? _)%Z with true by (symmetry; apply Z.ltb_lt; lia).
    reflexivity.
Qed.

Lemma ParseUint_overflow s :
  unsignedDecimal s = true -> (2 ^ 64 - 1 < digitsValue s 0)%Z ->
  strconv.ParseUint s 10 64
  = (maxVal, Some (strconv.rangeError strconv.fnParseUint s)).
Proof.
  intros Hd Hv. unfold strconv.ParseUint.
  destruct s as [|c s]; [discriminate|].
  change (String.eqb (String c s) "") with false. cbv iota.
  apply ParseUint_loop_overflow; [lia|exact Hd|exact Hv].
Qed.

(** What [ParseUint] returns for digits, in one of two ways. *)
Lemma ParseUint_digits s :
  unsignedDecimal s = true ->
  (0 <= digitsValue s 0)%Z
  /\ ((digitsValue s 0 <= 2 ^ 64 - 1)%Z
      /\ strconv.ParseUint s 10 64 = (digitsValue s 0, None)
      \/ (2 ^ 63 < digitsValue s 0)%Z
         /\ strconv.ParseUint s 10 64
            = ((2 ^ 64 - 1)%Z,
               Some (strconv.rangeError strconv.fnParseUint s))).
Proof.
  intros Hd.
  assert (H0 : (0 <= digitsValue s 0)%Z).
  { apply digitsValue_ge; [|lia]. destruct s; [discriminate|exact Hd]. }
  split; [assumption|].
  destruct (Z_le_gt_dec (digitsValue s 0) (2 ^ 64 - 1)) as [Hle|Hgt].
  - left. split; [assumption|]. now apply ParseUint_value.
  - right. split; [lia|]. apply ParseUint_overflow; [assumption|lia].
Qed.

(** A base-10 integer as written that is out of the range of [int64]:
    [ParseInt] returns the range error. *)
Lemma ParseInt_out_of_range s :
  decimal s = true -> ~ (- 2 ^ 63 <= decimalValue s < 2 ^ 63)%Z ->
  exists v,
    strconv.ParseInt s 10 64
    = (v, Some (strconv.rangeError strconv.fnParseInt s)).
Proof.
  destruct s as [|c0 rest]; [discriminate|].
  unfold decimal, decimalValue, strconv.ParseInt.
  assert (Hcut : to_uint64 (Z.shiftl 1 (64 - 1)) = (2 ^ 63)%Z) by reflexivity.
  assert (Htail : forall t neg,
    unsignedDecimal t = true ->
    (if neg : bool then (2 ^ 63 < digitsValue t 0)%Z
     else (2 ^ 63 <= digitsValue t 0)%Z) ->
    exists v,
      (let '(un, err) := strconv.ParseUint t 10 64 in
       if match err with
          | Some e => negb (strconv.isErrRange e)
          | None => false
          end
       then (0%Z, option_map
                    (fun e => strconv.setFuncNum e strconv.fnParseInt
                                (String c0 rest)) err)
       else
         if negb neg && (un >=? to_uint64 (Z.shiftl 1 (64 - 1)))%Z
         then (to_int64 (to_uint64 (Z.shiftl 1 (64 - 1)) - 1),
               Some (strconv.rangeError strconv.fnParseInt (String c0 rest)))
         else if neg && (un >? to_uint64 (Z.shiftl 1 (64 - 1)))%Z
         then (to_int64 (- to_int64 (to_uint64 (Z.shiftl 1 (64 - 1)))),
               Some (strconv.rangeError strconv.fnParseInt (String c0 rest)))
         else
           let n := to_int64 un in
           ((if neg then to_int64 (- n) else n), None))
      = (v, Some (strconv.rangeError strconv.fnParseInt (String c0 rest)))).
  { intros t neg Ht Hv. rewrite Hcut.
    destruct (ParseUint_digits t Ht) as [H0 [[Hle ->]|[Hgt ->]]].
    - destruct neg; cbn [negb andb].
      + replace (_ >? _)%Z with true
          by (symmetry; rewrite Z.gtb_ltb; apply Z.ltb_lt; lia).
        eexists; reflexivity.
      + replace (_ >=? _)%Z with true
          by (symmetry; rewrite Z.geb_leb; apply Z.leb_le; lia).
        eexists; reflexivity.
    - change (strconv.isErrRange
                (strconv.rangeError strconv.fnParseUint t)) with true.
      cbn [negb]. destruct neg; cbn [negb andb].
      + replace (_ >? _)%Z with true by reflexivity.
        eexists; reflexivity.
      + replace (_ >=? _)%Z with true by reflexivity.
        eexists; reflexivity. }
  destruct (Ascii.eqb c0 "+") eqn:Eplus; cbn [orb].
  { intros Hd Hv. apply (Htail rest false Hd).
    pose proof (digitsValue_ge rest 0).
    destruct rest; [discriminate|]. specialize (H Hd). lia. }
  destruct (Ascii.eqb c0 "-") eqn:Eminus.
  { intros Hd Hv. apply (Htail rest true Hd).
    pose proof (digitsValue_ge rest 0).
    destruct rest; [discriminate|]. specialize (H Hd). lia. }
  intros Hd Hv. apply (Htail (String c0 rest) false Hd).
  pose proof (digitsValue_ge (String c0 rest) 0 Hd). lia.
Qed.

(** [asInt] takes an argument for the integer [v] exactly when the argument
    is a base-10 integer as written, within the range of [int64], that
    stands for [v]. *)
Lemma intValue_iff s v :
  intValue s = Some v
  <-> decimal s = true /\ (- 2 ^ 63 <= decimalValue s < 2 ^ 63)%Z
      /\ v = decimalValue s.
Proof.
  split.
  - intros H.
    assert (Hd : decimal s = true).
    { destruct (decimal s) eqn:E; [reflexivity|].
      apply intValue_decimal in E. congruence. }
    split; [assumption|].
    destruct (Z_le_dec (- 2 ^ 63) (decimalValue s)) as [Hlo|Hlo];
      [destruct (Z_lt_dec (decimalValue s) (2 ^ 63)) as [Hhi|Hhi]|].
    + rewrite intValue_value in H by (try split; assumption).
      injection H as <-. now repeat split.
    + exfalso. destruct (ParseInt_out_of_range s Hd) as [x E]; [lia|].
      unfold intValue in H. now rewrite E in H.
    + exfalso. destruct (ParseInt_out_of_range s Hd) as [x E]; [lia|].
      unfold intValue in H. now rewrite E in H.
  - intros (Hd & Hv & ->). now apply intValue_value.
Qed.

End IntegerBounds.

(** X4.  On every dispenser, [asInt] returns the integer [v] and no error
    exactly when one argument, and no more, follows on the line, and that
    argument is a base-10 integer as written (digits after an optional
    sign), within the range of [int64], that stands for [v]; the cursor is
    then on the argument. *)
Theorem asInt_accepts_iff d v d' :
  asInt d = Some ((v, None), d')
  <-> exists d1,
        NextArg d = Some (true, d1) /\ NextArg d1 = Some (false, d')
        /\ decimal (Val d1) = true
        /\ (- 2 ^ 63 <= decimalValue (Val d1) < 2 ^ 63)%Z
        /\ v = decimalValue (Val d1).
Proof.
  unfold asInt, AllArgs. cbn [Args]. unfold bind.
  split.
  - destruct (NextArg d) as [[[|] d1]|] eqn:N1; cbn [negb]; unfold get, ret;
      cbn [fst snd negb hd]; try discriminate.
    destruct (NextArg d1) as [[[|] d2]|] eqn:N2; cbn [fst snd negb hd];
      try discriminate.
    + destruct (Prev d2) as [[b d3]|]; discriminate.
    + destruct (strconv.ParseInt (Val d1) 10 64) as [i [e|]] eqn:E;
        [discriminate|].
      intros [= <- <-]. exists d1.
      assert (Hv : intValue (Val d1) = Some (to_int i))
        by (unfold intValue; now rewrite E).
      apply intValue_iff in Hv as (H1 & H2 & H3).
      repeat split; try assumption; try reflexivity; apply H2.
  - intros (d1 & -> & H2 & Hd & Hr & ->). cbn [negb]. unfold get, ret.
    cbn [fst snd negb hd]. rewrite H2. cbn [fst snd negb hd].
    assert (Hv : intValue (Val d1) = Some (decimalValue (Val d1)))
      by (apply intValue_iff; tauto).
    unfold intValue in Hv.
    destruct (strconv.ParseInt (Val d1) 10 64) as [i [e|]]; [discriminate|].
    now injection Hv as ->.
Qed.

Lemma asInt_accepts_iff_witness :
  asInt (around [tk 1 "lua"; tk 1 "{"] (tk 2 "registry_size")
           [tk 2 "-12"; tk 3 "}"] 1)
  = Some (((-12)%Z, None),
          around [tk 1 "lua"; tk 1 "{"; tk 2 "registry_size"] (tk 2 "-12")
            [tk 3 "}"] 1).
Proof.
  apply (proj2 (asInt_accepts_iff
                  (around [tk 1 "lua"; tk 1 "{"] (tk 2 "registry_size")
                     [tk 2 "-12"; tk 3 "}"] 1)
                  (-12)%Z
                  (around [tk 1 "lua"; tk 1 "{"; tk 2 "registry_size"]
                     (tk 2 "-12") [tk 3 "}"] 1))).
  exists (around [tk 1 "lua"; tk 1 "{"; tk 2 "registry_size"] (tk 2 "-12")
            [tk 3 "}"] 1).
  split; [vm_compute; reflexivity|]. split; [vm_compute; reflexivity|].
  split; [reflexivity|]. split; [|reflexivity].
  vm_compute. split; [discriminate|reflexivity].
Defined.

(** * More about written configurations *)

Lemma lastArg_snoc k os o :
  lastArg k (os ++ [o])
  = if String.eqb (fst o) k then Some (hd "" (snd o)) else lastArg k os.
Proof. unfold lastArg. now rewrite fold_left_app. Qed.

Lemma assignedAll_snoc os o l :
  assignedAll (os ++ [o]) l = assigned o (assignedAll os l).
Proof. unfold assignedAll. now rewrite fold_left_app. Qed.

(** What a well-formed line leaves in each field. *)
Lemma assigned_fields o l :
  wellFormed o = true ->
  CallStackSize (assigned o l)
  = (if String.eqb (fst o) "call_stack_size"
     then decimalValue (hd "" (snd o)) else CallStackSize l)
  /\ RegistrySize (assigned o l)
     = (if String.eqb (fst o) "registry_size"
        then decimalValue (hd "" (snd o)) else RegistrySize l)
  /\ RegistryMaxSize (assigned o l)
     = (if String.eqb (fst o) "registry_max_size"
        then decimalValue (hd "" (snd o)) else RegistryMaxSize l)
  /\ RegistryGrowStep (assigned o l)
     = (if String.eqb (fst o) "registry_grow_step"
        then decimalValue (hd "" (snd o)) else RegistryGrowStep l)
  /\ HandlerPath (assigned o l)
     = (if String.eqb (fst o) "handler_path"
        then hd "" (snd o) else HandlerPath l)
  /\ MinimizeStackMemory (assigned o l) = MinimizeStackMemory l
  /\ logger (assigned o l) = logger l.
Proof.
  destruct o as [k args]. intros Hwf. cbn [fst snd].
  assert (Hi : isIntOption k = true ->
               intValue (hd "" args) = Some (decimalValue (hd "" args))).
  { intros Hk. unfold wellFormed in Hwf. rewrite Hk in Hwf.
    destruct args as [|a [|b args]]; try discriminate.
    apply andb_true_iff in Hwf as [_ Hv]. cbn [hd].
    destruct (intValue a) as [i|] eqn:E; [|discriminate].
    apply intValue_iff in E as (_ & _ & ->). reflexivity. }
  unfold assigned.
  destruct (String.eqb_spec k "call_stack_size") as [->|_].
  { rewrite Hi by reflexivity. cbn. now repeat split. }
  destruct (String.eqb_spec k "registry_size") as [->|_].
  { rewrite Hi by reflexivity. cbn. now repeat split. }
  destruct (String.eqb_spec k "registry_max_size") as [->|_].
  { rewrite Hi by reflexivity. cbn. now repeat split. }
  destruct (String.eqb_spec k "registry_grow_step") as [->|_].
  { rewrite Hi by reflexivity. cbn. now repeat split. }
  destruct (String.eqb_spec k "handler_path") as [->|_].
  { cbn. now repeat split. }
  now repeat split.
Qed.

(** The fields after the lines of a well-formed block, one after the
    other: the last line for a keyword is the one that counts. *)
Lemma assignedAll_fields os l :
  Forall (fun o => wellFormed o = true) os ->
  let l' := assignedAll os l in
  let int k old :=
    match lastArg k os with Some a => decimalValue a | None => old end in
  CallStackSize l' = int "call_stack_size" (CallStackSize l)
  /\ RegistrySize l' = int "registry_size" (RegistrySize l)
  /\ RegistryMaxSize l' = int "registry_max_size" (RegistryMaxSize l)
  /\ RegistryGrowStep l' = int "registry_grow_step" (RegistryGrowStep l)
  /\ HandlerPath l'
     = match lastArg "handler_path" os with
       | Some a => a
       | None => HandlerPath l
       end
  /\ MinimizeStackMemory l' = MinimizeStackMemory l
  /\ logger l' = logger l.
Proof.
  induction os as [|o os IH] using rev_ind; intros Hwf.
  - cbn. now repeat split.
  - apply Forall_app in Hwf as [Hos Ho]. inversion Ho as [|? ? Ho' _]; subst.
    specialize (IH Hos). cbv beta zeta in IH |- *.
    destruct IH as (I1 & I2 & I3 & I4 & I5 & I6 & I7).
    rewrite assignedAll_snoc, !lastArg_snoc.
    destruct (assigned_fields o (assignedAll os l) Ho')
      as (A1 & A2 & A3 & A4 & A5 & A6 & A7).
    rewrite A1, A2, A3, A4, A5, A6, A7. clear A1 A2 A3 A4 A5 A6 A7.
    repeat split; try assumption;
      (destruct (String.eqb (fst o) _); [reflexivity|assumption]).
Qed.

(** X5.  A written configuration of well-formed lines is parsed without
    error, and the last line for an option is the one that counts: each
    integer field holds the integer that the last line with its keyword
    writes, or zero if there is none; [HandlerPath] holds the argument of
    the last [handler_path] line, or is empty; [MinimizeStackMemory] is
    false whatever the lines. *)
Theorem parseCaddyfile_last_line_counts file line os :
  Forall (fun o => wellFormed o = true) os ->
  exists l d',
    parseCaddyfile (NewDispenser (configTokens file line os))
    = Some ((l, None), d')
    /\ CallStackSize l = writtenInt "call_stack_size" os
    /\ RegistrySize l = writtenInt "registry_size" os
    /\ RegistryMaxSize l = writtenInt "registry_max_size" os
    /\ RegistryGrowStep l = writtenInt "registry_grow_step" os
    /\ HandlerPath l = writtenPath os
    /\ MinimizeStackMemory l = false.
Proof.
  intros Hwf. unfold parseCaddyfile.
  rewrite (UnmarshalCaddyfile_wellFormed file line os zeroLua Hwf).
  do 2 eexists. split; [reflexivity|]. cbn [recv].
  destruct (assignedAll_fields os zeroLua Hwf)
    as (A1 & A2 & A3 & A4 & A5 & A6 & _).
  unfold writtenInt, writtenPath. cbn [zeroLua CallStackSize RegistrySize
    RegistryMaxSize RegistryGrowStep HandlerPath MinimizeStackMemory] in *.
  now repeat split.
Qed.

Lemma parseCaddyfile_last_line_counts_witness :
  exists l d',
    parseCaddyfile
      (NewDispenser
         (configTokens "Caddyfile" 3
            [("registry_size", ["256"]); ("handler_path", ["/srv/a.lua"]);
             ("registry_size", ["-12"]); ("handler_path", ["/srv/b.lua"])]))
    = Some ((l, None), d')
    /\ CallStackSize l = 0%Z
    /\ RegistrySize l = (-12)%Z
    /\ HandlerPath l = "/srv/b.lua".
Proof.
  destruct (parseCaddyfile_last_line_counts "Caddyfile" 3
              [("registry_size", ["256"]); ("handler_path", ["/srv/a.lua"]);
               ("registry_size", ["-12"]); ("handler_path", ["/srv/b.lua"])])
    as (l & d' & H & H1 & H2 & _ & _ & H5 & _).
  - repeat constructor.
  - exists l, d'. split; [exact H|]. split; [exact H1|].
    split; [exact H2|exact H5].
Defined.

(** * A directive without a block *)

(** Without an opening brace among the tokens, [NextBlock] finds no block
    and leaves the dispenser as it is. *)
Lemma NextBlock_no_brace d :
  (nesting d <= 0)%Z -> ~ mentions (tokens d) "{" ->
  NextBlock 0 d = Some (false, d).
Proof.
  intros Hn Hno. unfold NextBlock. unfold bind at 1, get.
  replace (nesting d >? 0)%Z with false
    by (symmetry; rewrite Z.gtb_ltb; apply Z.ltb_ge; lia).
  unfold bind at 1.
  destruct (nextOnSameLine_total d) as (b & d1 & -> & T & N & Ht & Hf).
  destruct b; cbn [negb].
  - destruct (Ht eq_refl) as [C _]. unfold bind at 1, get.
    destruct (String.eqb_spec (Val d1) "{") as [E|_].
    + exfalso. apply Hno. rewrite <- T.
      apply Val_In; [assumption|discriminate].
    + cbn [negb]. unfold bind, decCursor, modify, ret. do 2 f_equal.
      destruct d, d1. unfold setCursor. cbn in *. subst. f_equal. lia.
  - now rewrite (Hf eq_refl).
Qed.

Lemma loop_no_brace n : forall s r s',
  (nesting (disp s) <= 0)%Z -> ~ mentions (tokens (disp s)) "{" ->
  UnmarshalCaddyfile_loop n s = Some (r, s') ->
  r = None /\ recv s' = recv s.
Proof.
  induction n as [|n IH]; intros s r s' Hn Hno H; [discriminate|].
  rewrite loop_S in H.
  destruct (Next_total (disp s)) as (b & d1 & E & [T C] & N & _).
  rewrite E in H. destruct b.
  - unfold remaining in H. rewrite block_S in H. cbn [disp recv] in H.
    rewrite NextBlock_no_brace in H by (rewrite ?N, ?T; assumption).
    apply IH in H; cbn [disp recv] in *; rewrite ?N, ?T; assumption.
  - injection H as <- <-. now split.
Qed.

(** X6.  A directive written without a block sets nothing.  When no token
    is an opening brace (the dispenser not being inside a block already),
    [UnmarshalCaddyfile] returns no error and leaves the handler value as
    it was: options written on the line of the directive are dropped
    without a word. *)
Theorem UnmarshalCaddyfile_without_block s :
  (nesting (disp s) <= 0)%Z -> ~ mentions (tokens (disp s)) "{" ->
  exists d',
    UnmarshalCaddyfile s = Some (None, {| recv := recv s; disp := d' |})
    /\ tokens d' = tokens (disp s).
Proof.
  intros Hn Hno.
  destruct (UnmarshalCaddyfile_total s) as (r & [l d'] & H & [T _] & _).
  pose proof H as H'. unfold UnmarshalCaddyfile, bind, get in H'.
  apply loop_no_brace in H' as [-> Hl]; [|assumption..].
  cbn [recv disp] in *. subst l. now exists d'.
Qed.

Lemma UnmarshalCaddyfile_without_block_witness :
  exists d',
    UnmarshalCaddyfile
      {| recv := zeroLua;
         disp := NewDispenser
                   [tk 1 "lua"; tk 1 "handler_path"; tk 1 "/srv/app.lua"] |}
    = Some (None, {| recv := zeroLua; disp := d' |})
    /\ tokens d' = [tk 1 "lua"; tk 1 "handler_path"; tk 1 "/srv/app.lua"].
Proof.
  apply (UnmarshalCaddyfile_without_block
           {| recv := zeroLua;
              disp := NewDispenser
                        [tk 1 "lua"; tk 1 "handler_path";
                         tk 1 "/srv/app.lua"] |}).
  - cbn. lia.
  - intros (t & Hin & Ht). cbn in Hin.
    destruct Hin as [<-|[<-|[<-|[]]]]; discriminate.
Defined.

(** * The [case]s without an integer *)

Lemma Val_inside d : Val d <> "" -> (0 <= cursor d)%Z.
Proof.
  unfold Val, outside. intros H.
  destruct (cursor d <? 0)%Z eqn:E; [now elim H|].
  apply Z.ltb_ge in E. exact E.
Qed.

(** X7.  The [case] of [minimize_stack_memory], on every dispenser: it
    returns an error exactly when an argument follows the keyword on its
    line; the error names the keyword and wraps the dispenser's argument
    error; with or without an error, the handler value is as it was and the
    cursor is back on the keyword. *)
Theorem switch_minimize_stack_memory s :
  Val (disp s) = "minimize_stack_memory" ->
  exists r,
    UnmarshalCaddyfile_switch s = Some (r, s)
    /\ (r = None <-> NextArg (disp s) = Some (false, disp s))
    /\ (r <> None ->
        r = Some (Errf (disp s)
                    (Errorf_field "minimize_stack_memory"
                       (ArgErr (disp s))))).
Proof.
  intros Hv.
  assert (Hc : (-1 <= cursor (disp s))%Z).
  { assert (0 <= cursor (disp s))%Z; [|lia].
    apply Val_inside. rewrite Hv. discriminate. }
  destruct (CountRemainingArgs_restores (disp s) Hc) as (n & E & Hn & Hz).
  unfold UnmarshalCaddyfile_switch. unfold bind at 1, get. rewrite Hv.
  cbn [String.eqb Ascii.eqb Bool.eqb]. cbv iota.
  unfold bind at 1. rewrite onDispenser_eq, E.
  assert (Hs : {| recv := recv s; disp := disp s |} = s) by now destruct s.
  rewrite Hs.
  destruct (n >? 0)%Z eqn:En; rewrite Z.gtb_ltb in En.
  - apply Z.ltb_lt in En. unfold bind, get, ret.
    eexists. split; [reflexivity|]. split; [|reflexivity].
    split; [discriminate|]. intros H. apply Hz in H. lia.
  - apply Z.ltb_ge in En. unfold ret.
    exists None. split; [reflexivity|]. split; [|congruence].
    split; [intros _; apply Hz; lia|reflexivity].
Qed.

Lemma switch_minimize_stack_memory_witness :
  exists r,
    UnmarshalCaddyfile_switch
      {| recv := zeroLua;
         disp := around [tk 1 "lua"; tk 1 "{"] (tk 2 "minimize_stack_memory")
                   [tk 2 "true"; tk 3 "}"] 1 |}
    = Some (r, {| recv := zeroLua;
                  disp := around [tk 1 "lua"; tk 1 "{"]
                            (tk 2 "minimize_stack_memory")
                            [tk 2 "true"; tk 3 "}"] 1 |})
    /\ r <> None.
Proof.
  destruct (switch_minimize_stack_memory
              {| recv := zeroLua;
                 disp := around [tk 1 "lua"; tk 1 "{"]
                           (tk 2 "minimize_stack_memory")
                           [tk 2 "true"; tk 3 "}"] 1 |} eq_refl)
    as (r & H & Hiff & _).
  exists r. split; [exact H|].
  intros Hr. apply Hiff in Hr. vm_compute in Hr. discriminate.
Defined.

(** The [case] of [handler_path] with an argument on the line: it takes the
    argument and looks no further. *)
Lemma switch_handler_path_arg file line pre a post nest l :
  plain a = true ->
  UnmarshalCaddyfile_switch
    {| recv := l;
       disp := around pre (mkToken file line "handler_path")
                 (mkToken file line a :: post) nest |}
  = Some (None,
          {| recv := setHandlerPath a l;
             disp := around (pre ++ [mkToken file line "handler_path"])
                       (mkToken file line a) post nest |}).
Proof.
  intros Ha.
  unfold UnmarshalCaddyfile_switch. unfold bind at 1, get.
  cbn [disp recv]. rewrite around_Val. cbn [Text].
  cbn [String.eqb Ascii.eqb Bool.eqb]. cbv iota.
  unfold bind at 1. rewrite onDispenser_eq. cbn [disp recv Args].
  unfold bind at 1. rewrite (NextArg_arg file line) by assumption.
  cbn [negb]. unfold bind, get, ret, assign, modify.
  cbn [fst snd hd negb recv disp]. now rewrite around_Val.
Qed.

(** X8.  [handler_path] takes the first argument on its line and does not
    look at what follows it: in a written block, what follows the path on
    the line of [handler_path] is read as the next option.  The line
    [handler_path a k args...] is parsed as the two lines [handler_path a]
    and [k args...]. *)
Theorem handler_path_rest_of_line file line good a k args rest l :
  Forall (fun o => wellFormed o = true) good ->
  plain a = true ->
  Forall (fun o => wellFormed o = true) ((k, args) :: rest) ->
  let toks :=
    configTokens file line
      (good ++ ("handler_path", a :: k :: args) :: rest) in
  exists d',
    UnmarshalCaddyfile {| recv := l; disp := NewDispenser toks |}
    = Some (None,
            {| recv := assignedAll
                         (good ++ ("handler_path", [a]) :: (k, args) :: rest)
                         l;
               disp := d' |})
    /\ tokens d' = toks
    /\ cursor d' = (Z.of_nat (List.length toks) - 1)%Z.
Proof.
  intros Hgood Ha Hrest toks.
  set (two := (k, args) :: rest) in *.
  set (here := (line + 1 + Z.of_nat (List.length good))%Z).
  set (close := mkToken file
         (line + 1
          + Z.of_nat (List.length
                        (good ++ ("handler_path", a :: k :: args) :: rest)))
         "}").
  set (hp := mkToken file here "handler_path").
  assert (Htoks : toks
    = (mkToken file line "lua" :: mkToken file line "{"
         :: blockTokens file (line + 1) good
         ++ hp :: mkToken file here a
         :: blockTokens file here two ++ [close])%list).
  { subst toks two hp close. unfold configTokens.
    rewrite blockTokens_app. fold here.
    cbn [blockTokens lineTokens fst snd map app].
    rewrite <- !app_assoc. cbn [app]. rewrite <- !app_assoc. reflexivity. }
  assert (Hresult :
    assignedAll (good ++ ("handler_path", [a]) :: two) l
    = assignedAll two (setHandlerPath a (assignedAll good l))).
  { unfold assignedAll. rewrite fold_left_app. reflexivity. }
  rewrite Hresult.
  assert (Hblock : exists pre cur,
    (pre ++ [cur])%list = toks
    /\ UnmarshalCaddyfile_block
         (List.length good + S (List.length two + 1))
         {| recv := l;
            disp := around [] (mkToken file line "lua")
                      (mkToken file line "{"
                         :: blockTokens file (line + 1) good
                         ++ hp :: mkToken file here a
                         :: blockTokens file here two ++ [close]) 0 |}
       = Some (None,
               {| recv := assignedAll two
                            (setHandlerPath a (assignedAll good l));
                  disp := around pre cur [] 0 |})).
  { assert (Hhead : exists n post,
      (blockTokens file (line + 1) good
         ++ hp :: mkToken file here a
         :: blockTokens file here two ++ [close])%list = n :: post
      /\ String.eqb (Text n) "}" = false /\ String.eqb (Text n) "{" = false).
    { destruct good as [|[k0 a0] good'].
      - do 2 eexists. split; [reflexivity|]. now split.
      - cbn [blockTokens lineTokens fst snd app]. do 2 eexists.
        split; [reflexivity|]. cbn [Text].
        apply (wellFormed_keyword k0 a0). now inversion Hgood. }
    destruct Hhead as (n & post & Hhead & Hc & Ho).
    rewrite Hhead.
    replace (List.length good + S (List.length two + 1))%nat
      with (S (List.length good + (List.length two + 1)))%nat by lia.
    rewrite block_enter by (try apply sameLine; auto).
    rewrite <- Hhead. cbn [app].
    replace (S (List.length good + (List.length two + 1)))%nat
      with (List.length good + S (List.length two + 1))%nat by lia.
    destruct (block_good file good Hgood (line + 1)%Z
                [mkToken file line "lua"] (mkToken file line "{")
                (hp :: mkToken file here a
                   :: blockTokens file here two ++ [close])%list
                l (S (List.length two + 1)))
      as (pre1 & cur1 & Hpre1 & ->).
    { cbn. split; [reflexivity|]. subst here. lia. }
    rewrite block_S. cbn [disp recv].
    rewrite NextBlock_inner by reflexivity.
    subst hp. rewrite switch_handler_path_arg by assumption.
    destruct (block_good file two Hrest here
                ((pre1 ++ [cur1]) ++ [mkToken file here "handler_path"])%list
                (mkToken file here a) [close]
                (setHandlerPath a (assignedAll good l)) 1%nat)
      as (pre2 & cur2 & Hpre2 & ->).
    { subst close two here. cbn [startsLater File Line]. split; [reflexivity|].
      rewrite length_app. cbn [List.length]. lia. }
    rewrite block_S. cbn [disp recv].
    rewrite NextBlock_close by reflexivity.
    do 2 eexists. split; [|reflexivity].
    rewrite Htoks, Hpre2, Hpre1, <- !app_assoc. cbn [app].
    rewrite <- ?app_assoc. reflexivity. }
  destruct Hblock as (pre & cur & Hpre & Hblock).
  exists (around pre cur [] 0). split.
  - apply loop_enough with (n := 2%nat).
    rewrite loop_S. cbn [disp recv]. rewrite Htoks at 1.
    rewrite Next_new.
    apply block_enough in Hblock. cbn [disp] in Hblock. rewrite Hblock.
    rewrite loop_S. cbn [disp recv]. now rewrite Next_around_end.
  - unfold around. cbn [tokens cursor]. rewrite app_nil_r || idtac.
    split; [exact Hpre|].
    rewrite <- Hpre, length_app. cbn [List.length]. lia.
Qed.

Lemma handler_path_rest_of_line_witness :
  exists l d',
    UnmarshalCaddyfile
      {| recv := zeroLua;
         disp := NewDispenser
                   (configTokens "Caddyfile" 1
                      [("handler_path",
                        ["/srv/app.lua"; "registry_size"; "64"])]) |}
    = Some (None, {| recv := l; disp := d' |})
    /\ HandlerPath l = "/srv/app.lua"
    /\ RegistrySize l = 64%Z.
Proof.
  destruct (handler_path_rest_of_line "Caddyfile" 1 [] "/srv/app.lua"
              "registry_size" ["64"] [] zeroLua) as (d' & H & _).
  - constructor.
  - reflexivity.
  - repeat constructor.
  - eexists. exists d'. split; [exact H|]. split; reflexivity.
Defined.

(** * The errors of the parser *)

(** The errors of the [switch]: the one of the [default] case, or one that
    wraps a cause, placed where the dispenser stands on return. *)
Lemma switch_error_form s e s' :
  UnmarshalCaddyfile_switch s = Some (Some e, s') ->
  e = Errf (disp s') (Errorf_unknown (Val (disp s)))
  \/ exists cause, e = Errf (disp s') (Errorf_field (Val (disp s)) cause).
Proof.
  unfold UnmarshalCaddyfile_switch. unfold bind at 1, get.
  assert (Hint : forall field set,
    intOption field set s = Some (Some e, s') ->
    exists cause, e = Errf (disp s') (Errorf_field field cause)).
  { intros field set. unfold intOption. unfold bind at 1.
    rewrite onDispenser_eq.
    destruct (asInt (disp s)) as [[[v [err|]] d1]|]; cbn [snd fst];
      unfold bind, get, ret, assign, modify; [|discriminate..].
    intros [= <- <-]. now exists err. }
  destruct (String.eqb (Val (disp s)) "call_stack_size");
    [intros H; right; exact (Hint _ _ H)|].
  destruct (String.eqb (Val (disp s)) "registry_size");
    [intros H; right; exact (Hint _ _ H)|].
  destruct (String.eqb (Val (disp s)) "registry_max_size");
    [intros H; right; exact (Hint _ _ H)|].
  destruct (String.eqb (Val (disp s)) "registry_grow_step");
    [intros H; right; exact (Hint _ _ H)|].
  clear Hint.
  destruct (String.eqb (Val (disp s)) "minimize_stack_memory").
  { unfold bind at 1. rewrite onDispenser_eq.
    destruct (CountRemainingArgs (disp s)) as [[n d1]|]; [|discriminate].
    destruct (n >? 0)%Z; unfold bind, get, ret; [|discriminate].
    intros [= <- <-]. right. eexists. reflexivity. }
  destruct (String.eqb (Val (disp s)) "handler_path").
  { unfold bind at 1. rewrite onDispenser_eq.
    destruct (Args _ (disp s)) as [[[ok vs] d1]|]; [|discriminate].
    unfold bind at 1, assign, modify.
    destruct (negb (fst (ok, vs))); unfold bind, get, ret; [|discriminate].
    intros [= <- <-]. right. eexists. reflexivity. }
  unfold ret. intros [= <- <-]. now left.
Qed.



(** * The end of a run *)

Lemma loop_nil_exhausted n : forall s s',
  UnmarshalCaddyfile_loop n s = Some (None, s') ->
  (len (disp s') - 1 <= cursor (disp s'))%Z.
Proof.
  induction n as [|n IH]; intros s s' H; [discriminate|].
  rewrite loop_S, Next_eq in H.
  destruct (cursor (disp s) <? len (disp s) - 1)%Z eqn:E.
  - destruct (UnmarshalCaddyfile_block _ _) as [[[e|] s2]|];
      try discriminate.
    now apply IH in H.
  - injection H as <-. cbn [disp]. now apply Z.ltb_ge in E.
Qed.

(** X10.  When [UnmarshalCaddyfile] returns no error it has read all the
    tokens: the cursor is on the last one or beyond, [d.Next()] has nothing
    more to give, whatever followed the block has been run through the
    loops as well. *)
Theorem UnmarshalCaddyfile_nil_reads_all s s' :
  UnmarshalCaddyfile s = Some (None, s') ->
  (len (disp s') - 1 <= cursor (disp s'))%Z
  /\ Next (disp s') = Some (false, disp s')
  /\ tokens (disp s') = tokens (disp s).
Proof.
  intros H.
  destruct (UnmarshalCaddyfile_total s) as (r0 & s0 & E & [T _] & _).
  rewrite H in E. injection E as <- <-.
  unfold UnmarshalCaddyfile, bind, get in H.
  apply loop_nil_exhausted in H.
  split; [assumption|]. split; [|assumption].
  rewrite Next_eq.
  now replace (_ <? _)%Z with false by (symmetry; apply Z.ltb_ge; lia).
Qed.

Lemma UnmarshalCaddyfile_nil_reads_all_witness :
  exists s',
    UnmarshalCaddyfile
      {| recv := zeroLua;
         disp := NewDispenser
                   (configTokens "Caddyfile" 1
                      [("handler_path", ["/srv/app.lua"])]
                    ++ [tk 4 "respond"; tk 4 "{"; tk 5 "registry_size";
                        tk 5 "7"; tk 6 "}"]) |}
    = Some (None, s')
    /\ Next (disp s') = Some (false, disp s')
    /\ RegistrySize (recv s') = 7%Z.
Proof.
  eexists. split; [vm_compute; reflexivity|].
  split; [|reflexivity].
  apply (UnmarshalCaddyfile_nil_reads_all
           {| recv := zeroLua;
              disp := NewDispenser
                        (configTokens "Caddyfile" 1
                           [("handler_path", ["/srv/app.lua"])]
                         ++ [tk 4 "respond"; tk 4 "{"; tk 5 "registry_size";
                             tk 5 "7"; tk 6 "}"]) |}).
  vm_compute. reflexivity.
Defined.


(** * From the configuration to the request *)

Section LifeCycle.
Variables Store World : Type.
Variable newLState : lua.Options -> Store.
Variable OpenLibs : Store -> Store.
Variable runFile : Store -> string -> World -> Store * World * option error.
Variables ResponseWriter Request : Type.

Local Abbreviation Machine := (Machine Store World ResponseWriter Request).
Local Abbreviation Handler := (Handler World ResponseWriter Request).
Local Abbreviation serve :=
  (ServeHTTP Store World newLState OpenLibs runFile ResponseWriter Request).
Local Abbreviation serveEach :=
  (serveAll Store World newLState OpenLibs runFile ResponseWriter Request).
Local Abbreviation fresh := (interpreter Store newLState OpenLibs).

(** X11.  From the configuration to the request.  A written configuration
    of well-formed lines is parsed without error; [Provision] returns no
    error and keeps the parsed path; [Validate] accepts the handler
    exactly when the last [handler_path] line gives a path that is not
    empty; and every request then runs the file of that path, once, in a
    fresh interpreter. *)
Theorem written_configuration_served file line os lg :
  Forall (fun o => wellFormed o = true) os ->
  exists l d' l',
    parseCaddyfile (NewDispenser (configTokens file line os))
    = Some ((l, None), d')
    /\ Provision lg l = (l', None)
    /\ HandlerPath l' = writtenPath os
    /\ (Validate l' = None <-> writtenPath os <> "")
    /\ forall w r (next : Handler) (m : Machine),
         exists res m',
           serve l' w r next m = Some (res, m')
           /\ In (lua.DoFileEv (List.length (lua.heap m)) (writtenPath os)
                    (snd (runFile (lua.store fresh) (writtenPath os)
                            (lua.world m))))
                 (newEvents m m')
           /\ count isDoFile (newEvents m m') = 1%nat.
Proof.
  intros Hwf. unfold parseCaddyfile.
  rewrite (UnmarshalCaddyfile_wellFormed file line os zeroLua Hwf).
  cbn [recv disp].
  destruct (assignedAll_fields os zeroLua Hwf) as (_ & _ & _ & _ & A5 & _).
  cbn [zeroLua HandlerPath] in A5. fold (writtenPath os) in A5.
  exists (assignedAll os zeroLua), (atEnd file line os),
    (setLogger (Some lg) (assignedAll os zeroLua)).
  assert (Hp : HandlerPath (setLogger (Some lg) (assignedAll os zeroLua))
               = writtenPath os) by exact A5.
  split; [reflexivity|]. split; [reflexivity|].
  split; [exact Hp|]. split.
  - unfold Validate. rewrite Hp.
    destruct (String.eqb_spec (writtenPath os) "") as [E|E].
    + split; [discriminate|congruence].
    + split; [intros _; exact E|reflexivity].
  - intros w r next m. rewrite ServeHTTP_unfold. unfold scriptRun.
    rewrite Hp.
    destruct (runFile _ _ _) as [[st wd] [e|]]; cbn [snd].
    + do 2 eexists. split; [reflexivity|].
      erewrite newEvents_app by reflexivity.
      split; [right; left; reflexivity|reflexivity].
    + destruct (next w r wd) as [res wd'].
      do 2 eexists. split; [reflexivity|].
      erewrite newEvents_app by reflexivity.
      split; [right; left; reflexivity|reflexivity].
Qed.

(** One request: its result, the interpreter it leaves on the heap, and
    the calls it adds to the record. *)
Lemma ServeHTTP_step l w r (next : Handler) (m : Machine) :
  exists res ls wd evs,
    serve l w r next m
    = Some (res, {| lua.heap := lua.heap m ++ [ls]; lua.world := wd;
                    lua.trace := lua.trace m ++ evs |})
    /\ lua.closed ls = true
    /\ lua.options ls = fst (lua.effectiveOptions [])
    /\ count isDoFile evs = 1%nat
    /\ Forall (fun e => match e with
                        | lua.DoFileEv _ path _ => path = HandlerPath l
                        | _ => True
                        end) evs.
Proof.
  rewrite ServeHTTP_unfold.
  destruct (scriptRun _ _ _ _ _ _ _ l m) as [[st wd] [e|]]; cbv zeta.
  - do 4 eexists. split; [reflexivity|]. repeat split.
    repeat constructor.
  - destruct (next w r wd) as [res wd'].
    do 4 eexists. split; [reflexivity|]. repeat split.
    repeat constructor.
Qed.


End LifeCycle.

Lemma written_configuration_served_witness :
  exists l d' l',
    parseCaddyfile
      (NewDispenser
         (configTokens "Caddyfile" 1
            [("handler_path", ["/none.lua"]); ("handler_path", ["/ok.lua"])]))
    = Some ((l, None), d')
    /\ Provision (zapLogger "lua") l = (l', None)
    /\ Validate l' = None
    /\ exists res m',
         Demo.serve l' Demo.boot = Some (res, m')
         /\ In (lua.DoFileEv 0 "/ok.lua" None) (newEvents Demo.boot m').
Proof.
  destruct (written_configuration_served Demo.Store Demo.World
              Demo.newLState Demo.OpenLibs Demo.runFile unit unit
              "Caddyfile" 1
              [("handler_path", ["/none.lua"]); ("handler_path", ["/ok.lua"])]
              (zapLogger "lua"))
    as (l & d' & l' & Hparse & Hprov & _ & Hval & Hserve).
  - repeat constructor.
  - exists l, d', l'. split; [exact Hparse|]. split; [exact Hprov|].
    split; [apply Hval; discriminate|].
    destruct (Hserve tt tt Demo.final Demo.boot) as (res & m' & E & Hin & _).
    exists res, m'. split; [exact E|exact Hin].
Defined.
